(** * RETS.app: a shallow embedding of the sync engine and its helpers

    The development follows the TypeScript sources of the service:

    - [Js]              the JavaScript string primitives the sources call
    - [Schema]          lib/db/tables/schema.ts ([getRetsToMySQLType])
    - [RetsParser]      lib/rets/retsParser.ts
    - [Json]            [JSON.stringify] and [JSON.parse] on arrays of
                        strings, as the lockout file uses them
    - [Service]         service.ts ([shouldRunFullSync], the lockout file,
                        [fetchRetsUpdates], [syncData]) with
                        [sanitizeRecord] and [formatRetsDate] of
                        lib/db/db.ts
    - [PropertyCleanup] lib/rets/propertyCleanupService.ts
                        ([groupByTable], [checkPropertyStatus])
    - [SyncPhotos]      scripts/syncPhotosToObjectStorage.ts ([uploadFile])
    - [Photos]          lib/rets/propertyPhotos.ts ([getPropertyPhotos])
                        and lib/rets/photos.ts ([getPhoto],
                        [parseMultipartResponse])
    - [Scenario]        concrete replies, catalogs and environments

    Conventions.  A JavaScript string is a [string]: a sequence of 8-bit
    code units (the Latin-1 range of UTF-16), and so is a [Buffer].  A
    Number that the sources obtain with [parseInt] is an integer-valued
    double or an infinity ([Js.number]: the integer that the double is
    worth, an exact [Z]); [NaN] is [None].  A parsed row, which the
    sources type as [any] and read by property name, is a
    [gmap string string]: a missing property is [undefined].  A
    [Set<string>] is a [gset string] and a [Map] an association list in
    insertion order.

    A function that throws returns a [result].  The code that awaits the
    database, the RETS server, the file system, the clock or the random
    generator reads the answers from an environment record, so that a
    statement holds for every behaviour of the outside; a [while] loop
    whose end depends on those answers takes fuel, and running out of it
    is an outcome of its own, distinct from returning and from throwing.
    Times are exact integers in milliseconds and delays exact
    rationals. *)

From Stdlib Require Import ZArith QArith Qminmax Lqa Ascii String List Bool Lia
  DecimalString DecimalPos DecimalN.
From stdpp Require Import gmap strings list.

Local Open Scope string_scope.
Local Open Scope Z_scope.

(** ** JavaScript primitives *)

Module Js.

(** [WhiteSpace] and [LineTerminator] code units below 256: the
    characters [String.prototype.trim] strips and the class [\s]
    matches. *)
Definition isWhiteSpace (a : ascii) : bool :=
  let n := N_of_ascii a in
  ((9 <=? n) && (n <=? 13) || (n =? 32) || (n =? 160))%N.

Definition isDigit (a : ascii) : bool :=
  let n := N_of_ascii a in ((48 <=? n) && (n <=? 57))%N.

(** The class [\w]: letters, digits and the underscore. *)
Definition isWord (a : ascii) : bool :=
  let n := N_of_ascii a in
  ((48 <=? n) && (n <=? 57) || (65 <=? n) && (n <=? 90)
   || (97 <=? n) && (n <=? 122) || (n =? 95))%N.

Definition dquote : ascii := ascii_of_N 34.
Definition backslash : ascii := ascii_of_N 92.
Definition tab : ascii := ascii_of_N 9.
Definition lf : ascii := ascii_of_N 10.
Definition cr : ascii := ascii_of_N 13.

(** A one-character string, and a value between double quotes. *)
Definition str (a : ascii) : string := String a EmptyString.
Definition quoted (s : string) : string := String dquote (s ++ str dquote).

Definition isEmpty (s : string) : bool :=
  match s with EmptyString => true | String _ _ => false end.

(** JavaScript truthiness of a string value. *)
Definition truthy (s : string) : bool := negb (isEmpty s).

(** Truthiness of a property that may be [undefined]. *)
Definition truthyProp (o : option string) : bool :=
  match o with Some s => truthy s | None => false end.

Fixpoint trimStart (s : string) : string :=
  match s with
  | EmptyString => EmptyString
  | String a r => if isWhiteSpace a then trimStart r else s
  end.

Fixpoint trimEnd (s : string) : string :=
  match s with
  | EmptyString => EmptyString
  | String a r =>
      let r' := trimEnd r in
      if isWhiteSpace a && isEmpty r' then EmptyString else String a r'
  end.

Definition trim (s : string) : string := trimEnd (trimStart s).

Definition startsWith (p s : string) : bool := String.prefix p s.

Fixpoint drop (n : nat) (s : string) : string :=
  match n, s with
  | O, _ => s
  | S k, String _ r => drop k r
  | S _, EmptyString => EmptyString
  end.

Fixpoint take (n : nat) (s : string) : string :=
  match n, s with
  | S k, String a r => String a (take k r)
  | _, _ => EmptyString
  end.

(** [s.indexOf(sub)]; [None] is JavaScript's [-1]. *)
Fixpoint indexOf (sub s : string) : option nat :=
  if String.prefix sub s then Some O
  else match s with
       | EmptyString => None
       | String _ r => option_map S (indexOf sub r)
       end.

Definition includes (sub s : string) : bool :=
  match indexOf sub s with Some _ => true | None => false end.

(** The longest prefix of [s] whose characters satisfy [p], and what
    follows it. *)
Fixpoint span (p : ascii -> bool) (s : string) : string * string :=
  match s with
  | EmptyString => (EmptyString, EmptyString)
  | String a r =>
      if p a then let '(x, y) := span p r in (String a x, y)
      else (EmptyString, s)
  end.

(** [s.split(sep)] for a non-empty separator.  [skip] counts the
    characters of a separator occurrence that are still to be passed
    over; the head of the result is the piece under construction. *)
Fixpoint splitFrom (sep s : string) (skip : nat) : list string :=
  match s with
  | EmptyString => [EmptyString]
  | String a r =>
      match skip with
      | S k => splitFrom sep r k
      | O =>
          if String.prefix sep s
          then EmptyString :: splitFrom sep r (Nat.pred (String.length sep))
          else match splitFrom sep r O with
               | p :: ps => String a p :: ps
               | [] => [String a EmptyString]
               end
      end
  end.

Definition split (sep s : string) : list string := splitFrom sep s O.

Fixpoint join (sep : string) (l : list string) : string :=
  match l with
  | [] => EmptyString
  | [x] => x
  | x :: r => x ++ sep ++ join sep r
  end.

(** Leftmost match of a pattern that is tried at every position. *)
Fixpoint search {A : Type} (here : string -> option A) (s : string)
  : option A :=
  match here s with
  | Some x => Some x
  | None => match s with
            | EmptyString => None
            | String _ r => search here r
            end
  end.

(** All the matches of a global pattern, left to right and without
    overlap.  [here] returns the capture and the length of the match. *)
Fixpoint matchAll {A : Type} (here : string -> option (A * nat))
  (s : string) (skip : nat) : list A :=
  match skip with
  | S k =>
      match s with
      | EmptyString => []
      | String _ r => matchAll here r k
      end
  | O =>
      match here s with
      | Some (c, len) =>
          c :: match s with
               | EmptyString => []
               | String _ r => matchAll here r (Nat.pred len)
               end
      | None =>
          match s with
          | EmptyString => []
          | String _ r => matchAll here r O
          end
      end
  end.

Definition toLowerChar (a : ascii) : ascii :=
  let n := N_of_ascii a in
  if ((65 <=? n) && (n <=? 90)
      || (192 <=? n) && (n <=? 222) && negb (n =? 215))%N
  then ascii_of_N (n + 32) else a.

Fixpoint toLowerCase (s : string) : string :=
  match s with
  | EmptyString => EmptyString
  | String a r => String (toLowerChar a) (toLowerCase r)
  end.

(** The value of a digit in the given radix. *)
Definition digitValue (radix : Z) (a : ascii) : option Z :=
  let n := Z.of_N (N_of_ascii a) in
  let v := if (48 <=? n) && (n <=? 57) then Some (n - 48)
           else if (97 <=? n) && (n <=? 122) then Some (n - 87)
           else if (65 <=? n) && (n <=? 90) then Some (n - 55)
           else None in
  match v with
  | Some d => if d <? radix then Some d else None
  | None => None
  end.

(** The longest prefix of digits, read in the radix; [None] when there
    is no digit at all. *)
Fixpoint parseDigits (radix : Z) (s : string) (acc : option Z)
  : option Z :=
  match s with
  | EmptyString => acc
  | String a r =>
      match digitValue radix a with
      | Some d =>
          parseDigits radix r
            (Some (radix * (match acc with Some v => v | None => 0 end) + d))
      | None => acc
      end
  end.

(** An integer-valued Number: a double whose value is an integer, or an
    infinity.  Minus zero is not told apart from zero: the sources only
    compare and print the Numbers they parse, and both zeros compare and
    print alike. *)
Inductive number : Type :=
| Finite (value : Z)
| Infinity (negative : bool).

(** The Number value of a mathematical integer: the nearest double,
    ties to the even mantissa, and an infinity from 2^1024 - 2^970 on.
    Below 2^53 every integer is a double.  Above, [e] low bits do not fit
    the 53-bit mantissa [q] and are rounded away. *)
Definition toNumber (z : Z) : number :=
  let m := Z.abs z in
  if m <? 2 ^ 53 then Finite z
  else
    let e := Z.log2 m - 52 in
    let q := Z.shiftr m e in
    let r := m - Z.shiftl q e in
    let half := 2 ^ (e - 1) in
    let q' := if (half <? r) || ((r =? half) && Z.odd q) then q + 1 else q in
    let v := Z.shiftl q' e in
    if 2 ^ 1024 <=? v then Infinity (z <? 0) else Finite (Z.sgn z * v).

(** [a < b] and [a <= b] on Numbers. *)
Definition ltNumber (a b : number) : bool :=
  match a, b with
  | Finite x, Finite y => x <? y
  | Finite _, Infinity negative => negb negative
  | Infinity negative, Finite _ => negative
  | Infinity n1, Infinity n2 => n1 && negb n2
  end.

Definition leNumber (a b : number) : bool :=
  match a, b with
  | Finite x, Finite y => x <=? y
  | Finite _, Infinity negative => negb negative
  | Infinity negative, Finite _ => negative
  | Infinity n1, Infinity n2 => n1 || negb n2
  end.

(** [parseInt(s)] and [parseInt(s, 10)]: leading white space, a sign,
    a [0x] prefix when the radix is left open, then digits; the result
    is the Number value of the integer that the digits denote, every
    digit counted.  [None] is [NaN]. *)
Definition parseInt (s : string) (radix : option Z) : option number :=
  let s1 := trimStart s in
  let '(sign, s2) :=
    match s1 with
    | String "-"%char r => (-1, r)
    | String "+"%char r => (1, r)
    | _ => (1, s1)
    end in
  let '(rdx, s3) :=
    match radix with
    | Some r => (r, s2)
    | None =>
        if String.prefix "0x" s2 || String.prefix "0X" s2
        then (16, drop 2 s2) else (10, s2)
    end in
  match parseDigits rdx s3 None with
  | Some v => Some (toNumber (sign * v))
  | None => None
  end.

(** A value that may be [null] inside a template literal. *)
Definition template (o : option string) : string :=
  match o with Some s => s | None => "null" end.

(** The decimal digits of a natural number. *)
Definition decimal (z : Z) : string :=
  NilZero.string_of_uint (N.to_uint (Z.to_N z)).

Fixpoint zeros (n : nat) : string :=
  match n with O => EmptyString | S k => String "0" (zeros k) end.

(** [Number::toString] looks for integers [n], [k] and [s] with [s] of
    [k] digits, [k] as small as possible, such that [s * 10^(n - k)] has
    the Number value [x].  The candidates with [k] digits at a given [n]
    are the two integers around [x / 10^(n - k)]. *)
Definition candidates (x k n : Z) : list (Z * Z) :=
  if n <? k then []
  else
    let scale := 10 ^ (n - k) in
    let lo := x / scale in
    List.map (fun s => (s, n))
      (List.filter
         (fun s => (10 ^ (k - 1) <=? s) && (s <? 10 ^ k)
                   && match toNumber (s * scale) with
                      | Finite y => y =? x
                      | Infinity _ => false
                      end)
         (if x mod scale =? 0 then [lo] else [lo; lo + 1])).

(** Of two candidates, the one whose value is closer to [x]; the even
    one when they are as close. *)
Definition closer (x k : Z) (a b : Z * Z) : Z * Z :=
  let da := Z.abs (fst a * 10 ^ (snd a - k) - x) in
  let db := Z.abs (fst b * 10 ^ (snd b - k) - x) in
  if da <? db then a
  else if db <? da then b
  else if Z.even (fst a) then a else b.

(** The search for [(s, k, n)], from [k] digits upwards; [d] is the
    number of digits of [x].  Seventeen digits tell any two doubles
    apart, so the fuel is never used up. *)
Fixpoint shortestFrom (fuel : nat) (x d k : Z) : Z * Z * Z :=
  match fuel with
  | O => (x, d, d)
  | S fuel' =>
      match (candidates x k d ++ candidates x k (d + 1))%list with
      | a :: r => let '(s, n) := fold_left (closer x k) r a in (s, k, n)
      | [] => shortestFrom fuel' x d (k + 1)
      end
  end.

(** A positive integer-valued Number as a template literal prints it:
    below 2^53 its digits (no shorter digit string has its value); up to
    21 digits the digits of [s] and zeros; beyond, the exponent form. *)
Definition printPositive (x : Z) : string :=
  if x <? 2 ^ 53 then decimal x
  else
    let '(s, k, n) :=
      shortestFrom 17 x (Z.of_nat (String.length (decimal x))) 1 in
    if n <=? 21 then decimal s ++ zeros (Z.to_nat (n - k))
    else
      match decimal s with
      | String a EmptyString => String a ("e+" ++ decimal (n - 1))
      | String a r => String a ("." ++ r ++ "e+" ++ decimal (n - 1))
      | EmptyString => EmptyString
      end.

(** A Number inside a template literal. *)
Definition numberToString (x : number) : string :=
  match x with
  | Infinity false => "Infinity"
  | Infinity true => "-Infinity"
  | Finite z => if z <? 0 then "-" ++ printPositive (- z) else printPositive z
  end.

End Js.

(** ** lib/db/tables/schema.ts *)

Module Schema.

(** [field.MaxLength ? parseInt(field.MaxLength) : undefined].  The
    outer [None] is [undefined], [Some None] is [NaN]. *)
Definition parsedNumber (p : option string) : option (option Js.number) :=
  if Js.truthyProp p
  then Some (Js.parseInt (default EmptyString p) None)
  else None.

Definition maxLength (field : gmap string string)
  : option (option Js.number) :=
  parsedNumber (field !! "MaxLength").

Definition precision (field : gmap string string)
  : option (option Js.number) :=
  parsedNumber (field !! "Precision").

(** The [switch] compares [dataType] with each label in turn, with
    [===]; [undefined] equals no label. *)
Definition getRetsToMySQLType (field : gmap string string) : string :=
  let dataType := Js.toLowerCase <$> (field !! "DataType") in
  let interpretation := field !! "Interpretation" in
  let case (label : string) := bool_decide (dataType = Some label) in
  if bool_decide (interpretation = Some "LookupMulti") then "TEXT"
  else if bool_decide (interpretation = Some "Lookup") then "VARCHAR(50)"
  else if case "int" || case "small" || case "tiny" then "INT"
  else if case "long" then "BIGINT"
  else if case "datetime"
  then "DATETIME default '0000-00-00 00:00:00' NOT NULL"
  else if case "character" then
    match maxLength field with
    | Some (Some n) =>
        if Js.ltNumber (Js.Finite 0) n && Js.leNumber n (Js.Finite 255)
        then "VARCHAR(" ++ Js.numberToString n ++ ")"
        else if Js.ltNumber (Js.Finite 255) n then "TEXT"
        else "TEXT"
    | _ => "TEXT"
    end
  else if case "decimal" then
    match maxLength field, precision field with
    | Some (Some n), Some (Some p) =>
        if Js.ltNumber (Js.Finite 0) n && Js.leNumber (Js.Finite 0) p
           && Js.ltNumber p n
        then "DECIMAL(" ++ Js.numberToString n ++ ","
             ++ Js.numberToString p ++ ")"
        else "DECIMAL(10,2)"
    | _, _ => "DECIMAL(10,2)"
    end
  else if case "boolean" then "CHAR(1)"
  else if case "date" then "DATE default '0000-00-00' NOT NULL"
  else if case "time" then "TIME default '00:00:00' NOT NULL"
  else "TEXT".

End Schema.

(** ** Results of fallible code

    [Throw] carries the message of the JavaScript [Error]. *)

Inductive result (A : Type) : Type :=
| Ok (a : A)
| Throw (message : string).

Arguments Ok {A} a.
Arguments Throw {A} message.

Definition rbind {A B : Type} (r : result A) (k : A -> result B) : result B :=
  match r with
  | Ok a => k a
  | Throw m => Throw m
  end.

Definition isOk {A : Type} (r : result A) : bool :=
  match r with Ok _ => true | Throw _ => false end.

(** ** lib/rets/retsParser.ts *)

Module RetsParser.

Record MetadataBlock : Type := {
  Type_ : string;
  attributes : gmap string string;
  Data : list (gmap string string)
}.

(** The properties a [RetsResponse] may carry; [None] is a property
    that the parser did not set. *)
Record RetsResponse : Type := {
  ReplyCode : string;
  ReplyText : string;
  Metadata : option MetadataBlock;
  RETS_RESPONSE : option (gmap string string);
  Count : option Js.number;
  records : option (list (gmap string string))
}.

(** The pattern [NAME=Q([^Q]+)Q], where [Q] is the double quote,
    tried at the start of [s]: the capture. *)
Definition attributeHere (name s : string) : option string :=
  let opening := name ++ "=" ++ Js.str Js.dquote in
  if String.prefix opening s then
    let '(v, rest) := Js.span (fun a => negb (Ascii.eqb a Js.dquote))
                        (Js.drop (String.length opening) s) in
    if Js.truthy v && String.prefix (Js.str Js.dquote) rest
    then Some v else None
  else None.

(** [s.match] with that pattern: the leftmost match. *)
Definition matchAttribute (name s : string) : option string :=
  Js.search (attributeHere name) s.

(** [/OPEN([\s\S]*?)CLOSE/] at the start of [s]: capture and length. *)
Definition lazyBlockHere (opening closing s : string)
  : option (string * nat) :=
  if String.prefix opening s then
    let rest := Js.drop (String.length opening) s in
    match Js.indexOf closing rest with
    | Some i =>
        Some (Js.take i rest,
              (String.length opening + i + String.length closing)%nat)
    | None => None
    end
  else None.

(** [/OPEN([^<]+)CLOSE/] at the start of [s]: capture and length. *)
Definition textBlockHere (opening closing s : string)
  : option (string * nat) :=
  if String.prefix opening s then
    let '(v, rest) := Js.span (fun a => negb (Ascii.eqb a "<"%char))
                        (Js.drop (String.length opening) s) in
    if Js.truthy v && String.prefix closing rest
    then Some (v, (String.length opening + String.length v
                   + String.length closing)%nat)
    else None
  else None.

(** [/<METADATA-([^>\s]+)/] at the start of [s]. *)
Definition metadataTypeHere (s : string) : option string :=
  if String.prefix "<METADATA-" s then
    let '(v, _) :=
      Js.span (fun a => negb (Ascii.eqb a ">"%char || Js.isWhiteSpace a))
        (Js.drop 10 s) in
    if Js.truthy v then Some v else None
  else None.

Definition parseMetadataType (xmlString : string) : option string :=
  match Js.split (Js.str Js.lf) xmlString with
  | _ :: line1 :: _ => Js.search metadataTypeHere line1
  | _ => None
  end.

(** The global pattern [(\w+)=Q([^Q]+)Q] at the start of [s]: the
    whole match and its length. *)
Definition keyValueHere (s : string) : option (string * nat) :=
  let '(k, rest) := Js.span Js.isWord s in
  if Js.truthy k && String.prefix ("=" ++ Js.str Js.dquote) rest then
    let '(v, rest') := Js.span (fun a => negb (Ascii.eqb a Js.dquote))
                         (Js.drop 2 rest) in
    if Js.truthy v && String.prefix (Js.str Js.dquote) rest'
    then Some (k ++ "=" ++ Js.quoted v,
               (String.length k + String.length v + 3)%nat)
    else None
  else None.

(** [match.replace] of every double quote by the empty string. *)
Fixpoint removeQuotes (s : string) : string :=
  match s with
  | EmptyString => EmptyString
  | String a r =>
      if Ascii.eqb a Js.dquote then removeQuotes r
      else String a (removeQuotes r)
  end.

Definition parseAttributes (tag : string) : gmap string string :=
  fold_left
    (fun attrs m =>
       match Js.split "=" (removeQuotes m) with
       | key :: value :: _ => <[key := value]> attrs
       | _ => attrs
       end)
    (Js.matchAll keyValueHere tag O) ∅.

(** [values[index] || ''], for each column in order; a column name
    that comes twice keeps the later value. *)
Fixpoint assignColumns (columns values : list string)
  (obj : gmap string string) : gmap string string :=
  match columns with
  | [] => obj
  | col :: cols =>
      assignColumns cols (tail values)
        (<[col := List.hd EmptyString values]> obj)
  end.

Definition parseTabDelimitedData (columns data : string)
  : gmap string string :=
  let columnNames :=
    List.filter Js.truthy (Js.trim <$> Js.split (Js.str Js.tab) columns) in
  let values := Js.trim <$> Js.split (Js.str Js.tab) data in
  assignColumns columnNames values ∅.

Definition loginUrls (body : string) : gmap string string :=
  fold_left
    (fun urls line =>
       if Js.includes "=" line then
         match Js.trim <$> Js.split "=" line with
         | key :: value :: _ =>
             if Js.truthy key && Js.truthy value
                && negb (Js.startsWith "Info" key)
             then <[key := value]> urls else urls
         | _ => urls
         end
       else urls)
    (Js.split (Js.str Js.lf) body) ∅.

Definition parseLoginResponse (xmlString : string) : result RetsResponse :=
  let replyCodeMatch := matchAttribute "ReplyCode" xmlString in
  let replyTextMatch := matchAttribute "ReplyText" xmlString in
  let responseMatch :=
    Js.search (lazyBlockHere "<RETS-RESPONSE>" "</RETS-RESPONSE>")
      xmlString in
  match replyCodeMatch, replyTextMatch with
  | Some code, Some text =>
      Ok {| ReplyCode := code; ReplyText := text; Metadata := None;
            RETS_RESPONSE := (fun m => loginUrls (fst m)) <$> responseMatch;
            Count := None; records := None |}
  | _, _ => Throw "Invalid RETS response format"
  end.

Section DynamicPattern.

(** [xmlString.match(new RegExp(`<METADATA-${metadataType}([^>]+)>`))]:
    the metadata type is spliced into the pattern as regular-expression
    source, so the match (its first capture, [None] when there is
    none, or the [SyntaxError] of an ill-formed pattern) is left to
    the regular-expression engine. *)
Variable metadataTag : string -> string -> result (option string).

Definition parseMetadataResponse (xmlString metadataType : string)
  : result RetsResponse :=
  let replyCodeMatch := matchAttribute "ReplyCode" xmlString in
  let replyTextMatch := matchAttribute "ReplyText" xmlString in
  rbind (metadataTag metadataType xmlString) (fun metadataMatch =>
  match replyCodeMatch, replyTextMatch, metadataMatch with
  | Some code, Some text, Some tag =>
      match Js.search (textBlockHere "<COLUMNS>" "</COLUMNS>") xmlString
      with
      | None => Throw "No COLUMNS found in metadata response"
      | Some (columnsText, _) =>
          let columns := Js.trim columnsText in
          let attrs := parseAttributes tag in
          Ok {| ReplyCode := code; ReplyText := text;
                Metadata :=
                  Some {| Type_ := default metadataType (attrs !! "Type");
                          attributes := attrs;
                          Data :=
                            (fun d => parseTabDelimitedData columns
                                        (Js.trim d))
                            <$> Js.matchAll
                                  (textBlockHere "<DATA>" "</DATA>")
                                  xmlString O |};
                RETS_RESPONSE := None; Count := None; records := None |}
      end
  | _, _, _ => Throw "Invalid metadata response format"
  end).

(** The pattern [<COUNT[^>]*Records=Q(\d+)Q] at the start of [s]:
    the greedy [[^>]*] makes the capture the last quoted run of
    digits after [Records=] and before the first [>]. *)
Definition recordsHere (s : string) : option (string * nat) :=
  let opening := "Records=" ++ Js.str Js.dquote in
  if String.prefix opening s then
    let '(v, rest) := Js.span Js.isDigit
                        (Js.drop (String.length opening) s) in
    if Js.truthy v && String.prefix (Js.str Js.dquote) rest
    then Some (v, 1%nat) else None
  else None.

Definition countHere (s : string) : option string :=
  if String.prefix "<COUNT" s then
    let '(v, _) := Js.span (fun a => negb (Ascii.eqb a ">"%char))
                     (Js.drop 6 s) in
    last (Js.matchAll recordsHere v O)
  else None.

Definition parse (xmlString0 : string) : result RetsResponse :=
  let xmlString := Js.trim xmlString0 in
  if Js.includes "<RETS-RESPONSE>" xmlString
  then parseLoginResponse xmlString
  else
    match parseMetadataType xmlString with
    | Some metadataType => parseMetadataResponse xmlString metadataType
    | None =>
        let columnsMatch :=
          Js.search (lazyBlockHere "<COLUMNS>" "</COLUMNS>") xmlString in
        let dataMatches :=
          Js.matchAll (lazyBlockHere "<DATA>" "</DATA>") xmlString O in
        let replyCodeMatch := matchAttribute "ReplyCode" xmlString in
        let replyTextMatch := matchAttribute "ReplyText" xmlString in
        match columnsMatch, dataMatches with
        | Some (columnsText, _), _ :: _ =>
            let countMatch := Js.search countHere xmlString in
            let columns :=
              List.filter Js.truthy
                (Js.split (Js.str Js.tab) (Js.trim columnsText)) in
            let recs :=
              (fun d => assignColumns columns
                          (Js.split (Js.str Js.tab) (Js.trim d)) ∅)
              <$> dataMatches in
            Ok {| ReplyCode := default EmptyString replyCodeMatch;
                  ReplyText := default EmptyString replyTextMatch;
                  Metadata := None; RETS_RESPONSE := None;
                  (* [digits] is a run of decimal digits that is not
                     empty, so that [parseInt] does not return NaN *)
                  Count :=
                    match countMatch with
                    | Some digits => Js.parseInt digits (Some 10)
                    | None => Some (Js.Finite (Z.of_nat (List.length recs)))
                    end;
                  records := Some recs |}
        | _, _ =>
            match replyCodeMatch, replyTextMatch with
            | Some code, Some text =>
                Ok {| ReplyCode := code; ReplyText := text;
                      Metadata := None; RETS_RESPONSE := None;
                      Count := None; records := None |}
            | _, _ => Throw "Invalid RETS response format"
            end
        end
    end.

End DynamicPattern.

(** The shapes that [parse] tells apart, as tests on its input. *)
Definition hasAttribute (name xmlString : string) : bool :=
  bool_decide (is_Some (matchAttribute name (Js.trim xmlString))).

Definition isLoginResponse (xmlString : string) : bool :=
  Js.includes "<RETS-RESPONSE>" (Js.trim xmlString).

Definition isMetadataResponse (xmlString : string) : bool :=
  negb (isLoginResponse xmlString)
  && bool_decide (is_Some (parseMetadataType (Js.trim xmlString))).

Definition isSearchResult (xmlString : string) : bool :=
  negb (isLoginResponse xmlString)
  && negb (isMetadataResponse xmlString)
  && bool_decide
       (is_Some (Js.search (lazyBlockHere "<COLUMNS>" "</COLUMNS>")
                   (Js.trim xmlString)))
  && bool_decide
       (Js.matchAll (lazyBlockHere "<DATA>" "</DATA>")
          (Js.trim xmlString) O <> []).

(** An attribute as the patterns above find it in the trimmed input:
    the name, an equals sign and, between double quotes, a value that is
    not empty. *)
Definition written (name xmlString : string) : Prop :=
  exists pre value post,
    Js.trim xmlString = pre ++ name ++ "=" ++ Js.quoted value ++ post
    /\ value <> EmptyString
    /\ Forall (fun a => a <> Js.dquote) (list_ascii_of_string value).

(** [/class \[([^\]]+)\] in resource \[([^\]]+)\]/] at the start
    of [s]: the two captures. *)
Definition classInResourceHere (s : string) : option (string * string) :=
  if String.prefix "class [" s then
    let '(c, rest) := Js.span (fun a => negb (Ascii.eqb a "]"%char))
                        (Js.drop 7 s) in
    if Js.truthy c && String.prefix "] in resource [" rest then
      let '(r, rest') := Js.span (fun a => negb (Ascii.eqb a "]"%char))
                           (Js.drop 15 rest) in
      if Js.truthy r && String.prefix "]" rest' then Some (c, r) else None
    else None
  else None.

(** The result is [(className, resource)]; [None] is [null]. *)
Definition isUnauthorizedQuery (response : RetsResponse)
  : option (string * string) :=
  if bool_decide (ReplyCode response = "20207")
     && Js.includes "Unauthorized Query" (ReplyText response)
  then Js.search classInResourceHere (ReplyText response)
  else None.

End RetsParser.

(** ** JSON text of an array of strings

    [JSON.stringify(array, null, 2)] and [JSON.parse], for the documents
    the lockout file holds: arrays of string literals.  [parse] is [None]
    for any other text, whether JavaScript would reject it or read a
    value of another shape from it (a file of that kind is never written
    by [saveLockoutSet]). *)

Module Json.

Definition hexDigit (n : N) : ascii :=
  if (n <? 10)%N then ascii_of_N (48 + n) else ascii_of_N (87 + n).

(** [QuoteJSONString] on one code unit. *)
Definition escapeChar (a : ascii) : string :=
  let n := N_of_ascii a in
  if (n =? 34)%N then String Js.backslash (Js.str Js.dquote)
  else if (n =? 92)%N then String Js.backslash (Js.str Js.backslash)
  else if (n =? 8)%N then String Js.backslash "b"
  else if (n =? 9)%N then String Js.backslash "t"
  else if (n =? 10)%N then String Js.backslash "n"
  else if (n =? 12)%N then String Js.backslash "f"
  else if (n =? 13)%N then String Js.backslash "r"
  else if (n <? 32)%N
  then String Js.backslash
         (String "u" (String "0" (String "0"
            (String (hexDigit (n / 16)) (Js.str (hexDigit (n mod 16)))))))
  else Js.str a.

Fixpoint escape (s : string) : string :=
  match s with
  | EmptyString => EmptyString
  | String a r => escapeChar a ++ escape r
  end.

Definition quote (s : string) : string :=
  String Js.dquote (escape s ++ Js.str Js.dquote).

(** The elements of a non-empty array, one per line, indented by two
    spaces and separated by commas. *)
Fixpoint elementLines (l : list string) : string :=
  match l with
  | [] => EmptyString
  | [x] => "  " ++ quote x ++ Js.str Js.lf
  | x :: r => "  " ++ quote x ++ "," ++ Js.str Js.lf ++ elementLines r
  end.

Definition stringify (l : list string) : string :=
  match l with
  | [] => "[]"
  | _ => "[" ++ Js.str Js.lf ++ elementLines l ++ "]"
  end.

(** The reader is an automaton over the characters of the text. *)
Inductive mode : Type :=
| Start                 (* before the opening bracket *)
| Opened                (* after the bracket: a string or the end *)
| Element               (* after a comma: a string *)
| InString (k : string -> string)
| Escaped (k : string -> string)
| Unicode (k : string -> string) (digits : list N)
| AfterString           (* a comma or the closing bracket *)
| Closed
| Failed.

Definition isJsonSpace (a : ascii) : bool :=
  let n := N_of_ascii a in
  ((n =? 32) || (n =? 9) || (n =? 10) || (n =? 13))%N.

Definition hexValue (a : ascii) : option N :=
  let n := N_of_ascii a in
  if ((48 <=? n) && (n <=? 57))%N then Some (n - 48)%N
  else if ((97 <=? n) && (n <=? 102))%N then Some (n - 87)%N
  else if ((65 <=? n) && (n <=? 70))%N then Some (n - 55)%N
  else None.

Definition put (k : string -> string) (a : ascii) : string -> string :=
  fun r => k (String a r).

(** One character.  [acc] holds the strings read so far, last first. *)
Definition step (st : mode * list string) (a : ascii)
  : mode * list string :=
  let '(m, acc) := st in
  let n := N_of_ascii a in
  match m with
  | Start =>
      if isJsonSpace a then (Start, acc)
      else if (n =? 91)%N then (Opened, acc) else (Failed, acc)
  | Opened =>
      if isJsonSpace a then (Opened, acc)
      else if (n =? 34)%N then (InString (fun r => r), acc)
      else if (n =? 93)%N then (Closed, acc) else (Failed, acc)
  | Element =>
      if isJsonSpace a then (Element, acc)
      else if (n =? 34)%N then (InString (fun r => r), acc)
      else (Failed, acc)
  | InString k =>
      if (n =? 34)%N then (AfterString, k EmptyString :: acc)
      else if (n =? 92)%N then (Escaped k, acc)
      else if (n <? 32)%N then (Failed, acc)
      else (InString (put k a), acc)
  | Escaped k =>
      if (n =? 34)%N then (InString (put k Js.dquote), acc)
      else if (n =? 92)%N then (InString (put k Js.backslash), acc)
      else if (n =? 47)%N then (InString (put k "/"%char), acc)
      else if (n =? 98)%N then (InString (put k (ascii_of_N 8)), acc)
      else if (n =? 102)%N then (InString (put k (ascii_of_N 12)), acc)
      else if (n =? 110)%N then (InString (put k (ascii_of_N 10)), acc)
      else if (n =? 114)%N then (InString (put k (ascii_of_N 13)), acc)
      else if (n =? 116)%N then (InString (put k (ascii_of_N 9)), acc)
      else if (n =? 117)%N then (Unicode k [], acc)
      else (Failed, acc)
  | Unicode k digits =>
      match hexValue a with
      | None => (Failed, acc)
      | Some d =>
          match digits with
          | [d1; d2; d3] =>
              let v := (((d1 * 16 + d2) * 16 + d3) * 16 + d)%N in
              if (v <? 256)%N then (InString (put k (ascii_of_N v)), acc)
              else (Failed, acc)
          | _ => (Unicode k (digits ++ [d]), acc)
          end
      end
  | AfterString =>
      if isJsonSpace a then (AfterString, acc)
      else if (n =? 44)%N then (Element, acc)
      else if (n =? 93)%N then (Closed, acc) else (Failed, acc)
  | Closed => if isJsonSpace a then (Closed, acc) else (Failed, acc)
  | Failed => (Failed, acc)
  end.

Fixpoint run (st : mode * list string) (text : string)
  : mode * list string :=
  match text with
  | EmptyString => st
  | String a r => run (step st a) r
  end.

Definition parse (text : string) : option (list string) :=
  match run (Start, []) text with
  | (Closed, acc) => Some (rev acc)
  | _ => None
  end.

End Json.

(** ** service.ts: the sync engine

    The engine talks to the database, to the RETS server and to the
    file system.  Every such call is recorded as an [Event], tagged with
    the (resource, class) pair on whose behalf it is made, and its answer
    is read from the environment [Env]: the [n]-th call of a run (counting
    from zero) gets the answer the environment holds for index [n], so an
    environment describes any sequence of answers, failures included.
    Statements are recorded by kind and table, not as SQL text.  Log
    output and the connection pool are not modelled. *)

Module Service.

(** An entry of the catalog [update_fields.json]. *)
Record Entry : Type := {
  resource : string;
  updateField : string;
  classes : option (list (option string))
}.

Record PairId : Type := {
  pairResource : string;
  pairClass : option string;
  pairUpdateField : string
}.

(** The query parameters of a Search request that vary. *)
Record SearchRequest : Type := {
  SearchType : string;
  Class : string;
  Query : option string;
  Limit : Z;
  Offset : Z
}.

Inductive Action : Type :=
| ShowTables (table : string)
| GetTableMetadata (resourceId classId : string)
| GetClasses (resourceId : string)
| CreateTable (table : string)
| SelectMax (table field : string)
| TruncateTable (table : string)
| Search (request : SearchRequest)
| WriteLockoutFile (data : string)
| DropTable (table : string)
| ReplaceInto (table : string) (record : gmap string (option string)).

Record Event : Type := { pair : PairId; action : Action }.

Record Env : Type := {
  io_login : result (gmap string string);
  io_getUpdateFields : result (list Entry);
  io_tableExists : nat -> string -> result bool;
  io_getTableMetadata :
    nat -> string -> string -> result (list (gmap string string));
  io_getClasses : nat -> string -> result (list (gmap string string));
  io_getLatestUpdateValue : nat -> string -> string -> option string;
  io_query : nat -> Action -> result unit;
  io_makeRetsRequest : nat -> SearchRequest -> result string;
  io_writeFile : nat -> string -> result unit;
  (** [new Date().getTime()], in milliseconds, after [n] calls. *)
  io_now : nat -> Z;
  (** [new Date(s).toISOString().slice(0, 19)]; [None] for a string
      that is not a date. *)
  io_toISOString : string -> option string;
  io_metadataTag : string -> string -> result (option string)
}.

(** What the engine changes outside the process. *)
Record World : Type := {
  lockoutFile : option string;
  trace : list Event
}.

Inductive outcome (A : Type) : Type :=
| Done (a : A)
| Raised (message : string)
| OutOfFuel.

Arguments Done {A} a.
Arguments Raised {A} message.
Arguments OutOfFuel {A}.

Definition M (A : Type) : Type := World -> outcome A * World.

Definition ret {A : Type} (a : A) : M A := fun w => (Done a, w).

Definition raise {A : Type} (message : string) : M A :=
  fun w => (Raised message, w).

Definition bind {A B : Type} (m : M A) (k : A -> M B) : M B :=
  fun w =>
    match m w with
    | (Done a, w') => k a w'
    | (Raised e, w') => (Raised e, w')
    | (OutOfFuel, w') => (OutOfFuel, w')
    end.

(** [try { m } catch (e) { handler(e) }]. *)
Definition catch {A : Type} (m : M A) (handler : string -> M A) : M A :=
  fun w =>
    match m w with
    | (Raised e, w') => handler e w'
    | r => r
    end.

Definition lift {A : Type} (r : result A) : M A :=
  match r with Ok a => ret a | Throw e => raise e end.

Declare Scope service_scope.
Delimit Scope service_scope with service.
Notation "'let*' x ':=' m 'in' k" := (bind m (fun x => k))
  (at level 10, x name, m at level 100, k at level 200) : service_scope.
Local Open Scope service_scope.

Definition record (p : PairId) (a : Action) (w : World) : World :=
  {| lockoutFile := lockoutFile w;
     trace := (trace w ++ [{| pair := p; action := a |}])%list |}.

(** A call to the outside: the event is appended, and the answer is
    the one the environment holds for the number of earlier calls. *)
Definition perform {A : Type} (p : PairId) (a : Action)
  (answer : nat -> result A) : M A :=
  fun w => lift (answer (List.length (trace w))) (record p a w).

Fixpoint forEach {A S : Type} (l : list A) (body : A -> S -> M S) (s : S)
  : M S :=
  match l with
  | [] => ret s
  | x :: r => let* s' := body x s in forEach r body s'
  end.

(** [hoursSinceLastSync >= 3], on exact milliseconds. *)
Definition shouldRunFullSync (lastFullSync : option Z) (now : Z) : bool :=
  match lastFullSync with
  | None => true
  | Some last => 3 * (1000 * 60 * 60) <=? now - last
  end.

Definition lockoutOfFile (file : option string) : gset string :=
  match file with
  | Some data =>
      match Json.parse data with
      | Some arr => list_to_set arr
      | None => ∅
      end
  | None => ∅
  end.

Definition loadLockoutSet : M (gset string) :=
  fun w => (Done (lockoutOfFile (lockoutFile w)), w).

Definition lockoutFileOf (lockout : gset string) : string :=
  Json.stringify (elements lockout).

Definition saveLockoutSet (env : Env) (p : PairId) (lockout : gset string)
  : M unit :=
  let data := lockoutFileOf lockout in
  fun w =>
    match perform p (WriteLockoutFile data) (fun n => io_writeFile env n data) w
    with
    | (Done tt, w') => (Done tt, {| lockoutFile := Some data;
                                    trace := trace w' |})
    | r => r
    end.

(** lib/db/db.ts *)
Definition formatRetsDate (env : Env) (date : option string)
  : option string :=
  match date with
  | None => None
  | Some s => if Js.truthy s then io_toISOString env s else None
  end.

Definition sanitizeRecord (record : gmap string string)
  (tableMetadata : list (gmap string string)) : gmap string (option string) :=
  map_imap
    (fun key value =>
       let fieldMeta :=
         List.find (fun f => bool_decide (f !! "SystemName" = Some key))
           tableMetadata in
       Some
         (if Js.isEmpty value then
            match fieldMeta with
            | Some f =>
                let type := Js.toLowerCase <$> (f !! "DataType") in
                if bool_decide (type = Some "date")
                then Some "0000-00-00"
                else if bool_decide (type = Some "datetime")
                then Some "0000-00-00 00:00:00"
                else if bool_decide (type = Some "time")
                then Some "00:00:00"
                else None
            | None => None
            end
          else Some value))
    record.

Definition batchSize : Z := 2500.

Section Fetch.

Variable env : Env.

(** The state that the callback closes over. *)
Variable L : Type.
Variable upsertCallback :
  list (gmap string string) -> RetsParser.RetsResponse -> L -> M L.

Variable p : PairId.
Variables searchType class : string.
Variable updateField_ : string.
Variable lastValue : option string.

Definition searchRequest (offset : Z) : SearchRequest :=
  {| SearchType := searchType;
     Class := class;
     Query :=
       if bool_decide (updateField_ = "N/A") then None
       else Some ("(" ++ updateField_ ++ "="
                  ++ match formatRetsDate env lastValue with
                     | Some formattedLastValue =>
                         if Js.truthy formattedLastValue
                         then formattedLastValue
                         else "1900-01-01T00:00:00"
                     | None => "1900-01-01T00:00:00"
                     end
                  ++ "+)");
     Limit := batchSize;
     Offset := offset |}.

(** [while (hasMore)]: one unit of fuel per request. *)
Fixpoint fetchLoop (fuel : nat) (offset : Z) (l : L) : M L :=
  match fuel with
  | O => fun w => (OutOfFuel, w)
  | S fuel' =>
      let* response :=
        perform p (Search (searchRequest offset))
          (fun n => io_makeRetsRequest env n (searchRequest offset)) in
      let* parsed :=
        lift (RetsParser.parse (io_metadataTag env) response) in
      let records := default [] (RetsParser.records parsed) in
      let* l' := upsertCallback records parsed l in
      if Z.of_nat (List.length records) <? batchSize
      then ret l'
      else fetchLoop fuel' (offset + batchSize) l'
  end.

End Fetch.

Definition fetchRetsUpdates (env : Env) {L : Type} (fuel : nat)
  (session : gmap string string) (resource_ updateField_ : string)
  (lastValue : option string)
  (upsertCallback :
     list (gmap string string) -> RetsParser.RetsResponse -> L -> M L)
  (className : option string) (l : L) : M L :=
  let p := {| pairResource := resource_; pairClass := className;
              pairUpdateField := updateField_ |} in
  if negb (Js.truthyProp (session !! "Search"))
  then raise "Search URL not found in capability URLs"
  else
    let '(searchType, class) :=
      match className with
      | Some c =>
          if Js.truthy c then (resource_, c)
          else match Js.indexOf "_" resource_ with
               | Some i => (Js.take i resource_, Js.drop (S i) resource_)
               | None => (resource_, resource_)
               end
      | None =>
          match Js.indexOf "_" resource_ with
          | Some i => (Js.take i resource_, Js.drop (S i) resource_)
          | None => (resource_, resource_)
          end
      end in
    let* classList :=
      catch (perform p (GetClasses searchType)
               (fun n => io_getClasses env n searchType))
        (fun _ => ret []) in
    let class' :=
      match classList with
      | [c] => if bool_decide (c !! "ClassName" = Some searchType)
               then searchType else class
      | _ => class
      end in
    fetchLoop env L upsertCallback p searchType class' updateField_
      lastValue fuel 1 l.

Record Locals : Type := {
  lockout : gset string;
  unauthorized : bool;
  upserted : nat
}.

Section Pair.

Variable env : Env.
Variable fuel : nat.
Variable session : gmap string string.
Variable lastFullSync : option Z.

(** The callback that [syncData] hands to [fetchRetsUpdates]. *)
Definition upsertCallback (p : PairId) (lockoutKey table : string)
  (tableMetadata : list (gmap string string))
  (records : list (gmap string string))
  (parsed : RetsParser.RetsResponse) (l : Locals) : M Locals :=
  let upsertAll :=
    if unauthorized l then ret l
    else
      forEach records
        (fun rec l =>
           let sanitizedRecord := sanitizeRecord rec tableMetadata in
           catch
             (let* _ :=
                perform p (ReplaceInto table sanitizedRecord)
                  (fun n => io_query env n
                              (ReplaceInto table sanitizedRecord)) in
              ret {| lockout := lockout l;
                     unauthorized := unauthorized l;
                     upserted := S (upserted l) |})
             (fun _ => ret l))
        l in
  match records with
  | [] =>
      match RetsParser.isUnauthorizedQuery parsed with
      | Some _ =>
          let lockout' := {[lockoutKey]} ∪ lockout l in
          let* _ := saveLockoutSet env p lockout' in
          let* _ :=
            perform p (DropTable table)
              (fun n => io_query env n (DropTable table)) in
          ret {| lockout := lockout'; unauthorized := true;
                 upserted := upserted l |}
      | None => upsertAll
      end
  | _ :: _ => upsertAll
  end.

Definition lockoutKeyOf (resource_ : string) (className : option string)
  : string :=
  resource_ ++ "::" ++ Js.template className.

Definition tableOf (resource_ : string) (classList : list (option string))
  (className : option string) : string :=
  if bool_decide (resource_ = "Deleted")
  then "Deleted_" ++ Js.template className
  else if bool_decide (List.length classList = 1%nat)
          && (bool_decide (className = Some resource_)
              || bool_decide (className = None))
  then resource_
  else resource_ ++ "_" ++ Js.template className.

(** The body of the inner loop of [syncData]: one (resource, class)
    pair.  The result is the lockout set, which the callback may have
    grown. *)
Definition syncPair (entry : Entry) (classList : list (option string))
  (className : option string) (lockout0 : gset string)
  : M (gset string) :=
  let resource_ := resource entry in
  let p := {| pairResource := resource_; pairClass := className;
              pairUpdateField := updateField entry |} in
  let table := tableOf resource_ classList className in
  let lockoutKey := lockoutKeyOf resource_ className in
  if bool_decide (lockoutKey ∈ lockout0) then ret lockout0
  else
    let classId :=
      if bool_decide (resource_ = "Deleted") then Js.template className
      else match className with
           | None => resource_
           | Some c => c
           end in
    let fetchMetadata : M (list (gmap string string)) :=
      let* tableMetadata :=
        perform p (GetTableMetadata resource_ classId)
          (fun n => io_getTableMetadata env n resource_ classId) in
      let* _ :=
        if negb (bool_decide (resource_ = "Deleted"))
           && Js.truthyProp className
           && negb (bool_decide (className = Some resource_))
        then let* _ := perform p (GetClasses resource_)
                         (fun n => io_getClasses env n resource_) in
             ret tt
        else ret tt in
      ret tableMetadata in
    let* exists_ :=
      perform p (ShowTables table)
        (fun n => io_tableExists env n table) in
    let* tableMetadata :=
      if negb exists_
      then let* tableMetadata := fetchMetadata in
           let* _ := perform p (CreateTable table)
                       (fun n => io_query env n (CreateTable table)) in
           ret tableMetadata
      else fetchMetadata in
    let continueWith (lastValue : option string) :=
      let* l :=
        fetchRetsUpdates env fuel session resource_
          (updateField entry) lastValue
          (upsertCallback p lockoutKey table tableMetadata)
          className
          {| lockout := lockout0; unauthorized := false;
             upserted := O |} in
      ret (lockout l) in
    if negb (bool_decide (updateField entry = "N/A")) then
      let* lastValue :=
        perform p (SelectMax table (updateField entry))
          (fun n => Ok (io_getLatestUpdateValue env n table
                          (updateField entry))) in
      continueWith lastValue
    else
      fun w =>
        if negb (shouldRunFullSync lastFullSync
                   (io_now env (List.length (trace w))))
        then ret lockout0 w
        else
          (let* _ :=
             perform p (TruncateTable table)
               (fun n => io_query env n (TruncateTable table)) in
           continueWith None) w.

Definition classListOf (entry : Entry) : list (option string) :=
  match classes entry with
  | Some (c :: cs) => c :: cs
  | _ => [None]
  end.

Definition syncEntries (updateFields : list Entry)
  (lockout0 : gset string) : M (gset string) :=
  forEach updateFields
    (fun entry lockout1 =>
       forEach (classListOf entry)
         (syncPair entry (classListOf entry)) lockout1)
    lockout0.

End Pair.

(** The vocabulary of the properties of a run: started in [w], the
    computation [m] only appends events to the trace, each of them
    satisfies [P] at its index in the trace, and a value that [m] returns
    satisfies [Q]. *)
Definition emitsFrom {A : Type} (w : World) (P : nat -> Event -> Prop)
  (Q : A -> Prop) (m : M A) : Prop :=
  exists evs,
    trace (snd (m w)) = (trace w ++ evs)%list
    /\ (forall j e, evs !! j = Some e -> P (List.length (trace w) + j)%nat e)
    /\ (forall a, fst (m w) = Done a -> Q a).

Definition emits {A : Type} (P : nat -> Event -> Prop) (Q : A -> Prop)
  (m : M A) : Prop :=
  forall w, emitsFrom w P Q m.

(** The key under which the pair of an event is locked out. *)
Definition keyOfEvent (e : Event) : string :=
  lockoutKeyOf (pairResource (pair e)) (pairClass (pair e)).

(** An event of the pair [p] that truncates a table only where [G]
    holds. *)
Definition eventOf (p : PairId) (G : nat -> Prop) (n : nat) (e : Event)
  : Prop :=
  pair e = p /\ forall table, action e = TruncateTable table -> G n.

(** The gate of a full sync, at the time of the [n]-th call. *)
Definition fullSyncDue (env : Env) (lastFullSync : option Z)
  (updateField_ : string) (n : nat) : Prop :=
  updateField_ = "N/A"
  /\ shouldRunFullSync lastFullSync (io_now env n) = true.

(** What every event of a cycle satisfies, for a cycle that starts with
    the lockout set [locked]: its pair is not locked out, and it
    truncates a table only for a resource without an update field and
    when a full sync is due. *)
Definition cycleEvent (env : Env) (lastFullSync : option Z)
  (locked : gset string) (n : nat) (e : Event) : Prop :=
  (keyOfEvent e ∉ locked)
  /\ (forall table, action e = TruncateTable table ->
                    fullSyncDue env lastFullSync (pairUpdateField (pair e)) n).

(** The module-level variable [lastFullSync] and the outside world. *)
Record ServiceState : Type := {
  lastFullSync : option Z;
  world : World
}.

(** One cycle.  The outcome is [Raised] when the cycle ended in the
    [catch] block that logs the error. *)
Definition syncData (env : Env) (fuel : nat) (st : ServiceState)
  : outcome unit * ServiceState :=
  let cycle : M unit :=
    let* lockout0 := loadLockoutSet in
    let* session := lift (io_login env) in
    let* updateFields := lift (io_getUpdateFields env) in
    let* _ :=
      syncEntries env fuel session (lastFullSync st) updateFields
        lockout0 in
    ret tt in
  match cycle (world st) with
  | (Done tt, w) =>
      let now := io_now env (List.length (trace w)) in
      (Done tt,
       {| lastFullSync :=
            if shouldRunFullSync (lastFullSync st) now then Some now
            else lastFullSync st;
          world := w |})
  | (o, w) => (o, {| lastFullSync := lastFullSync st; world := w |})
  end.

End Service.

(** ** lib/rets/propertyCleanupService.ts: the lifecycle reconciler

    The part of [checkPropertyStatus] that follows the hotsheet queries:
    from the two sets of listing ids to the UPDATE and DELETE statements
    and their effect on the property tables.  A JavaScript [Map] is an
    association list in insertion order.  The columns that are read are
    character columns, and [IN] compares them exactly, as [Set.has]
    does. *)

Module PropertyCleanup.

Record Row : Type := {
  L_ListingID : string;
  L_Address : string;
  L_StatusCatID : string
}.

Record MatchInfo : Type := {
  tables : list string;
  address : string;
  status : string
}.

Inductive Statement : Type :=
| UpdateSold (table : string) (listingIds : list string)
| DeleteRows (table : string) (listingIds : list string).

Fixpoint mapGet {V : Type} (k : string) (m : list (string * V)) : option V :=
  match m with
  | [] => None
  | (k', v) :: r => if String.eqb k k' then Some v else mapGet k r
  end.

(** [map.set(k, v)]: a key that is present keeps its place. *)
Fixpoint mapSet {V : Type} (k : string) (v : V) (m : list (string * V))
  : list (string * V) :=
  match m with
  | [] => [(k, v)]
  | (k', v') :: r =>
      if String.eqb k k' then (k, v) :: r else (k', v') :: mapSet k v r
  end.

(** [soldListingIds.has(row.L_ListingID) && row.L_StatusCatID !== "2"] *)
Definition soldCondition (sold : gset string) (row : Row) : bool :=
  bool_decide (L_ListingID row ∈ sold)
  && negb (String.eqb (L_StatusCatID row) "2").

(** [expiredWithdrawnListingIds.has(row.L_ListingID)
     && ["1", "2"].includes(row.L_StatusCatID)] *)
Definition expiredCondition (expired : gset string) (row : Row) : bool :=
  bool_decide (L_ListingID row ∈ expired)
  && (String.eqb (L_StatusCatID row) "1"
      || String.eqb (L_StatusCatID row) "2").

Definition addMatch (table : string) (row : Row)
  (matches : list (string * MatchInfo)) : list (string * MatchInfo) :=
  let existing :=
    default {| tables := []; address := L_Address row;
               status := L_StatusCatID row |}
      (mapGet (L_ListingID row) matches) in
  mapSet (L_ListingID row)
    {| tables := (tables existing ++ [table])%list;
       address := address existing;
       status := status existing |}
    matches.

Definition groupByTable (matches : list (string * MatchInfo))
  : list (string * list string) :=
  fold_left
    (fun grouped '(listingId, info) =>
       fold_left
         (fun grouped table =>
            mapSet table
              (default [] (mapGet table grouped) ++ [listingId])%list
              grouped)
         (tables info) grouped)
    matches [].

(** The property tables: a table that is absent makes a query fail. *)
Definition selectIn (db : gmap string (list Row)) (table : string)
  (ids : gset string) : result (list Row) :=
  match db !! table with
  | Some rows =>
      Ok (List.filter (fun r => bool_decide (L_ListingID r ∈ ids)) rows)
  | None => Throw "Table doesn't exist"
  end.

Definition setSold (row : Row) : Row :=
  {| L_ListingID := L_ListingID row; L_Address := L_Address row;
     L_StatusCatID := "2" |}.

Definition execute (st : Statement) (db : gmap string (list Row))
  : result (gmap string (list Row)) :=
  match st with
  | UpdateSold table ids =>
      match db !! table with
      | Some rows =>
          Ok (<[table :=
                  (fun r => if bool_decide (L_ListingID r ∈ ids)
                            then setSold r else r) <$> rows]> db)
      | None => Throw "Table doesn't exist"
      end
  | DeleteRows table ids =>
      match db !! table with
      | Some rows =>
          Ok (<[table :=
                  List.filter
                    (fun r => negb (bool_decide (L_ListingID r ∈ ids)))
                    rows]> db)
      | None => Throw "Table doesn't exist"
      end
  end.

Fixpoint executeAll (sts : list Statement) (db : gmap string (list Row))
  : result (gmap string (list Row)) :=
  match sts with
  | [] => Ok db
  | st :: r => rbind (execute st db) (executeAll r)
  end.

(** The rows of one table that the loop body files under the two maps. *)
Definition scanRows (sold expired : gset string) (table : string)
  (rows : list Row)
  (acc : list (string * MatchInfo) * list (string * MatchInfo))
  : list (string * MatchInfo) * list (string * MatchInfo) :=
  let matchingRows :=
    List.filter
      (fun row => soldCondition sold row || expiredCondition expired row)
      rows in
  fold_left
    (fun '(soldMatches, expiredMatches) row =>
       (if soldCondition sold row
        then addMatch table row soldMatches else soldMatches,
        if expiredCondition expired row
        then addMatch table row expiredMatches else expiredMatches))
    matchingRows acc.

Fixpoint scanTables (sold expired : gset string)
  (db : gmap string (list Row)) (propertyTables : list string)
  (acc : list (string * MatchInfo) * list (string * MatchInfo))
  : result (list (string * MatchInfo) * list (string * MatchInfo)) :=
  match propertyTables with
  | [] => Ok acc
  | table :: r =>
      rbind (selectIn db table (sold ∪ expired))
        (fun rows =>
           scanTables sold expired db r
             (scanRows sold expired table rows acc))
  end.

(** [checkPropertyTables]: all four tables must exist. *)
Definition checkPropertyTables (db : gmap string (list Row)) : bool :=
  forallb (fun t => bool_decide (is_Some (db !! t)))
    ["Property_RE_1"; "Property_MF_4"; "Property_CI_3"; "Property_LD_2"].

Definition statementsOf
  (matches : list (string * MatchInfo) * list (string * MatchInfo))
  : list Statement :=
  (((fun '(table, ids) => UpdateSold table ids)
    <$> groupByTable (fst matches))
   ++ ((fun '(table, ids) => DeleteRows table ids)
       <$> groupByTable (snd matches)))%list.

(** From the two sets to the statements that are run, in order, and
    the tables after them.  [classes] are the classes of the Property
    resource in the catalog. *)
Definition reconcile (classes : list string) (sold expired : gset string)
  (db : gmap string (list Row))
  : result (list Statement * gmap string (list Row)) :=
  let propertyTables := (fun cls => "Property_" ++ cls) <$> classes in
  if negb (checkPropertyTables db) then Ok ([], db)
  else
    rbind
      (if bool_decide (sold ∪ expired ≠ ∅)
       then scanTables sold expired db propertyTables ([], [])
       else Ok ([], []))
      (fun matches =>
         rbind (executeAll (statementsOf matches) db)
           (fun db' => Ok (statementsOf matches, db'))).

(** Vocabulary for the properties of [reconcile]. *)

(** The tables filed under a listing id, and the ids grouped under a
    table. *)
Definition tablesOf (id : string) (matches : list (string * MatchInfo))
  : list string :=
  match mapGet id matches with
  | Some info => tables info
  | None => []
  end.

Definition idsOf (table : string) (grouped : list (string * list string))
  : list string :=
  default [] (mapGet table grouped).

(** The rows of [rows] that satisfy [cond], filed under [table]. *)
Definition fileUnder (cond : Row -> bool) (table : string) (rows : list Row)
  (matches : list (string * MatchInfo)) : list (string * MatchInfo) :=
  fold_left
    (fun m row => if cond row then addMatch table row m else m)
    rows matches.

Definition fileTables (cond : Row -> bool) (db : gmap string (list Row))
  (propertyTables : list string) (matches : list (string * MatchInfo))
  : list (string * MatchInfo) :=
  fold_left
    (fun m table => fileUnder cond table (default [] (db !! table)) m)
    propertyTables matches.

(** The effect of a statement on the rows of [table]. *)
Definition applyTo (table : string) (rows : list Row) (st : Statement)
  : list Row :=
  match st with
  | UpdateSold table' ids =>
      if String.eqb table' table
      then (fun r => if bool_decide (L_ListingID r ∈ ids)
                     then setSold r else r) <$> rows
      else rows
  | DeleteRows table' ids =>
      if String.eqb table' table
      then List.filter (fun r => negb (bool_decide (L_ListingID r ∈ ids)))
             rows
      else rows
  end.

(** The statement [st] updates, or deletes, the listing [id] of
    [table]. *)
Definition updatesRow (table id : string) (st : Statement) : bool :=
  match st with
  | UpdateSold table' ids =>
      String.eqb table' table && bool_decide (id ∈ ids)
  | DeleteRows _ _ => false
  end.

Definition deletesRow (table id : string) (st : Statement) : bool :=
  match st with
  | UpdateSold _ _ => false
  | DeleteRows table' ids =>
      String.eqb table' table && bool_decide (id ∈ ids)
  end.

End PropertyCleanup.

(** ** scripts/syncPhotosToObjectStorage.ts: [uploadFile]

    One attempt is the body of the [try] block: reading the file, the
    PUT and the bookkeeping that follows it.  Its outcome, the size that
    [stat] reports and the values of [Math.random()] come from the
    environment.  Delays are exact rationals, in milliseconds. *)

Module SyncPhotos.

Inductive Event : Type :=
| Put (attempt : nat)
| Sleep (delay : Q).

Record Env : Type := {
  io_stat : result Z;
  io_attempt : nat -> result unit;
  io_random : nat -> Q
}.

Definition baseDelay : Q := 1000.
Definition maxDelay : Q := 30000.

Definition jitterOf (random : Q) : Q := random * (1 # 10).

(** [Math.min(baseDelay * Math.pow(2, attempt - 1) * (1 + jitter),
    maxDelay)] *)
Definition delayOf (attempt : nat) (jitter : Q) : Q :=
  Qmin (baseDelay * inject_Z (2 ^ Z.of_nat (attempt - 1)) * (1 + jitter))
    maxDelay.

(** [for (let attempt = 1; attempt <= retries; attempt++)]:
    [remaining] is [retries + 1 - attempt]. *)
Fixpoint attemptLoop (env : Env) (retries remaining attempt : nat)
  : result unit * list Event :=
  match remaining with
  | O => (Ok tt, [])
  | S remaining' =>
      match io_attempt env attempt with
      | Ok _ => (Ok tt, [Put attempt])
      | Throw error =>
          if Nat.eqb attempt retries then (Throw error, [Put attempt])
          else
            let delay := delayOf attempt (jitterOf (io_random env attempt)) in
            let '(r, evs) :=
              attemptLoop env retries remaining' (S attempt) in
            (r, Put attempt :: Sleep delay :: evs)
      end
  end.

Definition uploadFile (env : Env) (retries : nat)
  : result unit * list Event :=
  match io_stat env with
  | Throw error => (Throw error, [])
  | Ok _ => attemptLoop env retries retries 1
  end.

(** The default value of the parameter, which the only caller uses. *)
Definition defaultRetries : nat := 5.

Definition isPut (e : Event) : bool :=
  match e with Put _ => true | Sleep _ => false end.

End SyncPhotos.

(** ** Photo fetchers

    A [Buffer] is a [string]: a sequence of bytes.  [Buffer.from] of a
    string and [toString] of a buffer are the identity, which is what
    UTF-8 does on ASCII text. *)

Module Photos.

Definition crlf : string := String Js.cr (Js.str Js.lf).

(** [buffer.indexOf(value, byteOffset)] for a non-empty [value]. *)
Definition indexOfFrom (value buffer : string) (byteOffset : nat)
  : option nat :=
  if (String.length buffer <=? byteOffset)%nat then None
  else (fun i => (byteOffset + i)%nat)
       <$> Js.indexOf value (Js.drop byteOffset buffer).

(** [buffer.slice(start, end)] *)
Definition slice (buffer : string) (start end_ : nat) : string :=
  Js.take (end_ - start) (Js.drop start buffer).

Record PhotoResponse : Type := {
  objectId : string;
  imageData : string;
  metadata : gmap string string
}.

(** lib/rets/propertyPhotos.ts *)

(** The pattern [boundary=([^;]+)] at the start of [s]. *)
Definition boundaryHere (s : string) : option string :=
  if String.prefix "boundary=" s then
    let '(v, _) := Js.span (fun a => negb (Ascii.eqb a ";"%char))
                     (Js.drop 9 s) in
    if Js.truthy v then Some v else None
  else None.

Definition headerMapOf (headersStr : string) : gmap string string :=
  fold_left
    (fun headerMap line =>
       match Js.split ": " line with
       | key :: value :: _ =>
           if Js.truthy key && Js.truthy value
           then <[Js.toLowerCase key := value]> headerMap
           else headerMap
       | _ => headerMap
       end)
    (Js.split crlf headersStr) ∅.

(** The named headers that are present, and every [x-] header. *)
Definition metadataOf (headerMap : gmap string string)
  : gmap string string :=
  let named :=
    [("lastModified", "last-modified");
     ("contentSubDescription", "content-sub-description");
     ("contentLabel", "content-label");
     ("accessibility", "accessibility");
     ("photoTimestamp", "photo-timestamp");
     ("preferred", "preferred");
     ("description", "description");
     ("location", "location");
     ("type", "type");
     ("size", "size");
     ("width", "width");
     ("height", "height")] in
  filter (fun kv => Js.startsWith "x-" (fst kv) = true) headerMap
  ∪ fold_left
      (fun m '(property, header) =>
         match headerMap !! header with
         | Some v => <[property := v]> m
         | None => m
         end)
      named ∅.

Definition byteAt (buffer : string) (i : nat) : option ascii :=
  String.get i buffer.

(** The [while] loop over the parts.  Every turn that does not leave
    the loop moves [currentPos] forward, so fuel equal to the length
    of the buffer is never used up. *)
Fixpoint partsLoop (fuel : nat) (responseBuffer boundary listingId : string)
  (currentPos : nat) (photos : list PhotoResponse) : list PhotoResponse :=
  match fuel with
  | O => photos
  | S fuel' =>
      let boundaryBuffer := crlf ++ "--" ++ boundary in
      let endBoundaryBuffer := crlf ++ "--" ++ boundary ++ "--" in
      if negb (currentPos <? String.length responseBuffer)%nat then photos
      else
        let currentPos :=
          if bool_decide (byteAt responseBuffer currentPos = Some Js.cr
                          /\ byteAt responseBuffer (S currentPos)
                             = Some Js.lf)
          then (currentPos + 2)%nat else currentPos in
        match indexOfFrom (crlf ++ crlf) responseBuffer currentPos with
        | None => photos
        | Some headersEndPos =>
            let headerMap :=
              headerMapOf (slice responseBuffer currentPos headersEndPos) in
            let currentPos := (headersEndPos + 4)%nat in
            let nextBoundaryPos :=
              indexOfFrom boundaryBuffer responseBuffer currentPos in
            let endBoundaryPos :=
              indexOfFrom endBoundaryBuffer responseBuffer currentPos in
            let partEnd :=
              match endBoundaryPos, nextBoundaryPos with
              | Some e, None => Some e
              | Some e, Some n => if (e <? n)%nat then Some e else Some n
              | None, Some n => Some n
              | None, None => None
              end in
            match partEnd with
            | None => photos
            | Some partEndPos =>
                let binaryData :=
                  slice responseBuffer currentPos partEndPos in
                let objectId_ :=
                  match headerMap !! "object-id" with
                  | Some v => if Js.truthy v then v else listingId
                  | None => listingId
                  end in
                let contentType := headerMap !! "content-type" in
                if negb (Js.truthyProp contentType)
                   || negb (Js.startsWith "image/"
                              (default EmptyString contentType))
                then partsLoop fuel' responseBuffer boundary listingId
                       currentPos photos
                else
                  let photos' :=
                    if Js.truthy binaryData
                    then (photos
                          ++ [{| objectId := objectId_;
                                 imageData := binaryData;
                                 metadata := metadataOf headerMap |}])%list
                    else photos in
                  match endBoundaryPos with
                  | Some e =>
                      if (e <=? partEndPos)%nat then photos'
                      else partsLoop fuel' responseBuffer boundary
                             listingId partEndPos photos'
                  | None =>
                      partsLoop fuel' responseBuffer boundary listingId
                        partEndPos photos'
                  end
            end
        end
  end.

(** [response] is the body and the headers that [makeRetsRequest]
    resolves to, or the error it rejects with. *)
Definition getPropertyPhotos (session : gmap string string)
  (response : result (string * gmap string string)) (listingId : string)
  : result (list PhotoResponse) :=
  if negb (Js.truthyProp (session !! "GetObject"))
  then Throw "GetObject URL not found in capabilities"
  else
    rbind response (fun '(responseBuffer, headers) =>
      let contentType := headers !! "content-type" in
      let boundary :=
        match contentType with
        | Some c => Js.search boundaryHere c
        | None => None
        end in
      match boundary with
      | None =>
          Ok [{| objectId := listingId; imageData := responseBuffer;
                 metadata := ∅ |}]
      | Some boundary =>
          let boundaryBuffer := crlf ++ "--" ++ boundary in
          let currentPos :=
            match Js.indexOf (Js.drop 2 boundaryBuffer) responseBuffer with
            | Some firstBoundaryPos =>
                (firstBoundaryPos + String.length boundaryBuffer - 2)%nat
            | None => O
            end in
          Ok (partsLoop (String.length responseBuffer) responseBuffer
                boundary listingId currentPos [])
      end).

(** lib/rets/photos.ts: the fetcher for Agent and Office photos. *)

(** [start] moves forward with every part, so fuel equal to the length
    of the buffer is never used up. *)
Fixpoint multipartLoop (fuel : nat) (buffer boundaryBytes : string)
  (start : nat) (parts : list string) : list string :=
  match fuel with
  | O => parts
  | S fuel' =>
      match indexOfFrom boundaryBytes buffer start with
      | None => parts
      | Some partStart =>
          match indexOfFrom boundaryBytes buffer
                  (partStart + String.length boundaryBytes) with
          | None => parts
          | Some partEnd =>
              let partContent :=
                slice buffer (partStart + String.length boundaryBytes)
                  partEnd in
              let parts' :=
                match Js.indexOf (crlf ++ crlf) partContent with
                | Some headerEnd =>
                    let imageData := Js.drop (headerEnd + 4) partContent in
                    match Js.indexOf
                            (String (ascii_of_N 255) (Js.str (ascii_of_N 216)))
                            imageData with
                    | Some jpegStart =>
                        (parts ++ [Js.drop jpegStart imageData])%list
                    | None => parts
                    end
                | None => parts
                end in
              multipartLoop fuel' buffer boundaryBytes partEnd parts'
          end
      end
  end.

Definition parseMultipartResponse (buffer boundary : string) : list string :=
  multipartLoop (String.length buffer) buffer (crlf ++ "--" ++ boundary)
    O [].

(** [headers["content-type"]?.split("boundary=")[1]] *)
Definition boundaryOf (headers : gmap string string) : option string :=
  match headers !! "content-type" with
  | Some c => nth_error (Js.split "boundary=" c) 1
  | None => None
  end.

(** The result is the list of photos; the [lastModified] date that
    goes with it is not modelled. *)
Definition getPhoto (session : gmap string string)
  (response : result (string * gmap string string)) (type id : string)
  : result (list string) :=
  if negb (Js.truthyProp (session !! "GetObject"))
  then Throw "GetObject URL not found in capability URLs"
  else
    rbind response (fun '(responseBuffer, headers) =>
      if (String.length responseBuffer <? 100)%nat then Ok []
      else
        match boundaryOf headers with
        | Some boundary =>
            if Js.truthy boundary
            then Ok (parseMultipartResponse responseBuffer boundary)
            else Throw "No boundary found in content-type header"
        | None => Throw "No boundary found in content-type header"
        end).

End Photos.

(** ** Concrete inputs and environments *)

Module Scenario.

Definition characterField : gmap string string :=
  <["DataType" := "Character"]> (<["MaxLength" := "40"]> ∅).

Definition decimalField : gmap string string :=
  <["DataType" := "Decimal"]>
    (<["MaxLength" := "12"]> (<["Precision" := "2"]> ∅)).

(** A dynamic pattern that never matches. *)
Definition noMetadataTag : string -> string -> result (option string) :=
  fun _ _ => Ok None.

(** A reply that carries a ReplyCode and no ReplyText. *)
Definition onlyReplyCode : string :=
  "<RETS ReplyCode=" ++ Js.quoted "0" ++ ">".

(** A reply that carries both attributes, ReplyText with an empty
    value. *)
Definition emptyReplyText : string :=
  "<RETS ReplyCode=" ++ Js.quoted "0" ++ " ReplyText="
  ++ Js.quoted EmptyString ++ " >".

(** A search result that carries neither attribute. *)
Definition bareSearchResult : string :=
  "<COLUMNS>" ++ Js.str Js.tab ++ "k" ++ Js.str Js.tab
  ++ "</COLUMNS><DATA>" ++ Js.str Js.tab ++ "1" ++ Js.str Js.tab
  ++ "</DATA>".

Definition session : gmap string string :=
  <["Search" := "/rets/search"]> (<["GetObject" := "/rets/getobject"]> ∅).

(** A GetObject reply with an empty body and no multipart boundary. *)
Definition emptyReply : result (string * gmap string string) :=
  Ok (EmptyString, <["content-type" := "image/jpeg"]> ∅).

(** A multipart GetObject reply of 44 bytes that holds one image. *)
Definition smallMultipartBody : string :=
  "--b" ++ Photos.crlf ++ "Content-Type: image/jpeg" ++ Photos.crlf
  ++ Photos.crlf ++ "JPEG" ++ Photos.crlf ++ "--b--".

Definition smallMultipartReply : result (string * gmap string string) :=
  Ok (smallMultipartBody,
      <["content-type" := "multipart/parallel; boundary=b"]> ∅).

(** Five uploads that fail, with no jitter. *)
Definition failingStore : SyncPhotos.Env :=
  {| SyncPhotos.io_stat := Ok 1024;
     SyncPhotos.io_attempt := fun _ => Throw "503 Service Unavailable";
     SyncPhotos.io_random := fun _ => 0%Q |}.

Definition propertyPair : Service.PairId :=
{| Service.pairResource := "Property"; Service.pairClass := Some "CI_3";
   Service.pairUpdateField := "L_UpdateDate" |}.

(** An environment in which every call succeeds, the tables exist and
    are empty, and every Search reply is [reply]. *)
Definition quietEnv (catalog : list Service.Entry) (reply : string)
  : Service.Env :=
{| Service.io_login := Ok session;
   Service.io_getUpdateFields := Ok catalog;
   Service.io_tableExists := fun _ _ => Ok true;
   Service.io_getTableMetadata := fun _ _ _ => Ok [];
   Service.io_getClasses := fun _ _ => Ok [];
   Service.io_getLatestUpdateValue := fun _ _ _ => None;
   Service.io_query := fun _ _ => Ok tt;
   Service.io_makeRetsRequest := fun _ _ => Ok reply;
   Service.io_writeFile := fun _ _ => Ok tt;
   Service.io_now := fun n => 1000 * Z.of_nat n;
   Service.io_toISOString := fun _ => None;
   Service.io_metadataTag := noMetadataTag |}.

Definition emptyWorld : Service.World :=
{| Service.lockoutFile := None; Service.trace := [] |}.

Definition initialState : Service.ServiceState :=
{| Service.lastFullSync := None; Service.world := emptyWorld |}.



Definition commercialCatalog : list Service.Entry :=
[{| Service.resource := "Property"; Service.updateField := "L_UpdateDate";
    Service.classes := Some [Some "CI_3"] |}].

(** A resource without an update field: full sync. *)
Definition fullSyncCatalog : list Service.Entry :=
[{| Service.resource := "Lookup"; Service.updateField := "N/A";
    Service.classes := None |}].

Definition twoClassCatalog : list Service.Entry :=
[{| Service.resource := "Property"; Service.updateField := "L_UpdateDate";
    Service.classes := Some [Some "RE_1"; Some "CI_3"] |}].

(** A world whose lockout file names the pair Property / CI_3. *)
Definition lockedState : Service.ServiceState :=
{| Service.lastFullSync := None;
   Service.world :=
     {| Service.lockoutFile :=
          Some (Service.lockoutFileOf {["Property::CI_3"]});
        Service.trace := [] |} |}.

Fixpoint dataRows (n : nat) : string :=
  match n with
  | O => EmptyString
  | S k => "<DATA>" ++ Js.str Js.tab ++ "1" ++ Js.str Js.tab ++ "</DATA>"
           ++ dataRows k
  end.

(** A Search reply with [n] records of one column. *)
Definition pageReply (n : nat) : string :=
"<RETS ReplyCode=" ++ Js.quoted "0" ++ " ReplyText=" ++ Js.quoted "Success"
++ "><COLUMNS>" ++ Js.str Js.tab ++ "k" ++ Js.str Js.tab
++ "</COLUMNS>" ++ dataRows n ++ "</RETS>".

Definition noLocals : Service.Locals :=
{| Service.lockout := ∅; Service.unauthorized := false;
   Service.upserted := O |}.

(** A server that returns a full page of 2500 records at Offset 1 and
    three records afterwards. *)
Definition twoPageEnv : Service.Env :=
{| Service.io_login := Ok session;
   Service.io_getUpdateFields := Ok commercialCatalog;
   Service.io_tableExists := fun _ _ => Ok true;
   Service.io_getTableMetadata := fun _ _ _ => Ok [];
   Service.io_getClasses := fun _ _ => Ok [];
   Service.io_getLatestUpdateValue := fun _ _ _ => None;
   Service.io_query := fun _ _ => Ok tt;
   Service.io_makeRetsRequest :=
     fun _ request =>
       Ok (if Service.Offset request =? 1 then pageReply 2500
           else pageReply 3);
   Service.io_writeFile := fun _ _ => Ok tt;
   Service.io_now := fun n => 1000 * Z.of_nat n;
   Service.io_toISOString := fun _ => None;
   Service.io_metadataTag := noMetadataTag |}.

Definition propertyCallback (env : Service.Env)
  : list (gmap string string) -> RetsParser.RetsResponse -> Service.Locals
    -> Service.M Service.Locals :=
Service.upsertCallback env propertyPair "Property::CI_3" "Property_CI_3" [].

Definition firstRequest (env : Service.Env) : Service.SearchRequest :=
Service.searchRequest env "Property" "CI_3" "L_UpdateDate" None 1.

Definition parsedOf (reply : string) : RetsParser.RetsResponse :=
match RetsParser.parse noMetadataTag reply with
| Ok r => r
| Throw _ =>
    {| RetsParser.ReplyCode := EmptyString;
       RetsParser.ReplyText := EmptyString;
       RetsParser.Metadata := None; RetsParser.RETS_RESPONSE := None;
       RetsParser.Count := None; RetsParser.records := None |}
end.

Definition firstTurn (env : Service.Env) (reply : string)
  : Service.outcome Service.Locals * Service.World :=
propertyCallback env
  (default [] (RetsParser.records (parsedOf reply))) (parsedOf reply)
  noLocals
  (Service.record propertyPair (Service.Search (firstRequest env))
     emptyWorld).

Definition localsOf (r : Service.outcome Service.Locals * Service.World)
  : Service.Locals :=
match fst r with
| Service.Done l => l
| _ => noLocals
end.

(** The reconciler: listing A is sold, B withdrawn and C expired on the
    hotsheet; locally A and B are active and C is pending. *)
Definition rowA : PropertyCleanup.Row :=
{| PropertyCleanup.L_ListingID := "A"; PropertyCleanup.L_Address := "1 Main St";
   PropertyCleanup.L_StatusCatID := "1" |}.

Definition rowB : PropertyCleanup.Row :=
{| PropertyCleanup.L_ListingID := "B"; PropertyCleanup.L_Address := "2 Main St";
   PropertyCleanup.L_StatusCatID := "1" |}.

Definition rowC : PropertyCleanup.Row :=
{| PropertyCleanup.L_ListingID := "C"; PropertyCleanup.L_Address := "3 Main St";
   PropertyCleanup.L_StatusCatID := "3" |}.

Definition propertyClasses : list string := ["RE_1"; "MF_4"; "CI_3"; "LD_2"].

Definition propertyTables : gmap string (list PropertyCleanup.Row) :=
<["Property_RE_1" := [rowA; rowB; rowC]]>
  (<["Property_MF_4" := []]>
     (<["Property_CI_3" := []]> (<["Property_LD_2" := []]> ∅))).

Definition soldIds : gset string := {["A"]}.
Definition withdrawnOrExpiredIds : gset string := {["B"; "C"]}.

Definition expectedStatements : list PropertyCleanup.Statement :=
[PropertyCleanup.UpdateSold "Property_RE_1" ["A"];
 PropertyCleanup.DeleteRows "Property_RE_1" ["B"]].

Definition expectedTables : gmap string (list PropertyCleanup.Row) :=
<["Property_RE_1" := [PropertyCleanup.setSold rowA; rowC]]> propertyTables.

(** A table that holds listing A twice: as active and, in a row left
    from an earlier state, as pending. *)
Definition staleRowA : PropertyCleanup.Row :=
{| PropertyCleanup.L_ListingID := "A"; PropertyCleanup.L_Address := "1 Main St";
   PropertyCleanup.L_StatusCatID := "3" |}.

Definition duplicateTables : gmap string (list PropertyCleanup.Row) :=
<["Property_RE_1" := [rowA; staleRowA]]> propertyTables.

(** A photo of 102 bytes and the multipart reply that carries it. *)
Definition jpegPhoto : string :=
String (ascii_of_N 255) (String (ascii_of_N 216) (Js.zeros 100)).

Definition multipartBody : string :=
Photos.crlf ++ "--b" ++ Photos.crlf ++ "Content-Type: image/jpeg"
++ Photos.crlf ++ Photos.crlf ++ jpegPhoto ++ Photos.crlf ++ "--b--".

Definition multipartHeaders : gmap string string :=
<["content-type" := "multipart/parallel; boundary=b"]> ∅.

(** A store that accepts the third upload. *)
Definition flakyStore : SyncPhotos.Env :=
{| SyncPhotos.io_stat := Ok 1024;
   SyncPhotos.io_attempt :=
     fun n => if (n <? 3)%nat then Throw "503 Service Unavailable"
              else Ok tt;
   SyncPhotos.io_random := fun _ => 0%Q |}.

(** Two records of a batch, the first with an empty address, and a
    database that rejects its first statement. *)
Definition firstRecord : gmap string string :=
<["L_ListingID" := "A"]> (<["L_Address" := EmptyString]> ∅).

Definition secondRecord : gmap string string :=
<["L_ListingID" := "B"]> (<["L_Address" := "2 Main St"]> ∅).

Definition rejectingEnv : Service.Env :=
{| Service.io_login := Ok session;
   Service.io_getUpdateFields := Ok commercialCatalog;
   Service.io_tableExists := fun _ _ => Ok true;
   Service.io_getTableMetadata := fun _ _ _ => Ok [];
   Service.io_getClasses := fun _ _ => Ok [];
   Service.io_getLatestUpdateValue := fun _ _ _ => None;
   Service.io_query :=
     fun n _ => if (n =? 0)%nat then Throw "Column 'L_Address' cannot be null"
                else Ok tt;
   Service.io_makeRetsRequest := fun _ _ => Ok EmptyString;
   Service.io_writeFile := fun _ _ => Ok tt;
   Service.io_now := fun n => 1000 * Z.of_nat n;
   Service.io_toISOString := fun _ => None;
   Service.io_metadataTag := noMetadataTag |}.

Definition twoLockouts : gset string :=
{["Property::CI_3"; "Agent::null"]}.

End Scenario.

(* ================================================================== *)
(** * Properties *)
(* ================================================================== *)

(** ** Numbers *)

Lemma toNumber_safe (z : Z) : Z.abs z < 2 ^ 53 -> Js.toNumber z = Js.Finite z.
Proof.
  intros H. unfold Js.toNumber. apply Z.ltb_lt in H. by rewrite H.
Qed.

Lemma parseDigits_of_uint_acc (d : Decimal.uint) (acc : positive) :
  Js.parseDigits 10 (NilEmpty.string_of_uint d) (Some (Z.pos acc))
  = Some (Z.pos (Pos.of_uint_acc d acc)).
Proof.
  revert acc. induction d; intros acc; cbn [NilEmpty.string_of_uint];
    [reflexivity|..];
    cbn [Js.parseDigits Pos.of_uint_acc];
    match goal with
    | |- context [Js.digitValue 10 ?a] =>
        change (Js.digitValue 10 a) with (Js.digitValue 10 a);
        let v := eval vm_compute in (Js.digitValue 10 a) in
        change (Js.digitValue 10 a) with v
    end;
    cbv iota beta; rewrite <- IHd; f_equal; f_equal; lia.
Qed.

Lemma parseDigits_of_uint (d : Decimal.uint) :
  Js.parseDigits 10 (NilEmpty.string_of_uint d) (Some 0)
  = Some (Z.of_N (Pos.of_uint d)).
Proof.
  induction d; cbn [NilEmpty.string_of_uint]; [reflexivity|..];
    cbn [Js.parseDigits Pos.of_uint];
    match goal with
    | |- context [Js.digitValue 10 ?a] =>
        let v := eval vm_compute in (Js.digitValue 10 a) in
        change (Js.digitValue 10 a) with v
    end;
    cbv iota beta; change (10 * 0 + 0) with 0; try exact IHd;
    match goal with
    | |- Js.parseDigits 10 _ (Some ?k) = _ =>
        let p := eval vm_compute in (Z.to_pos k) in
        change k with (Z.pos p)
    end;
    apply parseDigits_of_uint_acc.
Qed.

(** Reading the decimal digits of a natural number gives the Number
    value of that number. *)
Lemma parseInt_decimal (n : Z) (radix : option Z) :
  0 <= n -> radix = None \/ radix = Some 10 ->
  Js.parseInt (Js.decimal n) radix = Some (Js.toNumber n).
Proof.
  intros Hn Hr. unfold Js.decimal.
  assert (Z.of_N (Pos.of_uint (N.to_uint (Z.to_N n))) = n) as Hv.
  { change (Pos.of_uint ?d) with (N.of_uint d).
    rewrite DecimalN.Unsigned.of_to. lia. }
  assert (N.to_uint (Z.to_N n) <> Decimal.Nil) as Hnil.
  { destruct (Z.to_N n); [discriminate|].
    apply DecimalPos.Unsigned.to_uint_nonnil. }
  revert Hv Hnil. generalize (N.to_uint (Z.to_N n)). intros d Hv Hnil.
  assert (Js.parseDigits 10 (NilEmpty.string_of_uint d) None
          = Some (Z.of_N (Pos.of_uint d))) as Hd.
  { rewrite <- parseDigits_of_uint.
    destruct d; [done|..]; reflexivity. }
  assert (NilZero.string_of_uint d = NilEmpty.string_of_uint d) as ->
      by (destruct d; [done|..]; reflexivity).
  unfold Js.parseInt.
  assert (Js.trimStart (NilEmpty.string_of_uint d)
          = NilEmpty.string_of_uint d) as ->
      by (destruct d; reflexivity).
  destruct Hr as [-> | ->].
  - assert (String.prefix "0x" (NilEmpty.string_of_uint d)
            || String.prefix "0X" (NilEmpty.string_of_uint d) = false) as Hx.
    { destruct d as [|d|d|d|d|d|d|d|d|d|d]; try reflexivity.
      destruct d; reflexivity. }
    destruct d; [done|..]; cbn [NilEmpty.string_of_uint] in *;
      rewrite Hx, Hd, Hv; f_equal; f_equal; lia.
  - destruct d; [done|..]; cbn [NilEmpty.string_of_uint] in *;
      rewrite Hd, Hv; f_equal; f_equal; lia.
Qed.

Lemma numberToString_safe (n : Z) :
  0 <= n < 2 ^ 53 -> Js.numberToString (Js.Finite n) = Js.decimal n.
Proof.
  intros [H0 H1]. unfold Js.numberToString, Js.printPositive.
  apply Z.ltb_lt in H1. rewrite H1.
  by replace (n <? 0) with false by (symmetry; apply Z.ltb_ge; lia).
Qed.

Example number_examples :
  Js.parseInt " 12abc" None = Some (Js.Finite 12)
  /\ Js.parseInt "0x1F" None = Some (Js.Finite 31)
  /\ Js.parseInt "abc" None = None
  /\ Js.parseInt "-7" (Some 10) = Some (Js.Finite (-7))
  /\ Js.parseInt "9007199254740993" None = Some (Js.Finite 9007199254740992)
  /\ Js.numberToString (Js.toNumber (10 ^ 21)) = "1e+21"
  /\ Js.numberToString (Js.toNumber (2 ^ 60)) = "1152921504606847000"
  /\ Js.numberToString (Js.toNumber (2 ^ 70)) = "1.1805916207174113e+21"
  /\ Js.numberToString (Js.toNumber (10 ^ 400)) = "Infinity".
Proof. repeat split; vm_compute; reflexivity. Qed.

Example split_examples :
  Js.split "," "a,b," = ["a"; "b"; ""]
  /\ Js.split "::" "a::b:c" = ["a"; "b:c"] /\ Js.split "," "" = [""].
Proof. repeat split; reflexivity. Qed.

Example getRetsToMySQLType_examples :
  Schema.getRetsToMySQLType
    (<["DataType" := "Character"]> (<["MaxLength" := "40"]> ∅))
  = "VARCHAR(40)"
  /\ Schema.getRetsToMySQLType
       (<["DataType" := "Decimal"]>
          (<["MaxLength" := "12"]> (<["Precision" := "0"]> ∅)))
     = "DECIMAL(12,0)"
  /\ Schema.getRetsToMySQLType
       (<["DataType" := "Decimal"]>
          (<["MaxLength" := "9007199254740993"]>
             (<["Precision" := "9007199254740992"]> ∅)))
     = "DECIMAL(10,2)"
  /\ Schema.getRetsToMySQLType
       (<["DataType" := "Decimal"]>
          (<["MaxLength" := "1000000000000000000000"]>
             (<["Precision" := "2"]> ∅)))
     = "DECIMAL(1e+21,2)".
Proof. repeat split; vm_compute; reflexivity. Qed.

(** ** The type table of the schema generator *)

Section SchemaTable.

Variable field : gmap string string.

Let dataType : option string := Js.toLowerCase <$> (field !! "DataType").
Let interpretation : option string := field !! "Interpretation".
Let ty : string := Schema.getRetsToMySQLType field.

(** The Number that a property of the field is read as; a property
    that is missing, empty or not a number is read as none. *)
Let reads (property : string) (n : Js.number) : Prop :=
  exists s, field !! property = Some s /\ s <> EmptyString
            /\ Js.parseInt s None = Some n.

Local Ltac unfold_ty :=
  unfold ty, Schema.getRetsToMySQLType;
  fold dataType; fold interpretation.

Local Ltac settle :=
  repeat match goal with
    | H : ?x = _ |- context [bool_decide (?x = _)] => rewrite H
    | H : ?x <> ?v |- context [bool_decide (?x = ?v)] =>
        rewrite (bool_decide_eq_false_2 _ H)
    end;
  try reflexivity.

Lemma parsedNumber_reads (property : string) (n : Js.number) :
  Schema.parsedNumber (field !! property) = Some (Some n)
  <-> reads property n.
Proof.
  unfold Schema.parsedNumber, reads.
  destruct (field !! property) as [s|]; cbn.
  - destruct s as [|a s]; cbn.
    + split; [discriminate | intros (s & [= <-] & H & _); done].
    + split.
      * intros [= H]. eauto.
      * intros (s' & [= <-] & _ & H). by rewrite H.
  - split; [discriminate | intros (s & H & _); discriminate].
Qed.

Lemma lookup_multi_row : interpretation = Some "LookupMulti" -> ty = "TEXT".
Proof. intros H. unfold_ty. settle. Qed.

Lemma lookup_row : interpretation = Some "Lookup" -> ty = "VARCHAR(50)".
Proof. intros H. unfold_ty. settle. Qed.

Hypothesis not_multi : interpretation <> Some "LookupMulti".
Hypothesis not_lookup : interpretation <> Some "Lookup".

Lemma int_row :
  dataType = Some "int" \/ dataType = Some "small" \/ dataType = Some "tiny" ->
  ty = "INT".
Proof. intros [H | [H | H]]; unfold_ty; settle. Qed.

Lemma fixed_rows :
  (dataType = Some "long" -> ty = "BIGINT")
  /\ (dataType = Some "datetime" ->
      ty = "DATETIME default '0000-00-00 00:00:00' NOT NULL")
  /\ (dataType = Some "date" -> ty = "DATE default '0000-00-00' NOT NULL")
  /\ (dataType = Some "time" -> ty = "TIME default '00:00:00' NOT NULL")
  /\ (dataType = Some "boolean" -> ty = "CHAR(1)").
Proof. repeat split; intros H; unfold_ty; settle. Qed.

Lemma character_rows :
  dataType = Some "character" ->
  (forall n, reads "MaxLength" (Js.Finite n) -> 1 <= n <= 255 ->
             ty = "VARCHAR(" ++ Js.decimal n ++ ")")
  /\ ((forall n, reads "MaxLength" (Js.Finite n) -> ~ 1 <= n <= 255) ->
      ty = "TEXT").
Proof.
  intros H. split.
  - intros n Hn Hr. apply parsedNumber_reads in Hn.
    unfold_ty. settle. unfold Schema.maxLength. rewrite Hn.
    cbn [Js.ltNumber Js.leNumber].
    replace ((0 <? n) && (n <=? 255)) with true.
    + rewrite numberToString_safe; [reflexivity|].
      change (2 ^ 53) with 9007199254740992. lia.
    + symmetry. apply andb_true_iff.
      split; [apply Z.ltb_lt | apply Z.leb_le]; lia.
  - intros Hno. unfold_ty. settle. unfold Schema.maxLength.
    destruct (Schema.parsedNumber (field !! "MaxLength")) as [[n|]|] eqn:E;
      try reflexivity.
    apply parsedNumber_reads in E.
    destruct n as [n|negative].
    + specialize (Hno n E). cbn [Js.ltNumber Js.leNumber].
      destruct ((0 <? n) && (n <=? 255)) eqn:B.
      * apply andb_true_iff in B as [B1 B2].
        apply Z.ltb_lt in B1. apply Z.leb_le in B2. lia.
      * destruct (255 <? n); reflexivity.
    + destruct negative; reflexivity.
Qed.

Lemma decimal_rows :
  dataType = Some "decimal" ->
  (forall n p, reads "MaxLength" n -> reads "Precision" p ->
               Js.leNumber (Js.Finite 0) p = true ->
               Js.ltNumber p n = true ->
               ty = "DECIMAL(" ++ Js.numberToString n ++ ","
                    ++ Js.numberToString p ++ ")")
  /\ ((forall n p, reads "MaxLength" n -> reads "Precision" p ->
                   ~ (Js.leNumber (Js.Finite 0) p = true
                      /\ Js.ltNumber p n = true)) ->
      ty = "DECIMAL(10,2)").
Proof.
  intros H. split.
  - intros n p Hn Hp H0 Hlt. apply parsedNumber_reads in Hn, Hp.
    unfold_ty. settle. unfold Schema.maxLength, Schema.precision.
    rewrite Hn, Hp, H0, Hlt.
    replace (Js.ltNumber (Js.Finite 0) n) with true; [reflexivity|].
    symmetry. destruct p as [p|[]], n as [n|[]]; cbn in *; try done.
    apply Z.leb_le in H0. apply Z.ltb_lt in Hlt. apply Z.ltb_lt. lia.
  - intros Hno. unfold_ty. settle. unfold Schema.maxLength, Schema.precision.
    destruct (Schema.parsedNumber (field !! "MaxLength")) as [[n|]|] eqn:E;
      try reflexivity.
    destruct (Schema.parsedNumber (field !! "Precision")) as [[p|]|] eqn:E';
      try reflexivity.
    apply parsedNumber_reads in E, E'. specialize (Hno n p E E').
    destruct (Js.leNumber (Js.Finite 0) p) eqn:B1;
      [|by rewrite andb_false_r].
    destruct (Js.ltNumber p n) eqn:B2; [|by rewrite andb_false_r].
    by destruct Hno.
Qed.

(** The same two rows on a field whose MaxLength and Precision are
    written in decimal digits. *)
Lemma digit_rows :
  (dataType = Some "character" ->
   forall n, 1 <= n <= 255 -> field !! "MaxLength" = Some (Js.decimal n) ->
             ty = "VARCHAR(" ++ Js.decimal n ++ ")")
  /\ (dataType = Some "decimal" ->
      forall n p, 0 <= p < n -> n < 2 ^ 53 ->
                  field !! "MaxLength" = Some (Js.decimal n) ->
                  field !! "Precision" = Some (Js.decimal p) ->
                  ty = "DECIMAL(" ++ Js.decimal n ++ "," ++ Js.decimal p
                       ++ ")").
Proof.
  assert (forall property n,
             0 <= n < 2 ^ 53 -> field !! property = Some (Js.decimal n) ->
             reads property (Js.Finite n)) as Hreads.
  { intros property n Hn Hf. exists (Js.decimal n). split; [exact Hf|]. split.
    - unfold Js.decimal.
      destruct (N.to_uint (Z.to_N n)); discriminate.
    - rewrite parseInt_decimal by (lia || auto).
      f_equal. apply toNumber_safe. lia. }
  split.
  - intros Hd n Hn Hf. apply (proj1 (character_rows Hd)); [|exact Hn].
    apply Hreads; [|exact Hf]. change (2 ^ 53) with 9007199254740992. lia.
  - intros Hd n p Hp Hn Hfn Hfp.
    rewrite <- (numberToString_safe n), <- (numberToString_safe p) by lia.
    apply (proj1 (decimal_rows Hd)).
    + apply Hreads; [lia | exact Hfn].
    + apply Hreads; [lia | exact Hfp].
    + apply Z.leb_le. lia.
    + apply Z.ltb_lt. lia.
Qed.

Lemma otherwise_row :
  dataType ∉ (Some <$> ["int"; "small"; "tiny"; "long"; "datetime";
                        "character"; "decimal"; "boolean"; "date"; "time"]) ->
  ty = "TEXT".
Proof.
  intros H. unfold_ty.
  rewrite (bool_decide_eq_false_2 _ not_multi).
  rewrite (bool_decide_eq_false_2 _ not_lookup).
  repeat match goal with
    | |- context [bool_decide (dataType = Some ?c)] =>
        rewrite (bool_decide_eq_false_2 (dataType = Some c));
        [| intros E; apply H; rewrite E; simpl; set_solver]
    end.
  reflexivity.
Qed.

End SchemaTable.

(** C5. [getRetsToMySQLType] follows the type table: the two lookup
    interpretations override the data type; otherwise the (lower-cased)
    data type selects the SQL type, with VARCHAR(maxLen) for a character
    field exactly when 1 <= maxLen <= 255, DECIMAL(maxLen, precision) for
    a decimal field exactly when maxLen > precision >= 0, and TEXT for
    every data type that the table does not list.  maxLen and precision
    are the Numbers that [parseInt] reads from the MaxLength and
    Precision properties; for properties written in decimal digits (below
    2^53) they are the numbers so written, and print as written. *)
Theorem getRetsToMySQLType_type_table (field : gmap string string) :
  let dataType := Js.toLowerCase <$> (field !! "DataType") in
  let interpretation := field !! "Interpretation" in
  let ty := Schema.getRetsToMySQLType field in
  let reads (property : string) (n : Js.number) :=
    exists s, field !! property = Some s /\ s <> EmptyString
              /\ Js.parseInt s None = Some n in
  let digits (n : Z) := NilZero.string_of_uint (N.to_uint (Z.to_N n)) in
  (interpretation = Some "LookupMulti" -> ty = "TEXT")
  /\ (interpretation = Some "Lookup" -> ty = "VARCHAR(50)")
  /\ (interpretation <> Some "LookupMulti" ->
      interpretation <> Some "Lookup" ->
      (dataType = Some "int" \/ dataType = Some "small"
       \/ dataType = Some "tiny" -> ty = "INT")
      /\ (dataType = Some "long" -> ty = "BIGINT")
      /\ (dataType = Some "datetime" ->
          ty = "DATETIME default '0000-00-00 00:00:00' NOT NULL")
      /\ (dataType = Some "date" ->
          ty = "DATE default '0000-00-00' NOT NULL")
      /\ (dataType = Some "time" -> ty = "TIME default '00:00:00' NOT NULL")
      /\ (dataType = Some "boolean" -> ty = "CHAR(1)")
      /\ (dataType = Some "character" ->
          (forall n, reads "MaxLength" (Js.Finite n) -> 1 <= n <= 255 ->
                     ty = "VARCHAR(" ++ digits n ++ ")")
          /\ ((forall n, reads "MaxLength" (Js.Finite n) ->
                         ~ 1 <= n <= 255) -> ty = "TEXT")
          /\ (forall n, 1 <= n <= 255 ->
                        field !! "MaxLength" = Some (digits n) ->
                        ty = "VARCHAR(" ++ digits n ++ ")"))
      /\ (dataType = Some "decimal" ->
          (forall n p, reads "MaxLength" n -> reads "Precision" p ->
                       Js.leNumber (Js.Finite 0) p = true ->
                       Js.ltNumber p n = true ->
                       ty = "DECIMAL(" ++ Js.numberToString n ++ ","
                            ++ Js.numberToString p ++ ")")
          /\ ((forall n p, reads "MaxLength" n -> reads "Precision" p ->
                           ~ (Js.leNumber (Js.Finite 0) p = true
                              /\ Js.ltNumber p n = true)) ->
              ty = "DECIMAL(10,2)")
          /\ (forall n p, 0 <= p < n -> n < 2 ^ 53 ->
                          field !! "MaxLength" = Some (digits n) ->
                          field !! "Precision" = Some (digits p) ->
                          ty = "DECIMAL(" ++ digits n ++ "," ++ digits p
                               ++ ")"))
      /\ (dataType ∉ (Some <$> ["int"; "small"; "tiny"; "long"; "datetime";
                                "character"; "decimal"; "boolean"; "date";
                                "time"]) -> ty = "TEXT")).
Proof.
  intros dataType interpretation ty reads digits.
  split; [apply lookup_multi_row|]. split; [apply lookup_row|].
  intros H1 H2.
  pose proof (fixed_rows field H1 H2) as (Hlong & Hdt & Hd & Ht & Hb).
  pose proof (digit_rows field H1 H2) as [Hcd Hdd].
  split; [apply int_row; assumption|].
  do 5 (split; [assumption|]).
  split.
  { intros Hc. destruct (character_rows field H1 H2 Hc) as [Hc1 Hc2].
    split; [exact Hc1|]. split; [exact Hc2|]. by apply Hcd. }
  split.
  { intros Hc. destruct (decimal_rows field H1 H2 Hc) as [Hc1 Hc2].
    split; [exact Hc1|]. split; [exact Hc2|]. by apply Hdd. }
  apply otherwise_row; assumption.
Qed.

Lemma getRetsToMySQLType_type_table_witness :
  Schema.getRetsToMySQLType Scenario.characterField = "VARCHAR(40)"
  /\ Schema.getRetsToMySQLType Scenario.decimalField = "DECIMAL(12,2)".
Proof.
  split.
  - destruct (getRetsToMySQLType_type_table Scenario.characterField)
      as (_ & _ & H).
    destruct H as (_ & _ & _ & _ & _ & _ & Hc & _); [done | done |].
    destruct Hc as (_ & _ & Hc); [reflexivity |].
    apply (Hc 40); [lia | reflexivity].
  - destruct (getRetsToMySQLType_type_table Scenario.decimalField)
      as (_ & _ & H).
    destruct H as (_ & _ & _ & _ & _ & _ & _ & Hd & _); [done | done |].
    destruct Hd as (_ & _ & Hd); [reflexivity |].
    apply (Hd 12 2); [lia | reflexivity | reflexivity | reflexivity].
Defined.

Example json_examples :
  Json.parse (Json.stringify ["Property::CI_3"; "a" ++ Js.str Js.dquote ++ "b"])
  = Some ["Property::CI_3"; "a" ++ Js.str Js.dquote ++ "b"]
  /\ Json.stringify [] = "[]"
  /\ Json.parse "[1]" = None.
Proof. repeat split; vm_compute; reflexivity. Qed.

(** ** Strings *)

Lemma append_cons (a : ascii) (s t : string) :
  String a s ++ t = String a (s ++ t).
Proof. reflexivity. Qed.

Lemma append_nil_r (s : string) : s ++ "" = s.
Proof.
  induction s as [|a s IH]; [reflexivity|].
  rewrite append_cons, IH. reflexivity.
Qed.

Lemma append_assoc (s t u : string) : (s ++ t) ++ u = s ++ (t ++ u).
Proof.
  induction s as [|a s IH]; [reflexivity|].
  rewrite !append_cons, IH. reflexivity.
Qed.

(** ** The lockout file: reading back what was written *)

Section JsonRoundTrip.

Lemma run_append (st : Json.mode * list string) (s t : string) :
  Json.run st (s ++ t) = Json.run (Json.run st s) t.
Proof.
  revert st. induction s as [|a s IH]; intros st; [reflexivity|].
  rewrite append_cons. simpl. apply IH.
Qed.

(** The escape sequence of a character reads back as that character. *)
Lemma run_escapeChar (a : ascii) (k : string -> string) (acc : list string) :
  Json.run (Json.InString k, acc) (Json.escapeChar a)
  = (Json.InString (Json.put k a), acc).
Proof. destruct a as [[] [] [] [] [] [] [] []]; reflexivity. Qed.

Lemma run_escape (s rest : string) (k : string -> string)
  (acc : list string) :
  Json.run (Json.InString k, acc) (Json.escape s ++ rest)
  = Json.run (Json.InString (fun r => k (s ++ r)), acc) rest.
Proof.
  revert k. induction s as [|a s IH]; intros k; [reflexivity|].
  cbn [Json.escape]. rewrite append_assoc, run_append, run_escapeChar.
  rewrite IH. reflexivity.
Qed.

Lemma run_quote (s rest : string) (acc : list string) (m : Json.mode) :
  m = Json.Opened \/ m = Json.Element ->
  Json.run (m, acc) (Json.quote s ++ rest)
  = Json.run (Json.AfterString, s :: acc) rest.
Proof.
  intros Hm. unfold Json.quote. rewrite append_cons.
  assert (Json.step (m, acc) Js.dquote = (Json.InString (fun r => r), acc))
    as Hstep by (destruct Hm; subst m; reflexivity).
  cbn [Json.run]. rewrite Hstep.
  rewrite append_assoc, run_escape.
  unfold Js.str. rewrite append_cons. cbn [Json.run].
  change (Json.step (Json.InString (fun r => s ++ r), acc) Js.dquote)
    with (Json.AfterString, (s ++ "") :: acc).
  rewrite append_nil_r. reflexivity.
Qed.

Lemma run_elementLines (l : list string) (acc : list string) (m : Json.mode) :
  l <> [] -> m = Json.Opened \/ m = Json.Element ->
  Json.run (m, acc) (Json.elementLines l ++ "]")
  = (Json.Closed, (rev l ++ acc)%list).
Proof.
  revert acc m. induction l as [|x l IH]; intros acc m Hne Hm; [done|].
  assert (forall rest, Json.run (m, acc) ("  " ++ Json.quote x ++ rest)
                       = Json.run (Json.AfterString, x :: acc) rest) as Hx.
  { intros rest. rewrite !append_cons.
    assert (Json.step (m, acc) " " = (m, acc)) as Hsp
        by (destruct Hm; subst m; reflexivity).
    cbn [Json.run]. rewrite !Hsp. change ("" ++ ?s) with s.
    apply run_quote, Hm. }
  destruct l as [|y l].
  - cbn [Json.elementLines]. rewrite !append_assoc, Hx. reflexivity.
  - change (Json.elementLines (x :: y :: l))
      with ("  " ++ Json.quote x ++ "," ++ Js.str Js.lf
            ++ Json.elementLines (y :: l)).
    rewrite !append_assoc, Hx.
    change ("," ++ Js.str Js.lf ++ Json.elementLines (y :: l) ++ "]")
      with (String "," (String Js.lf (Json.elementLines (y :: l) ++ "]"))).
    cbn [Json.run].
    change (Json.step (Json.step (Json.AfterString, x :: acc) ",") Js.lf)
      with (Json.Element, x :: acc).
    rewrite IH; [|done|by right].
    cbn [rev]. rewrite <- !app_assoc. reflexivity.
Qed.

Lemma parse_stringify (l : list string) :
  Json.parse (Json.stringify l) = Some l.
Proof.
  destruct l as [|x l]; [reflexivity|].
  unfold Json.parse, Json.stringify.
  change ("[" ++ Js.str Js.lf ++ Json.elementLines (x :: l) ++ "]")
    with (String "[" (String Js.lf (Json.elementLines (x :: l) ++ "]"))).
  cbn [Json.run].
  change (Json.step (Json.step (Json.Start, []) "[") Js.lf)
    with (Json.Opened, @nil string).
  rewrite run_elementLines; [|done|by left].
  rewrite app_nil_r, rev_involutive. reflexivity.
Qed.

End JsonRoundTrip.

(** ** Patterns, as statements about the text *)

Lemma append_nil_l (s : string) : EmptyString ++ s = s.
Proof. reflexivity. Qed.

Lemma prefix_append (p r : string) : String.prefix p (p ++ r) = true.
Proof.
  induction p as [|a p IH]; [by destruct r|].
  rewrite append_cons. cbn [String.prefix].
  destruct (ascii_dec a a); [exact IH | done].
Qed.

Lemma prefix_drop (p s : string) :
  String.prefix p s = true -> s = p ++ Js.drop (String.length p) s.
Proof.
  revert s. induction p as [|a p IH]; intros s H; [reflexivity|].
  destruct s as [|b s]; [discriminate|]. cbn [String.prefix] in H.
  destruct (ascii_dec a b) as [->|]; [|discriminate].
  rewrite append_cons. cbn [String.length Js.drop]. f_equal. by apply IH.
Qed.

Lemma drop_append (p r : string) : Js.drop (String.length p) (p ++ r) = r.
Proof. induction p as [|a p IH]; [by destruct r | exact IH]. Qed.

Lemma span_append (f : ascii -> bool) (s x y : string) :
  Js.span f s = (x, y) ->
  s = x ++ y
  /\ Forall (fun a => f a = true) (list_ascii_of_string x)
  /\ (forall a r, y = String a r -> f a = false).
Proof.
  revert x y. induction s as [|a s IH]; intros x y; cbn [Js.span].
  - intros [= <- <-]. repeat split; [constructor | discriminate].
  - destruct (f a) eqn:Ea.
    + destruct (Js.span f s) as [x0 y0]. intros [= <- <-].
      destruct (IH x0 y0 eq_refl) as (-> & Hx & Hy).
      repeat split; [by constructor | exact Hy].
    + intros [= <- <-]. repeat split; [constructor|].
      intros b r [= <- <-]. exact Ea.
Qed.

Lemma span_intro (f : ascii -> bool) (x y : string) :
  Forall (fun a => f a = true) (list_ascii_of_string x) ->
  (forall a r, y = String a r -> f a = false) ->
  Js.span f (x ++ y) = (x, y).
Proof.
  intros Hx Hy. induction x as [|a x IH].
  - change (EmptyString ++ y) with y.
    destruct y as [|b y]; [reflexivity|]. cbn [Js.span].
    by rewrite (Hy b y eq_refl).
  - rewrite append_cons. cbn [Js.span]. cbn in Hx.
    apply Forall_cons in Hx as [Ha Hx]. rewrite Ha, IH by done. reflexivity.
Qed.

Lemma search_Some {A : Type} (here : string -> option A) (s : string)
  (v : A) :
  Js.search here s = Some v ->
  exists pre rest, s = pre ++ rest /\ here rest = Some v.
Proof.
  induction s as [|a s IH]; cbn [Js.search].
  - destruct (here EmptyString) eqn:E; [|discriminate].
    intros [= <-]. by exists EmptyString, EmptyString.
  - destruct (here (String a s)) eqn:E.
    + intros [= <-]. by exists EmptyString, (String a s).
    + intros H. destruct (IH H) as (pre & rest & -> & Hr).
      by exists (String a pre), rest.
Qed.

Lemma search_is_Some {A : Type} (here : string -> option A)
  (pre rest : string) :
  is_Some (here rest) -> is_Some (Js.search here (pre ++ rest)).
Proof.
  intros Hr. induction pre as [|a pre IH].
  - change (EmptyString ++ rest) with rest.
    destruct rest; cbn [Js.search]; destruct Hr as [v ->]; eauto.
  - rewrite append_cons. cbn [Js.search].
    destruct (here (String a (pre ++ rest))); eauto.
Qed.

Section Written.

Import RetsParser.

Lemma attributeHere_Some (name s value : string) :
  attributeHere name s = Some value
  <-> exists post,
        s = name ++ "=" ++ Js.quoted value ++ post
        /\ value <> EmptyString
        /\ Forall (fun a => a <> Js.dquote) (list_ascii_of_string value).
Proof.
  unfold attributeHere. set (opening := name ++ "=" ++ Js.str Js.dquote).
  assert (forall v post,
             name ++ "=" ++ Js.quoted v ++ post
             = opening ++ v ++ String Js.dquote post) as Hshape.
  { intros v post. unfold opening, Js.quoted, Js.str.
    repeat first [ rewrite append_assoc | rewrite append_cons
                 | rewrite append_nil_l ].
    reflexivity. }
  split.
  - destruct (String.prefix opening s) eqn:Ep; [|discriminate].
    apply prefix_drop in Ep.
    destruct (Js.span _ (Js.drop (String.length opening) s)) as [v rest]
      eqn:Es.
    apply span_append in Es as (Hs & Hv & Hrest).
    destruct (Js.truthy v) eqn:Et; [|discriminate].
    destruct rest as [|a rest]; [discriminate|]. cbn [Js.str String.prefix].
    destruct (ascii_dec Js.dquote a) as [<-|]; [|discriminate].
    replace (String.prefix EmptyString rest) with true by (by destruct rest).
    cbn [andb]. intros [= <-]. exists rest. split; [|split].
    + rewrite Hshape, Ep at 1. by rewrite Hs.
    + by destruct v.
    + eapply Forall_impl; [exact Hv|]. intros a Ha ->.
      by rewrite Ascii.eqb_refl in Ha.
  - intros (post & -> & Hne & Hv). rewrite Hshape, prefix_append, drop_append.
    rewrite (span_intro _ value (String Js.dquote post)).
    + destruct value; [done|]. cbn [Js.truthy Js.isEmpty negb andb].
      cbn [Js.str String.prefix].
      destruct (ascii_dec Js.dquote Js.dquote); [by destruct post | done].
    + eapply Forall_impl; [exact Hv|]. intros a Ha.
      apply negb_true_iff, Ascii.eqb_neq. exact Ha.
    + intros a r [= <- <-]. by rewrite Ascii.eqb_refl.
Qed.

Lemma hasAttribute_written (name xmlString : string) :
  hasAttribute name xmlString = true <-> written name xmlString.
Proof.
  unfold hasAttribute, matchAttribute, written.
  rewrite bool_decide_eq_true. split.
  - intros [v Hv]. apply search_Some in Hv as (pre & rest & Hs & Hr).
    apply attributeHere_Some in Hr as (post & -> & Hne & Hq).
    exists pre, v, post. by rewrite Hs.
  - intros (pre & value & post & -> & Hne & Hq). apply search_is_Some.
    exists value. apply attributeHere_Some. eauto.
Qed.

(** The value that [matchAttribute] returns is one that is written. *)
Lemma matchAttribute_written (name s value : string) :
  matchAttribute name s = Some value ->
  exists pre post,
    s = pre ++ name ++ "=" ++ Js.quoted value ++ post
    /\ value <> EmptyString.
Proof.
  intros Hv. apply search_Some in Hv as (pre & rest & Hs & Hr).
  apply attributeHere_Some in Hr as (post & -> & Hne & Hq).
  by exists pre, post.
Qed.

End Written.

(** ** The parser: when it fails *)

Section ParseFailure.

Variable metadataTag : string -> string -> result (option string).

Let parse := RetsParser.parse metadataTag.

Lemma parse_search_result (x : string) :
  RetsParser.isSearchResult x = true -> isOk (parse x) = true.
Proof.
  unfold RetsParser.isSearchResult, RetsParser.isMetadataResponse,
    RetsParser.isLoginResponse, parse, RetsParser.parse.
  intros H. rewrite !andb_true_iff in H. destruct H as [[[H1 H2] H3] H4].
  apply negb_true_iff in H1. rewrite H1 in *. simpl in H2.
  apply negb_true_iff, bool_decide_eq_false in H2.
  destruct (RetsParser.parseMetadataType (Js.trim x)) as [t|] eqn:Et.
  { exfalso. apply H2. eauto. }
  apply bool_decide_eq_true in H3, H4.
  destruct H3 as [[c n] Hc]. rewrite Hc.
  destruct (Js.matchAll _ (Js.trim x) 0%nat); [done|reflexivity].
Qed.

Lemma parse_missing_attribute (x : string) :
  RetsParser.isSearchResult x = false ->
  RetsParser.hasAttribute "ReplyCode" x = false
  \/ RetsParser.hasAttribute "ReplyText" x = false ->
  isOk (parse x) = false.
Proof.
  unfold RetsParser.isSearchResult, RetsParser.isMetadataResponse,
    RetsParser.isLoginResponse, RetsParser.hasAttribute, parse,
    RetsParser.parse.
  intros Hs Ha.
  assert (RetsParser.matchAttribute "ReplyCode" (Js.trim x) = None
          \/ RetsParser.matchAttribute "ReplyText" (Js.trim x) = None) as Hn.
  { destruct Ha as [Ha | Ha]; [left | right];
      apply bool_decide_eq_false in Ha;
      destruct (RetsParser.matchAttribute _ _); try done;
      exfalso; apply Ha; eauto. }
  clear Ha.
  destruct (Js.includes "<RETS-RESPONSE>" (Js.trim x)) eqn:El.
  - unfold RetsParser.parseLoginResponse.
    destruct Hn as [-> | ->]; [reflexivity|].
    destruct (RetsParser.matchAttribute "ReplyCode" _); reflexivity.
  - simpl in Hs.
    destruct (RetsParser.parseMetadataType (Js.trim x)) as [t|] eqn:Et.
    + unfold RetsParser.parseMetadataResponse.
      destruct (metadataTag t (Js.trim x)) as [m|e]; [|reflexivity].
      simpl. destruct Hn as [-> | ->]; [reflexivity|].
      destruct (RetsParser.matchAttribute "ReplyCode" _); reflexivity.
    + rewrite bool_decide_eq_false_2 in Hs by (intros [? ?]; done).
      simpl in Hs.
      destruct (Js.search _ (Js.trim x)) as [[c n]|] eqn:Ec.
      * rewrite bool_decide_eq_true_2 in Hs by eauto. simpl in Hs.
        apply bool_decide_eq_false in Hs.
        destruct (Js.matchAll _ (Js.trim x) 0%nat) eqn:Ed.
        -- destruct Hn as [-> | ->]; [reflexivity|].
           destruct (RetsParser.matchAttribute "ReplyCode" _); reflexivity.
        -- exfalso. apply Hs. done.
      * destruct Hn as [-> | ->]; [reflexivity|].
        destruct (RetsParser.matchAttribute "ReplyCode" _); reflexivity.
Qed.

Lemma parse_failure_not_metadata (x : string) :
  RetsParser.isMetadataResponse x = false ->
  isOk (parse x) = false ->
  parse x = Throw "Invalid RETS response format"
  /\ RetsParser.isSearchResult x = false
  /\ (RetsParser.hasAttribute "ReplyCode" x = false
      \/ RetsParser.hasAttribute "ReplyText" x = false).
Proof.
  intros Hm Hf.
  destruct (RetsParser.isSearchResult x) eqn:Es.
  { rewrite parse_search_result in Hf by done. done. }
  revert Hm Hf Es.
  unfold RetsParser.isSearchResult, RetsParser.isMetadataResponse,
    RetsParser.isLoginResponse, RetsParser.hasAttribute, parse,
    RetsParser.parse.
  destruct (Js.includes "<RETS-RESPONSE>" (Js.trim x)) eqn:El.
  - intros _. unfold RetsParser.parseLoginResponse.
    destruct (RetsParser.matchAttribute "ReplyCode" _) eqn:E1;
      destruct (RetsParser.matchAttribute "ReplyText" _) eqn:E2;
      simpl; intros Hf _; try done; repeat split; auto;
      try (left; apply bool_decide_eq_false; intros [? ?]; done);
      try (right; apply bool_decide_eq_false; intros [? ?]; done).
  - simpl. intros Hm.
    apply bool_decide_eq_false in Hm.
    destruct (RetsParser.parseMetadataType (Js.trim x)) as [t|] eqn:Et.
    { exfalso. apply Hm. eauto. }
    destruct (Js.search _ (Js.trim x)) as [[c n]|] eqn:Ec;
      [destruct (Js.matchAll _ (Js.trim x) 0%nat) eqn:Ed|];
      try (simpl; done);
      destruct (RetsParser.matchAttribute "ReplyCode" _) eqn:E1;
      destruct (RetsParser.matchAttribute "ReplyText" _) eqn:E2;
      simpl; intros Hf _; try done; repeat split; auto;
      try (left; apply bool_decide_eq_false; intros [? ?]; done);
      try (right; apply bool_decide_eq_false; intros [? ?]; done).
Qed.

End ParseFailure.

Section ParseAttributes.

Variable metadataTag : string -> string -> result (option string).

Lemma not_written (name x : string) :
  ~ RetsParser.written name x <-> RetsParser.hasAttribute name x = false.
Proof.
  rewrite <- hasAttribute_written.
  destruct (RetsParser.hasAttribute name x); split; try done.
Qed.

Lemma hasAttribute_false (name x : string) :
  RetsParser.hasAttribute name x = false
  <-> RetsParser.matchAttribute name (Js.trim x) = None.
Proof.
  unfold RetsParser.hasAttribute. rewrite bool_decide_eq_false.
  destruct (RetsParser.matchAttribute name (Js.trim x)); split; try done.
  intros H. destruct H. eauto.
Qed.

(** The attributes of a reply that is parsed: the values that
    [matchAttribute] finds, and the empty string where it finds none,
    which happens on a search result only. *)
Lemma parse_reply_attributes (x : string) (r : RetsParser.RetsResponse) :
  RetsParser.parse metadataTag x = Ok r ->
  RetsParser.ReplyCode r
  = default EmptyString (RetsParser.matchAttribute "ReplyCode" (Js.trim x))
  /\ RetsParser.ReplyText r
     = default EmptyString (RetsParser.matchAttribute "ReplyText" (Js.trim x)).
Proof.
  unfold RetsParser.parse. set (t := Js.trim x).
  destruct (Js.includes "<RETS-RESPONSE>" t).
  { unfold RetsParser.parseLoginResponse.
    destruct (RetsParser.matchAttribute "ReplyCode" t),
      (RetsParser.matchAttribute "ReplyText" t); intros [= <-]; done. }
  destruct (RetsParser.parseMetadataType t) as [metadataType|].
  { unfold RetsParser.parseMetadataResponse.
    destruct (metadataTag metadataType t) as [m|e]; cbn [rbind];
      [|discriminate].
    destruct (RetsParser.matchAttribute "ReplyCode" t),
      (RetsParser.matchAttribute "ReplyText" t), m; try discriminate.
    destruct (Js.search _ t) as [[c n]|]; [|discriminate].
    intros [= <-]. done. }
  destruct (Js.search _ t) as [[c n]|];
    [destruct (Js.matchAll _ t 0)|]; try (intros [= <-]; done);
    destruct (RetsParser.matchAttribute "ReplyCode" t),
      (RetsParser.matchAttribute "ReplyText" t); intros [= <-]; done.
Qed.

End ParseAttributes.

(** C8 (as stated, refuted).  A reply that carries a ReplyCode attribute
    and no ReplyText attribute makes [parse] fail, although one of the
    two attributes is present. *)
Lemma parse_fails_with_one_attribute_present :
  RetsParser.hasAttribute "ReplyCode" Scenario.onlyReplyCode = true
  /\ RetsParser.parse Scenario.noMetadataTag Scenario.onlyReplyCode
     = Throw "Invalid RETS response format".
Proof. split; vm_compute; reflexivity. Qed.

(** C8 (amended).  An attribute counts when it is written with a value
    that is not empty: the name, an equals sign and the value between
    double quotes.  A search result (a COLUMNS block and at least one
    DATA block, in an input that is neither a login nor a metadata
    response) never makes [parse] fail, and an attribute that is not so
    written is the empty string in the result.  Any other input makes it
    fail as soon as ReplyCode or ReplyText is not so written.  For an
    input that is not a metadata response these are the only failures,
    and the error is the malformed-response one.  In every reply that is
    parsed, an attribute that is written has a value that the input
    holds. *)
Theorem parse_fails_when_an_attribute_is_missing
  (metadataTag : string -> string -> result (option string)) (x : string) :
  let missing :=
    ~ RetsParser.written "ReplyCode" x
    \/ ~ RetsParser.written "ReplyText" x in
  let failed := isOk (RetsParser.parse metadataTag x) = false in
  let holds (name value : string) :=
    value <> EmptyString
    /\ exists pre post,
         Js.trim x = pre ++ name ++ "=" ++ Js.quoted value ++ post in
  (RetsParser.isSearchResult x = true ->
   exists r,
     RetsParser.parse metadataTag x = Ok r
     /\ (~ RetsParser.written "ReplyCode" x ->
         RetsParser.ReplyCode r = EmptyString)
     /\ (~ RetsParser.written "ReplyText" x ->
         RetsParser.ReplyText r = EmptyString))
  /\ (RetsParser.isSearchResult x = false -> missing -> failed)
  /\ (RetsParser.isMetadataResponse x = false ->
      (failed <-> RetsParser.isSearchResult x = false /\ missing)
      /\ (failed -> RetsParser.parse metadataTag x
                    = Throw "Invalid RETS response format"))
  /\ (forall r,
        RetsParser.parse metadataTag x = Ok r ->
        (RetsParser.written "ReplyCode" x ->
         holds "ReplyCode" (RetsParser.ReplyCode r))
        /\ (RetsParser.written "ReplyText" x ->
            holds "ReplyText" (RetsParser.ReplyText r))).
Proof.
  intros missing failed holds. unfold failed, missing.
  assert (~ RetsParser.written "ReplyCode" x
          \/ ~ RetsParser.written "ReplyText" x
          <-> RetsParser.hasAttribute "ReplyCode" x = false
              \/ RetsParser.hasAttribute "ReplyText" x = false) as Hmissing
      by (by rewrite !not_written).
  split; [|split; [|split]].
  - intros Hs. pose proof (parse_search_result metadataTag x Hs) as Hok.
    destruct (RetsParser.parse metadataTag x) as [r|e] eqn:Ep; [|done].
    exists r. split; [reflexivity|].
    destruct (parse_reply_attributes metadataTag x r Ep) as [-> ->].
    split; intros Hw; apply not_written, hasAttribute_false in Hw;
      by rewrite Hw.
  - intros Hs Hm. apply parse_missing_attribute; [exact Hs|].
    by apply Hmissing.
  - intros Hm. split; [split|].
    + intros Hf.
      destruct (parse_failure_not_metadata metadataTag x Hm Hf)
        as (_ & Hs & Ha).
      split; [exact Hs | by apply Hmissing].
    + intros [Hs Ha]. apply parse_missing_attribute; [exact Hs|].
      by apply Hmissing.
    + intros Hf. by apply (parse_failure_not_metadata metadataTag x).
  - intros r Ep.
    destruct (parse_reply_attributes metadataTag x r Ep) as [-> ->].
    split; intros Hw; apply hasAttribute_written in Hw;
      unfold RetsParser.hasAttribute in Hw;
      apply bool_decide_eq_true in Hw as [v Hv]; rewrite Hv; cbn;
      apply matchAttribute_written in Hv as (pre & post & Hv & Hne);
      (split; [exact Hne | by exists pre, post]).
Qed.

Lemma parse_fails_when_an_attribute_is_missing_witness :
  isOk (RetsParser.parse Scenario.noMetadataTag Scenario.onlyReplyCode)
  = false
  /\ exists r,
       RetsParser.parse Scenario.noMetadataTag Scenario.bareSearchResult
       = Ok r
       /\ RetsParser.ReplyCode r = EmptyString
       /\ RetsParser.ReplyText r = EmptyString.
Proof.
  split.
  - destruct (parse_fails_when_an_attribute_is_missing
                Scenario.noMetadataTag Scenario.onlyReplyCode)
      as (_ & H & _).
    apply H; [vm_compute; reflexivity|].
    right. apply not_written. vm_compute. reflexivity.
  - destruct (parse_fails_when_an_attribute_is_missing
                Scenario.noMetadataTag Scenario.bareSearchResult)
      as (H & _).
    destruct H as (r & Hr & Hc & Ht); [vm_compute; reflexivity|].
    exists r. split; [exact Hr|]. split.
    + apply Hc. apply not_written. vm_compute. reflexivity.
    + apply Ht. apply not_written. vm_compute. reflexivity.
Defined.

(** An attribute that is written with an empty value does not count:
    the reply below carries both attributes and makes [parse] fail. *)
Example parse_fails_on_an_empty_attribute :
  RetsParser.hasAttribute "ReplyText" Scenario.emptyReplyText = false
  /\ RetsParser.parse Scenario.noMetadataTag Scenario.emptyReplyText
     = Throw "Invalid RETS response format".
Proof. split; vm_compute; reflexivity. Qed.

(** ** The lockout file *)

Lemma lockoutOfFile_lockoutFileOf (lockout : gset string) :
  Service.lockoutOfFile (Some (Service.lockoutFileOf lockout)) = lockout.
Proof.
  unfold Service.lockoutOfFile, Service.lockoutFileOf.
  rewrite parse_stringify. apply list_to_set_elements_L.
Qed.

(** C10.  When the write succeeds, [loadLockoutSet] after
    [saveLockoutSet lockout] returns a set equal to [lockout]; the file
    then holds the JSON text of the set. *)
Theorem loadLockoutSet_after_saveLockoutSet (env : Service.Env)
  (p : Service.PairId) (lockout : gset string) (w : Service.World) :
  Service.io_writeFile env (List.length (Service.trace w))
    (Service.lockoutFileOf lockout) = Ok tt ->
  Service.bind (Service.saveLockoutSet env p lockout)
    (fun _ => Service.loadLockoutSet) w
  = (Service.Done lockout,
     {| Service.lockoutFile := Some (Service.lockoutFileOf lockout);
        Service.trace :=
          (Service.trace w
           ++ [{| Service.pair := p;
                  Service.action :=
                    Service.WriteLockoutFile
                      (Service.lockoutFileOf lockout) |}])%list |}).
Proof.
  intros Hw.
  unfold Service.bind, Service.saveLockoutSet, Service.perform.
  rewrite Hw. cbn.
  unfold Service.loadLockoutSet. cbn.
  change (match Json.parse (Service.lockoutFileOf lockout) with
          | Some arr => list_to_set arr
          | None => ∅
          end)
    with (Service.lockoutOfFile (Some (Service.lockoutFileOf lockout))).
  rewrite lockoutOfFile_lockoutFileOf. reflexivity.
Qed.

Lemma loadLockoutSet_after_saveLockoutSet_witness :
  fst (Service.bind
         (Service.saveLockoutSet (Scenario.quietEnv [] "")
            Scenario.propertyPair Scenario.twoLockouts)
         (fun _ => Service.loadLockoutSet) Scenario.emptyWorld)
  = Service.Done Scenario.twoLockouts.
Proof.
  rewrite (loadLockoutSet_after_saveLockoutSet (Scenario.quietEnv [] "")
             Scenario.propertyPair Scenario.twoLockouts Scenario.emptyWorld);
    reflexivity.
Defined.

(** ** The photo fetchers *)

(** The sibling fetcher does treat a short body as "no photos". *)
Lemma getPhoto_short_body (session headers : gmap string string)
  (body type id : string) :
  Js.truthyProp (session !! "GetObject") = true ->
  (String.length body < 100)%nat ->
  Photos.getPhoto session (Ok (body, headers)) type id = Ok [].
Proof.
  intros Hs Hl. unfold Photos.getPhoto. rewrite Hs. simpl.
  apply Nat.ltb_lt in Hl. rewrite Hl. reflexivity.
Qed.

(** Without a multipart boundary the whole body is one photo, however
    short it is. *)
Lemma getPropertyPhotos_no_boundary (session headers : gmap string string)
  (body listingId : string) :
  Js.truthyProp (session !! "GetObject") = true ->
  headers !! "content-type" = None ->
  Photos.getPropertyPhotos session (Ok (body, headers)) listingId
  = Ok [{| Photos.objectId := listingId; Photos.imageData := body;
           Photos.metadata := ∅ |}].
Proof.
  intros Hs Hh. unfold Photos.getPropertyPhotos. rewrite Hs. simpl.
  rewrite Hh. reflexivity.
Qed.

(** C9 (the code departs from the claim).  An empty GetObject body, with
    a content type that names no boundary, yields one photo instead of
    none. *)
Theorem getPropertyPhotos_empty_body_one_photo :
  Photos.getPropertyPhotos Scenario.session Scenario.emptyReply "230475"
  = Ok [{| Photos.objectId := "230475"; Photos.imageData := EmptyString;
           Photos.metadata := ∅ |}].
Proof. vm_compute. reflexivity. Qed.

(** A multipart body of 44 bytes yields its one part as well. *)
Example getPropertyPhotos_small_multipart :
  String.length Scenario.smallMultipartBody = 44%nat
  /\ (fun r => match r with
               | Ok l => Some (Photos.imageData <$> l)
               | Throw _ => None
               end)
       (Photos.getPropertyPhotos Scenario.session
          Scenario.smallMultipartReply "230475")
     = Some ["JPEG"].
Proof. split; vm_compute; reflexivity. Qed.

(** ** Upload retries *)

Lemma jitterOf_range (random : Q) :
  (0 <= random /\ random < 1)%Q ->
  (0 <= SyncPhotos.jitterOf random /\ SyncPhotos.jitterOf random < 1 # 10)%Q.
Proof. unfold SyncPhotos.jitterOf. intros [H0 H1]. split; lra. Qed.

(** C7.  [uploadFile], with its default of five retries: at most five
    attempts are made; every sleep follows a failed attempt [n < 5] and
    lasts min(1000 * 2^(n-1) * (1 + jitter), 30000) milliseconds with
    jitter in [0, 0.1); such a failed attempt is always followed by a
    sleep; and when all five attempts fail the error of the fifth is the
    result, with no further attempt. *)
Theorem uploadFile_retry_schedule (env : SyncPhotos.Env) (size : Z) :
  SyncPhotos.io_stat env = Ok size ->
  (forall n, (0 <= SyncPhotos.io_random env n
              /\ SyncPhotos.io_random env n < 1)%Q) ->
  let '(r, evs) := SyncPhotos.uploadFile env SyncPhotos.defaultRetries in
  (List.length (List.filter SyncPhotos.isPut evs) <= 5)%nat
  /\ (forall i d,
        evs !! S i = Some (SyncPhotos.Sleep d) ->
        exists n jitter,
          evs !! i = Some (SyncPhotos.Put n) /\ (n < 5)%nat
          /\ isOk (SyncPhotos.io_attempt env n) = false
          /\ (0 <= jitter /\ jitter < 1 # 10)%Q
          /\ d = Qmin (1000 * inject_Z (2 ^ Z.of_nat (n - 1)) * (1 + jitter))
                   30000)
  /\ (forall i n,
        evs !! i = Some (SyncPhotos.Put n) -> (n < 5)%nat ->
        isOk (SyncPhotos.io_attempt env n) = false ->
        exists d, evs !! S i = Some (SyncPhotos.Sleep d))
  /\ ((forall n, (1 <= n <= 5)%nat ->
                 isOk (SyncPhotos.io_attempt env n) = false) ->
      r = SyncPhotos.io_attempt env 5
      /\ List.filter SyncPhotos.isPut evs
         = SyncPhotos.Put <$> [1; 2; 3; 4; 5]%nat
      /\ last evs = Some (SyncPhotos.Put 5)).
Proof.
  intros Hstat Hrand.
  unfold SyncPhotos.uploadFile, SyncPhotos.defaultRetries. rewrite Hstat.
  assert (forall n, exists jitter,
             jitter = SyncPhotos.jitterOf (SyncPhotos.io_random env n)
             /\ (0 <= jitter /\ jitter < 1 # 10)%Q) as Hj.
  { intros n. eexists. split; [reflexivity|]. apply jitterOf_range, Hrand. }
  cbn [SyncPhotos.attemptLoop Nat.eqb].
  destruct (SyncPhotos.io_attempt env 1) as [[]|e1] eqn:E1;
    [|destruct (SyncPhotos.io_attempt env 2) as [[]|e2] eqn:E2;
      [|destruct (SyncPhotos.io_attempt env 3) as [[]|e3] eqn:E3;
        [|destruct (SyncPhotos.io_attempt env 4) as [[]|e4] eqn:E4;
          [|destruct (SyncPhotos.io_attempt env 5) as [[]|e5] eqn:E5]]]].
  all: cbn [List.filter SyncPhotos.isPut List.length].
  all: split; [lia|].
  all: split;
    [intros i d Hi;
     do 10 (try (destruct i as [|i])); cbn [lookup list_lookup] in Hi;
     try discriminate Hi;
     match goal with
     | Hi : Some (SyncPhotos.Sleep (SyncPhotos.delayOf ?k _)) = Some _ |- _ =>
         injection Hi as <-;
         destruct (Hj k) as (j & -> & Hr);
         exists k, (SyncPhotos.jitterOf (SyncPhotos.io_random env k));
         split; [reflexivity|];
         split; [lia|];
         split; [match goal with
                 | H : SyncPhotos.io_attempt _ k = _ |- _ =>
                     rewrite H; reflexivity
                 end|];
         split; [exact Hr | reflexivity]
     end|].
  all: split;
    [intros i n Hi Hn Hf;
     do 10 (try (destruct i as [|i])); cbn [lookup list_lookup] in Hi;
     try discriminate Hi;
     injection Hi as <-;
     first [ lia
           | eexists; reflexivity
           | match goal with
             | H : SyncPhotos.io_attempt _ ?k = Ok _ |- _ =>
                 rewrite H in Hf; discriminate
             end ]|].
  all: intros Hall.
  all: try (specialize (Hall 1%nat ltac:(lia)); rewrite E1 in Hall;
            discriminate).
  all: try (specialize (Hall 2%nat ltac:(lia)); rewrite E2 in Hall;
            discriminate).
  all: try (specialize (Hall 3%nat ltac:(lia)); rewrite E3 in Hall;
            discriminate).
  all: try (specialize (Hall 4%nat ltac:(lia)); rewrite E4 in Hall;
            discriminate).
  all: try (specialize (Hall 5%nat ltac:(lia)); rewrite E5 in Hall;
            discriminate).
  repeat split; reflexivity.
Qed.

Lemma uploadFile_retry_schedule_witness :
  fst (SyncPhotos.uploadFile Scenario.failingStore SyncPhotos.defaultRetries)
  = Throw "503 Service Unavailable".
Proof.
  pose proof (uploadFile_retry_schedule Scenario.failingStore 1024 eq_refl)
    as H.
  destruct (SyncPhotos.uploadFile Scenario.failingStore
              SyncPhotos.defaultRetries) as [r evs].
  destruct H as (_ & _ & _ & H).
  - intros n. simpl. split; [apply Qle_refl | reflexivity].
  - destruct H as [-> _]; [intros; reflexivity | reflexivity].
Defined.

(** ** The sync engine: what a run appends to the trace *)

Section Emits.

Import Service.

Context {A : Type}.

Lemma emitsFrom_weaken (w : World) (P P' : nat -> Event -> Prop)
  (Q Q' : A -> Prop) (m : M A) :
  (forall n e, P n e -> P' n e) -> (forall a, Q a -> Q' a) ->
  emitsFrom w P Q m -> emitsFrom w P' Q' m.
Proof.
  intros HP HQ (evs & Ht & He & Ha). exists evs.
  split; [exact Ht|]. split; [intros j e Hj; apply HP, He, Hj|].
  intros a Hm. apply HQ, Ha, Hm.
Qed.

Lemma emits_weaken (P P' : nat -> Event -> Prop) (Q Q' : A -> Prop)
  (m : M A) :
  (forall n e, P n e -> P' n e) -> (forall a, Q a -> Q' a) ->
  emits P Q m -> emits P' Q' m.
Proof. intros HP HQ H w. eapply emitsFrom_weaken; eauto. Qed.

Lemma emitsFrom_ret (w : World) (P : nat -> Event -> Prop) (Q : A -> Prop)
  (a : A) :
  Q a -> emitsFrom w P Q (ret a).
Proof.
  intros Ha. exists []. cbn. rewrite app_nil_r.
  repeat split; [intros j e; by rewrite lookup_nil | congruence].
Qed.

Lemma emitsFrom_raise (w : World) (P : nat -> Event -> Prop) (Q : A -> Prop)
  (message : string) :
  emitsFrom w P Q (raise message).
Proof.
  exists []. cbn. rewrite app_nil_r.
  repeat split; [intros j e; by rewrite lookup_nil | discriminate].
Qed.

Lemma emitsFrom_outOfFuel (w : World) (P : nat -> Event -> Prop)
  (Q : A -> Prop) :
  emitsFrom w P Q (fun w => (OutOfFuel, w)).
Proof.
  exists []. cbn. rewrite app_nil_r.
  repeat split; [intros j e; by rewrite lookup_nil | discriminate].
Qed.

Lemma emitsFrom_lift (w : World) (P : nat -> Event -> Prop) (Q : A -> Prop)
  (r : result A) :
  (forall a, r = Ok a -> Q a) -> emitsFrom w P Q (lift r).
Proof.
  intros H. destruct r as [a|e]; [apply emitsFrom_ret; auto|].
  apply emitsFrom_raise.
Qed.

Lemma emitsFrom_perform (w : World) (P : nat -> Event -> Prop)
  (Q : A -> Prop) (p : PairId) (a : Action) (answer : nat -> result A) :
  P (List.length (trace w)) {| pair := p; action := a |} ->
  (forall x, answer (List.length (trace w)) = Ok x -> Q x) ->
  emitsFrom w P Q (perform p a answer).
Proof.
  intros HP HQ. exists [{| pair := p; action := a |}].
  unfold perform. destruct (answer (List.length (trace w))) as [x|e] eqn:E;
    cbn; (split; [reflexivity|]); split.
  - intros [|j] e He; [|cbn in He; discriminate].
    injection He as <-. by rewrite Nat.add_0_r.
  - intros x' [= <-]. auto.
  - intros [|j] e' He; [|cbn in He; discriminate].
    injection He as <-. by rewrite Nat.add_0_r.
  - discriminate.
Qed.

Lemma emitsFrom_bind {B : Type} (w : World) (P : nat -> Event -> Prop)
  (Q1 : A -> Prop) (Q : B -> Prop) (m : M A) (k : A -> M B) :
  emitsFrom w P Q1 m ->
  (forall a w', Q1 a -> emitsFrom w' P Q (k a)) ->
  emitsFrom w P Q (bind m k).
Proof.
  intros (evs & Ht & He & Ha) Hk. unfold emitsFrom, bind.
  destruct (m w) as [[a|e|] w1] eqn:Em; cbn in Ht, Ha.
  - destruct (Hk a w1 (Ha a eq_refl)) as (evs' & Ht' & He' & Ha').
    exists (evs ++ evs')%list. rewrite Ht', Ht, <- app_assoc.
    split; [reflexivity|]. split; [|exact Ha'].
    intros j e Hj. apply lookup_app_Some in Hj as [Hj | [Hlen Hj]].
    + auto.
    + apply He' in Hj. rewrite Ht, length_app in Hj.
      replace (List.length (trace w) + j)%nat
        with (List.length (trace w) + List.length evs
              + (j - List.length evs))%nat by lia.
      exact Hj.
  - exists evs. cbn. repeat split; [done | done | discriminate].
  - exists evs. cbn. repeat split; [done | done | discriminate].
Qed.

Lemma emitsFrom_catch (w : World) (P : nat -> Event -> Prop) (Q : A -> Prop)
  (m : M A) (handler : string -> M A) :
  emitsFrom w P Q m ->
  (forall e w', emitsFrom w' P Q (handler e)) ->
  emitsFrom w P Q (catch m handler).
Proof.
  intros (evs & Ht & He & Ha) Hh. unfold emitsFrom, catch.
  destruct (m w) as [[a|e|] w1] eqn:Em; cbn in Ht, Ha.
  - exists evs. cbn. repeat split; [done | done | exact Ha].
  - destruct (Hh e w1) as (evs' & Ht' & He' & Ha').
    exists (evs ++ evs')%list. rewrite Ht', Ht, <- app_assoc.
    split; [reflexivity|]. split; [|exact Ha'].
    intros j e0 Hj. apply lookup_app_Some in Hj as [Hj | [Hlen Hj]].
    + auto.
    + apply He' in Hj. rewrite Ht, length_app in Hj.
      replace (List.length (trace w) + j)%nat
        with (List.length (trace w) + List.length evs
              + (j - List.length evs))%nat by lia.
      exact Hj.
  - exists evs. cbn. repeat split; [done | done | discriminate].
Qed.

End Emits.

Section EngineTrace.

Import Service.

Variable env : Env.

Lemma emitsFrom_forEach {X S : Type} (P : nat -> Event -> Prop)
  (I : S -> Prop) (body : X -> S -> M S) (l : list X) :
  (forall x s w, I s -> emitsFrom w P I (body x s)) ->
  forall s w, I s -> emitsFrom w P I (forEach l body s).
Proof.
  intros Hbody. induction l as [|x l IH]; intros s w Hs; cbn [forEach].
  - by apply emitsFrom_ret.
  - eapply emitsFrom_bind; [by apply Hbody|]. intros s' w' Hs'. by apply IH.
Qed.

Lemma eventOf_intro (p : PairId) (G : nat -> Prop) (n : nat) (a : Action) :
  (forall table, a <> TruncateTable table) ->
  eventOf p G n {| pair := p; action := a |}.
Proof. intros Ha. split; [reflexivity|]. intros table E. by destruct (Ha table). Qed.

Lemma emitsFrom_saveLockoutSet (w : World) (p : PairId) (G : nat -> Prop)
  (lockout : gset string) :
  emitsFrom w (eventOf p G) (fun _ => True) (saveLockoutSet env p lockout).
Proof.
  pose proof (emitsFrom_perform w (eventOf p G) (fun _ : unit => True) p
                (WriteLockoutFile (lockoutFileOf lockout))
                (fun n => io_writeFile env n (lockoutFileOf lockout)))
    as (evs & Ht & He & _).
  { by apply eventOf_intro. }
  { done. }
  exists evs. unfold saveLockoutSet.
  destruct (perform p _ _ w) as [[[]|e|] w'] eqn:E; cbn in *; done.
Qed.

Lemma emitsFrom_upsertCallback (w : World) (p : PairId) (G : nat -> Prop)
  (lockoutKey table : string) (tableMetadata records : list (gmap string string))
  (parsed : RetsParser.RetsResponse) (l : Locals) (I : gset string -> Prop) :
  I (lockout l) -> I ({[lockoutKey]} ∪ lockout l) ->
  emitsFrom w (eventOf p G) (fun l' => I (lockout l'))
    (upsertCallback env p lockoutKey table tableMetadata records parsed l).
Proof.
  intros HI HI'.
  assert (forall w, emitsFrom w (eventOf p G) (fun l' : Locals => I (lockout l'))
            (if unauthorized l then ret l
             else forEach records
                    (fun rec l0 =>
                       catch
                         (bind
                            (perform p
                               (ReplaceInto table
                                  (sanitizeRecord rec tableMetadata))
                               (fun n => io_query env n
                                  (ReplaceInto table
                                     (sanitizeRecord rec tableMetadata))))
                            (fun _ => ret {| lockout := lockout l0;
                                             unauthorized := unauthorized l0;
                                             upserted := S (upserted l0) |}))
                         (fun _ => ret l0)) l)) as Hall.
  { intros w0. destruct (unauthorized l); [by apply emitsFrom_ret|].
    apply (emitsFrom_forEach _ (fun l' : Locals => I (lockout l'))); [|done].
    intros rec l0 w1 Hl0. apply emitsFrom_catch.
    - eapply emitsFrom_bind.
      + apply emitsFrom_perform with (Q := fun _ => True);
          [by apply eventOf_intro | done].
      + intros _ w2 _. by apply emitsFrom_ret.
    - intros e w2. by apply emitsFrom_ret. }
  unfold upsertCallback. destruct records as [|r records]; [|apply Hall].
  destruct (RetsParser.isUnauthorizedQuery parsed); [|apply Hall].
  eapply emitsFrom_bind; [apply emitsFrom_saveLockoutSet|].
  intros _ w1 _. eapply emitsFrom_bind.
  - apply emitsFrom_perform with (Q := fun _ => True);
      [by apply eventOf_intro | done].
  - intros _ w2 _. by apply emitsFrom_ret.
Qed.

Lemma emitsFrom_fetchLoop {L : Type} (p : PairId)
  (P : nat -> Event -> Prop) (I : L -> Prop)
  (cb : list (gmap string string) -> RetsParser.RetsResponse -> L -> M L)
  (searchType class updateField_ : string) (lastValue : option string) :
  (forall n request, P n {| pair := p; action := Search request |}) ->
  (forall records parsed l w, I l -> emitsFrom w P I (cb records parsed l)) ->
  forall fuel offset l w, I l ->
    emitsFrom w P I
      (fetchLoop env L cb p searchType class updateField_ lastValue
         fuel offset l).
Proof.
  intros Hsearch Hcb. induction fuel as [|fuel IH]; intros offset l w Hl;
    cbn [fetchLoop].
  - apply emitsFrom_outOfFuel.
  - eapply emitsFrom_bind.
    { apply emitsFrom_perform with (Q := fun _ => True); [apply Hsearch | done]. }
    intros response w1 _. eapply emitsFrom_bind.
    { apply emitsFrom_lift with (Q := fun _ => True). done. }
    intros parsed w2 _. eapply emitsFrom_bind; [by apply Hcb|].
    intros l' w3 Hl'. cbv zeta.
    destruct (Z.of_nat _ <? batchSize); [by apply emitsFrom_ret | by apply IH].
Qed.

Lemma emitsFrom_fetchRetsUpdates {L : Type} (G : nat -> Prop) (I : L -> Prop)
  (cb : list (gmap string string) -> RetsParser.RetsResponse -> L -> M L)
  (fuel : nat) (session : gmap string string) (resource_ updateField_ : string)
  (lastValue className : option string) (l : L) (w : World) :
  let p := {| pairResource := resource_; pairClass := className;
              pairUpdateField := updateField_ |} in
  (forall records parsed l w, I l ->
     emitsFrom w (eventOf p G) I (cb records parsed l)) ->
  I l ->
  emitsFrom w (eventOf p G) I
    (fetchRetsUpdates env fuel session resource_ updateField_ lastValue cb
       className l).
Proof.
  intros p Hcb Hl. unfold fetchRetsUpdates. fold p.
  destruct (negb (Js.truthyProp (session !! "Search")));
    [apply emitsFrom_raise|].
  match goal with
  | |- context [let '(searchType, class) := ?x in _] => destruct x as [st cl]
  end.
  eapply emitsFrom_bind.
  { apply emitsFrom_catch with (Q := fun _ => True).
    - apply emitsFrom_perform; [by apply eventOf_intro | done].
    - intros e w'. by apply emitsFrom_ret. }
  intros classList w1 _. apply emitsFrom_fetchLoop; [|done|done].
  intros n request. by apply eventOf_intro.
Qed.

Variable fuel : nat.
Variable session : gmap string string.
Variable lastFullSync : option Z.

Lemma syncPair_locked (entry : Entry) (classList : list (option string))
  (className : option string) (lockout0 : gset string) :
  lockoutKeyOf (resource entry) className ∈ lockout0 ->
  syncPair env fuel session lastFullSync entry classList className lockout0
  = ret lockout0.
Proof.
  intros H. unfold syncPair. rewrite bool_decide_eq_true_2 by done.
  reflexivity.
Qed.

Lemma emitsFrom_syncPair (entry : Entry) (classList : list (option string))
  (className : option string) (lockout0 : gset string) (w : World) :
  let p := {| pairResource := resource entry; pairClass := className;
              pairUpdateField := updateField entry |} in
  lockoutKeyOf (resource entry) className ∉ lockout0 ->
  emitsFrom w (eventOf p (fullSyncDue env lastFullSync (updateField entry)))
    (fun lockout1 => lockout0 ⊆ lockout1)
    (syncPair env fuel session lastFullSync entry classList className
       lockout0).
Proof.
  intros p Hkey. unfold syncPair. fold p.
  rewrite bool_decide_eq_false_2 by done.
  set (P := eventOf p (fullSyncDue env lastFullSync (updateField entry))).
  assert (forall (a : Action) (B : Type) (answer : nat -> result B) w0,
             (forall table, a <> TruncateTable table) ->
             emitsFrom w0 P (fun _ => True) (perform p a answer)) as Hperform.
  { intros a B answer w0 Ha.
    apply emitsFrom_perform; [by apply eventOf_intro | done]. }
  assert (forall tableMetadata lastValue w0,
             emitsFrom w0 P (fun lockout1 => lockout0 ⊆ lockout1)
               (bind
                  (fetchRetsUpdates env fuel session (resource entry)
                     (updateField entry) lastValue
                     (upsertCallback env p
                        (lockoutKeyOf (resource entry) className)
                        (tableOf (resource entry) classList className)
                        tableMetadata)
                     className
                     {| lockout := lockout0; unauthorized := false;
                        upserted := 0 |})
                  (fun l => ret (lockout l)))) as Hfetch.
  { intros tableMetadata lastValue w0. eapply emitsFrom_bind.
    - apply (emitsFrom_fetchRetsUpdates
               (fullSyncDue env lastFullSync (updateField entry))
               (fun l : Locals => lockout0 ⊆ lockout l)); [|done].
      intros records parsed l w1 Hl.
      apply (emitsFrom_upsertCallback w1 p _ _ _ _ _ _ l
               (fun s => lockout0 ⊆ s)); set_solver.
    - intros l w1 Hl. by apply emitsFrom_ret. }
  assert (forall w0,
             emitsFrom w0 P (fun _ => True)
               (bind
                  (perform p
                     (GetTableMetadata (resource entry)
                        (if bool_decide (resource entry = "Deleted")
                         then Js.template className
                         else match className with
                              | Some c => c
                              | None => resource entry
                              end))
                     (fun n => io_getTableMetadata env n (resource entry)
                        (if bool_decide (resource entry = "Deleted")
                         then Js.template className
                         else match className with
                              | Some c => c
                              | None => resource entry
                              end)))
                  (fun tableMetadata =>
                     bind
                       (if negb (bool_decide (resource entry = "Deleted"))
                           && Js.truthyProp className
                           && negb (bool_decide
                                      (className = Some (resource entry)))
                        then bind
                               (perform p (GetClasses (resource entry))
                                  (fun n => io_getClasses env n
                                              (resource entry)))
                               (fun _ => ret tt)
                        else ret tt)
                       (fun _ => ret tableMetadata)))) as Hmeta.
  { intros w0. eapply emitsFrom_bind; [by apply Hperform|].
    intros tableMetadata w1 _. eapply emitsFrom_bind.
    - instantiate (1 := fun _ => True).
      destruct (_ && _ && _); [|by apply emitsFrom_ret].
      eapply emitsFrom_bind; [by apply Hperform|].
      intros _ w2 _. by apply emitsFrom_ret.
    - intros _ w2 _. by apply emitsFrom_ret. }
  cbv zeta.
  eapply emitsFrom_bind; [by apply Hperform|].
  intros exists_ w1 _. eapply emitsFrom_bind.
  { instantiate (1 := fun _ => True). destruct (negb exists_); [|apply Hmeta].
    eapply emitsFrom_bind; [apply Hmeta|].
    intros tableMetadata w2 _. eapply emitsFrom_bind; [by apply Hperform|].
    intros _ w3 _. by apply emitsFrom_ret. }
  intros tableMetadata w2 _.
  destruct (bool_decide (updateField entry = "N/A")) eqn:Eu; cbn [negb].
  - apply bool_decide_eq_true in Eu.
    unfold emitsFrom at 1.
    destruct (shouldRunFullSync lastFullSync
                (io_now env (List.length (trace w2)))) eqn:Eg; cbn [negb].
    + eapply emitsFrom_bind; [|intros _ w3 _; apply Hfetch].
      apply emitsFrom_perform with (Q := fun _ => True); [|done].
      split; [reflexivity|]. intros table _. by split.
    + by apply emitsFrom_ret.
  - eapply emitsFrom_bind; [by apply Hperform|].
    intros lastValue w3 _. apply Hfetch.
Qed.

Lemma emitsFrom_syncEntries (locked : gset string) (updateFields : list Entry)
  (lockout0 : gset string) (w : World) :
  locked ⊆ lockout0 ->
  emitsFrom w (cycleEvent env lastFullSync locked) (fun lockout1 => locked ⊆ lockout1)
    (syncEntries env fuel session lastFullSync updateFields lockout0).
Proof.
  intros Hsub. unfold syncEntries.
  apply (emitsFrom_forEach (cycleEvent env lastFullSync locked) (fun s => locked ⊆ s));
    [|done].
  intros entry lockout1 w1 H1.
  apply (emitsFrom_forEach (cycleEvent env lastFullSync locked) (fun s => locked ⊆ s));
    [|done].
  intros className lockout2 w2 H2.
  destruct (decide (lockoutKeyOf (resource entry) className ∈ lockout2))
    as [Hin | Hin].
  - rewrite syncPair_locked by done. by apply emitsFrom_ret.
  - eapply emitsFrom_weaken; [| |by apply emitsFrom_syncPair].
    + intros n e [Hp Ht]. split.
      * unfold keyOfEvent. rewrite Hp. cbn. set_solver.
      * intros table Ha. rewrite Hp. cbn. eauto.
    + cbn. set_solver.
Qed.

End EngineTrace.

(** A callback that only appends to the trace makes the loop only
    append to it. *)
Lemma fetchLoop_prefix (env : Service.Env) {L : Type}
  (cb : list (gmap string string) -> RetsParser.RetsResponse -> L
        -> Service.M L)
  (p : Service.PairId) (searchType class updateField_ : string)
  (lastValue : option string) (fuel : nat) (offset : Z) (l : L)
  (w : Service.World) :
  (forall records parsed l w,
     Service.trace w `prefix_of` Service.trace (snd (cb records parsed l w))) ->
  Service.trace w
  `prefix_of` Service.trace
                (snd (Service.fetchLoop env L cb p searchType class
                        updateField_ lastValue fuel offset l w)).
Proof.
  intros Hcb.
  destruct (emitsFrom_fetchLoop env p (fun _ _ => True) (fun _ => True) cb
              searchType class updateField_ lastValue) with
    (fuel := fuel) (offset := offset) (l := l) (w := w)
    as (evs & Ht & _); try done.
  - intros records parsed l0 w0 _. destruct (Hcb records parsed l0 w0) as [k Hk].
    exists k. done.
  - by exists evs.
Qed.

(** What a whole cycle appends to the trace. *)
Lemma syncData_trace (env : Service.Env) (fuel : nat)
  (st : Service.ServiceState) :
  exists evs,
    Service.trace (Service.world (snd (Service.syncData env fuel st)))
    = (Service.trace (Service.world st) ++ evs)%list
    /\ forall j e,
         evs !! j = Some e ->
         Service.cycleEvent env (Service.lastFullSync st)
           (Service.lockoutOfFile (Service.lockoutFile (Service.world st)))
           (List.length (Service.trace (Service.world st)) + j)%nat e.
Proof.
  unfold Service.syncData.
  set (cycle := Service.bind Service.loadLockoutSet _).
  assert (Service.emitsFrom (Service.world st)
            (Service.cycleEvent env (Service.lastFullSync st)
               (Service.lockoutOfFile
                  (Service.lockoutFile (Service.world st))))
            (fun _ : unit => True) cycle) as (evs & Ht & He & _).
  { unfold cycle, Service.bind at 1, Service.loadLockoutSet.
    eapply emitsFrom_bind.
    { apply emitsFrom_lift with (Q := fun _ => True). done. }
    intros session w1 _. eapply emitsFrom_bind.
    { apply emitsFrom_lift with (Q := fun _ => True). done. }
    intros updateFields w2 _. eapply emitsFrom_bind.
    { by apply emitsFrom_syncEntries. }
    intros lockout1 w3 _. by apply emitsFrom_ret. }
  exists evs. split; [|exact He].
  destruct (cycle (Service.world st)) as [[[]|e|] w']; exact Ht.
Qed.

(** C2.  In a cycle, every call that the engine makes (table reads and
    writes, and the requests that feed them) is made on behalf of a pair
    that was not in the lockout set when the cycle started: a pair that
    was in the set gets no call at all. *)
Theorem locked_pairs_are_skipped (env : Service.Env) (fuel : nat)
  (st : Service.ServiceState) :
  let locked :=
    Service.lockoutOfFile (Service.lockoutFile (Service.world st)) in
  exists evs,
    Service.trace (Service.world (snd (Service.syncData env fuel st)))
    = (Service.trace (Service.world st) ++ evs)%list
    /\ forall resource_ className,
         Service.lockoutKeyOf resource_ className ∈ locked ->
         forall e, e ∈ evs ->
           ~ (Service.pairResource (Service.pair e) = resource_
              /\ Service.pairClass (Service.pair e) = className).
Proof.
  intros locked.
  destruct (syncData_trace env fuel st) as (evs & Ht & He).
  exists evs. split; [exact Ht|].
  intros resource_ className Hin e Hev [Hr Hc].
  apply list_elem_of_lookup in Hev as [j Hj].
  destruct (He j e Hj) as [Hkey _]. apply Hkey.
  unfold Service.keyOfEvent. by rewrite Hr, Hc.
Qed.

Lemma locked_pairs_are_skipped_witness :
  Forall
    (fun e => ~ (Service.pairResource (Service.pair e) = "Property"
                 /\ Service.pairClass (Service.pair e) = Some "CI_3"))
    (Service.trace
       (Service.world
          (snd (Service.syncData
                  (Scenario.quietEnv Scenario.twoClassCatalog
                     (Scenario.pageReply 1))
                  3 Scenario.lockedState)))).
Proof.
  destruct (locked_pairs_are_skipped
              (Scenario.quietEnv Scenario.twoClassCatalog
                 (Scenario.pageReply 1))
              3 Scenario.lockedState) as (evs & Ht & H).
  rewrite Ht. apply Forall_forall. intros e He.
  apply (H "Property" (Some "CI_3")).
  - apply (bool_decide_unpack _). vm_compute. exact I.
  - exact He.
Defined.

(** C4.  A cycle truncates a table only on behalf of a catalog entry
    whose update field is N/A, and only when there is no full-sync
    checkpoint yet or at least three hours (in milliseconds) lie between
    the checkpoint and the clock reading taken for that truncation. *)
Theorem truncate_only_when_full_sync_is_due (env : Service.Env) (fuel : nat)
  (st : Service.ServiceState) :
  exists evs,
    Service.trace (Service.world (snd (Service.syncData env fuel st)))
    = (Service.trace (Service.world st) ++ evs)%list
    /\ forall j e table,
         evs !! j = Some e ->
         Service.action e = Service.TruncateTable table ->
         Service.pairUpdateField (Service.pair e) = "N/A"
         /\ (Service.lastFullSync st = None
             \/ exists last,
                  Service.lastFullSync st = Some last
                  /\ 3 * (1000 * 60 * 60)
                     <= Service.io_now env
                          (List.length (Service.trace (Service.world st)) + j)
                        - last).
Proof.
  destruct (syncData_trace env fuel st) as (evs & Ht & He).
  exists evs. split; [exact Ht|].
  intros j e table Hj Ha.
  destruct (He j e Hj) as [_ Hg]. destruct (Hg table Ha) as [Hu Hs].
  split; [exact Hu|].
  unfold Service.shouldRunFullSync in Hs.
  destruct (Service.lastFullSync st) as [last|]; [right | by left].
  exists last. split; [reflexivity|]. by apply Z.leb_le.
Qed.

Lemma truncate_only_when_full_sync_is_due_witness :
  exists e,
    Service.trace
      (Service.world
         (snd (Service.syncData
                 (Scenario.quietEnv Scenario.fullSyncCatalog
                    (Scenario.pageReply 1))
                 3 Scenario.initialState))) !! 2%nat = Some e
    /\ Service.action e = Service.TruncateTable "Lookup"
    /\ Service.pairUpdateField (Service.pair e) = "N/A".
Proof.
  destruct (truncate_only_when_full_sync_is_due
              (Scenario.quietEnv Scenario.fullSyncCatalog
                 (Scenario.pageReply 1))
              3 Scenario.initialState) as (evs & Ht & H).
  rewrite Ht. cbn [Scenario.initialState Service.world Scenario.emptyWorld
                     Service.trace app].
  assert (evs !! 2%nat
          = Some {| Service.pair :=
                      {| Service.pairResource := "Lookup";
                         Service.pairClass := None;
                         Service.pairUpdateField := "N/A" |};
                    Service.action := Service.TruncateTable "Lookup" |})
    as Hev.
  { cbn in Ht. rewrite <- Ht. vm_compute. reflexivity. }
  eexists. split; [exact Hev|]. split; [reflexivity|].
  apply (H 2%nat _ "Lookup" Hev eq_refl).
Defined.

(** The full-sync gate across two cycles: the first cycle truncates and
    sets the checkpoint; the next one, a few seconds later on the clock
    of the environment, skips the table. *)
Example full_sync_gate_two_cycles :
  let env := Scenario.quietEnv Scenario.fullSyncCatalog
               (Scenario.pageReply 1) in
  let st1 := snd (Service.syncData env 3 Scenario.initialState) in
  let st2 := snd (Service.syncData env 3 st1) in
  Service.lastFullSync st1 = Some 6000
  /\ Service.action <$> Service.trace (Service.world st1)
     = [Service.ShowTables "Lookup";
        Service.GetTableMetadata "Lookup" "Lookup";
        Service.TruncateTable "Lookup";
        Service.GetClasses "Lookup";
        Service.Search {| Service.SearchType := "Lookup";
                          Service.Class := "Lookup";
                          Service.Query := None;
                          Service.Limit := 2500; Service.Offset := 1 |};
        Service.ReplaceInto "Lookup" (<["k" := Some "1"]> ∅)]
  /\ Service.action
     <$> drop 6 (Service.trace (Service.world st2))
     = [Service.ShowTables "Lookup";
        Service.GetTableMetadata "Lookup" "Lookup"].
Proof. vm_compute. repeat split. Qed.

(** ** Pagination and the unauthorized reply *)

(** A turn of the loop starts with its Search request. *)
Lemma fetchLoop_first_event (env : Service.Env) {L : Type}
  (cb : list (gmap string string) -> RetsParser.RetsResponse -> L
        -> Service.M L)
  (p : Service.PairId) (searchType class updateField_ : string)
  (lastValue : option string) (fuel : nat) (offset : Z) (l : L)
  (w : Service.World) :
  (forall records parsed l w,
     Service.trace w `prefix_of` Service.trace (snd (cb records parsed l w))) ->
  Service.trace
    (Service.record p
       (Service.Search
          (Service.searchRequest env searchType class updateField_ lastValue
             offset)) w)
  `prefix_of` Service.trace
                (snd (Service.fetchLoop env L cb p searchType class
                        updateField_ lastValue (S fuel) offset l w)).
Proof.
  intros Hcb. cbn [Service.fetchLoop].
  set (w1 := Service.record p _ w).
  unfold Service.bind at 1, Service.perform. fold w1.
  destruct (Service.io_makeRetsRequest env _ _) as [response|e];
    cbn [Service.lift Service.ret Service.raise snd]; [|done].
  unfold Service.bind at 1.
  destruct (RetsParser.parse _ response) as [parsed|e];
    cbn [Service.lift Service.ret Service.raise snd]; [|done].
  unfold Service.bind at 1.
  pose proof (Hcb (default [] (RetsParser.records parsed)) parsed l w1) as Hc.
  destruct (cb _ parsed l w1) as [[l2|e|] w2]; cbn [snd] in Hc |- *;
    try done.
  destruct (_ <? _); cbn [Service.ret snd]; [done|].
  etrans; [exact Hc|]. by apply fetchLoop_prefix.
Qed.

(** C3.  One turn of the Search loop of [fetchRetsUpdates], for a
    callback that only appends to the trace.  The request of the turn
    asks for Limit = 2500 records from the Offset of the turn.  After a
    batch of Limit records (or more) the loop goes on, and the next event
    is a Search request with the same Limit and with the Offset advanced
    by Limit; after a batch of fewer than Limit records the loop ends
    with the callback's result and no further request. *)
Theorem fetchRetsUpdates_pagination (env : Service.Env) {L : Type}
  (cb : list (gmap string string) -> RetsParser.RetsResponse -> L
        -> Service.M L)
  (p : Service.PairId) (searchType class updateField_ : string)
  (lastValue : option string) (fuel : nat) (offset : Z) (l l' : L)
  (w w' : Service.World) (response : string)
  (parsed : RetsParser.RetsResponse) :
  let request :=
    Service.searchRequest env searchType class updateField_ lastValue in
  let loop :=
    Service.fetchLoop env L cb p searchType class updateField_ lastValue in
  let records := default [] (RetsParser.records parsed) in
  (forall records parsed l w,
     Service.trace w `prefix_of` Service.trace (snd (cb records parsed l w))) ->
  Service.io_makeRetsRequest env (List.length (Service.trace w))
    (request offset) = Ok response ->
  RetsParser.parse (Service.io_metadataTag env) response = Ok parsed ->
  cb records parsed l (Service.record p (Service.Search (request offset)) w)
  = (Service.Done l', w') ->
  Service.Limit (request offset) = 2500
  /\ Service.Offset (request offset) = offset
  /\ (2500 <= Z.of_nat (List.length records) ->
      loop (S (S fuel)) offset l w = loop (S fuel) (offset + 2500) l' w'
      /\ exists next,
           (Service.trace w'
            ++ [{| Service.pair := p;
                   Service.action := Service.Search next |}])%list
           `prefix_of` Service.trace (snd (loop (S (S fuel)) offset l w))
           /\ Service.Limit next = 2500
           /\ Service.Offset next = offset + 2500
           /\ Service.SearchType next = Service.SearchType (request offset)
           /\ Service.Class next = Service.Class (request offset)
           /\ Service.Query next = Service.Query (request offset))
  /\ (Z.of_nat (List.length records) < 2500 ->
      loop (S fuel) offset l w = (Service.Done l', w')).
Proof.
  intros request loop records Hcb Hreq Hparse Hrun.
  assert (forall f, loop (S f) offset l w
                    = if Z.of_nat (List.length records) <? Service.batchSize
                      then (Service.Done l', w')
                      else loop f (offset + Service.batchSize) l' w') as Hstep.
  { intros f. unfold loop. cbn [Service.fetchLoop].
    unfold Service.bind at 1, Service.perform. fold request.
    rewrite Hreq. cbn [Service.lift Service.ret].
    unfold Service.bind at 1. rewrite Hparse. cbn [Service.lift Service.ret].
    unfold Service.bind at 1. fold records. rewrite Hrun.
    destruct (Z.of_nat (List.length records) <? Service.batchSize);
      reflexivity. }
  split; [reflexivity|]. split; [reflexivity|]. split.
  - intros Hlen. rewrite Hstep.
    replace (Z.of_nat (List.length records) <? Service.batchSize) with false
      by (symmetry; apply Z.ltb_ge; unfold Service.batchSize; lia).
    split; [reflexivity|].
    change Service.batchSize with 2500.
    exists (request (offset + 2500)).
    split; [|repeat split].
    by apply (fetchLoop_first_event env cb p searchType class updateField_
                lastValue fuel (offset + 2500) l' w').
  - intros Hlen. rewrite Hstep.
    replace (Z.of_nat (List.length records) <? Service.batchSize) with true
      by (symmetry; apply Z.ltb_lt; unfold Service.batchSize; lia).
    reflexivity.
Qed.

Lemma upsertCallback_appends (env : Service.Env) (p : Service.PairId)
  (lockoutKey table : string) (tableMetadata : list (gmap string string))
  (records : list (gmap string string)) (parsed : RetsParser.RetsResponse)
  (l : Service.Locals) (w : Service.World) :
  Service.trace w
  `prefix_of` Service.trace
                (snd (Service.upsertCallback env p lockoutKey table
                        tableMetadata records parsed l w)).
Proof.
  destruct (emitsFrom_upsertCallback env w p (fun _ => False) lockoutKey
              table tableMetadata records parsed l (fun _ => True) I I)
    as (evs & Ht & _).
  by exists evs.
Qed.

(** What the scenarios compute, as equations. *)
Lemma parse_parsedOf (reply : string) :
  isOk (RetsParser.parse Scenario.noMetadataTag reply) = true ->
  RetsParser.parse Scenario.noMetadataTag reply
  = Ok (Scenario.parsedOf reply).
Proof.
  unfold Scenario.parsedOf.
  by destruct (RetsParser.parse Scenario.noMetadataTag reply).
Qed.

Lemma firstTurn_done (env : Service.Env) (reply : string) :
  (match fst (Scenario.firstTurn env reply) with
   | Service.Done _ => true
   | _ => false
   end) = true ->
  Scenario.propertyCallback env
    (default [] (RetsParser.records (Scenario.parsedOf reply)))
    (Scenario.parsedOf reply) Scenario.noLocals
    (Service.record Scenario.propertyPair
       (Service.Search
          (Service.searchRequest env "Property" "CI_3" "L_UpdateDate" None 1))
       Scenario.emptyWorld)
  = (Service.Done (Scenario.localsOf (Scenario.firstTurn env reply)),
     snd (Scenario.firstTurn env reply)).
Proof.
  change (Scenario.propertyCallback env _ _ _ _)
    with (Scenario.firstTurn env reply).
  unfold Scenario.localsOf.
  by destruct (Scenario.firstTurn env reply) as [[l|e|] w].
Qed.

Lemma fetchRetsUpdates_pagination_witness :
  (let env := Scenario.quietEnv Scenario.commercialCatalog
                (Scenario.pageReply 3) in
   let turn := Scenario.firstTurn env (Scenario.pageReply 3) in
   Service.fetchLoop env Service.Locals (Scenario.propertyCallback env)
     Scenario.propertyPair "Property" "CI_3" "L_UpdateDate" None
     1%nat 1 Scenario.noLocals Scenario.emptyWorld
   = (Service.Done (Scenario.localsOf turn), snd turn))
  /\ (let env := Scenario.twoPageEnv in
      let turn := Scenario.firstTurn env (Scenario.pageReply 2500) in
      exists next,
        (Service.trace (snd turn)
         ++ [{| Service.pair := Scenario.propertyPair;
                Service.action := Service.Search next |}])%list
        `prefix_of`
          Service.trace
            (snd (Service.fetchLoop env Service.Locals
                    (Scenario.propertyCallback env)
                    Scenario.propertyPair "Property" "CI_3" "L_UpdateDate"
                    None 2%nat 1 Scenario.noLocals Scenario.emptyWorld))
        /\ Service.Offset next = 2501).
Proof.
  split.
  - intros env turn.
    destruct (fetchRetsUpdates_pagination env (Scenario.propertyCallback env)
                Scenario.propertyPair "Property" "CI_3" "L_UpdateDate" None
                0%nat 1 Scenario.noLocals (Scenario.localsOf turn)
                Scenario.emptyWorld (snd turn) (Scenario.pageReply 3)
                (Scenario.parsedOf (Scenario.pageReply 3)))
      as (_ & _ & _ & H).
    + intros records parsed l w. apply upsertCallback_appends.
    + reflexivity.
    + vm_compute. reflexivity.
    + vm_compute. reflexivity.
    + apply H. vm_compute. reflexivity.
  - intros env turn.
    destruct (fetchRetsUpdates_pagination env (Scenario.propertyCallback env)
                Scenario.propertyPair "Property" "CI_3" "L_UpdateDate" None
                0%nat 1 Scenario.noLocals (Scenario.localsOf turn)
                Scenario.emptyWorld (snd turn) (Scenario.pageReply 2500)
                (Scenario.parsedOf (Scenario.pageReply 2500)))
      as (_ & _ & H & _).
    + intros records parsed l w. apply upsertCallback_appends.
    + reflexivity.
    + apply parse_parsedOf; vm_compute; reflexivity.
    + assert ((match fst turn with
               | Service.Done _ => true
               | _ => false
               end) = true) as Hdone by (vm_compute; reflexivity).
      exact (firstTurn_done env (Scenario.pageReply 2500) Hdone).
    + destruct H as (_ & next & Hp & _ & Ho & _).
      * vm_compute; discriminate.
      * exists next. split; [exact Hp | exact Ho].
Defined.

(** Two pages: a first batch of 2500 records, then a batch of three.
    The engine asks for Offset 1, then for Offset 2501, and stops. *)
Example pagination_two_pages :
  let env := Scenario.twoPageEnv in
  let st := snd (Service.syncData env 5 Scenario.initialState) in
  omap (fun e => match Service.action e with
                 | Service.Search r => Some (Service.Offset r)
                 | _ => None
                 end)
    (Service.trace (Service.world st))
  = [1; 2501]
  /\ List.length
       (List.filter (fun e => match Service.action e with
                              | Service.ReplaceInto _ _ => true
                              | _ => false
                              end)
          (Service.trace (Service.world st)))
     = 2503%nat.
Proof. vm_compute. split; reflexivity. Qed.




(** ** The lifecycle reconciler *)

Section MapLemmas.

Import PropertyCleanup.

Context {V : Type}.

Lemma mapGet_mapSet_eq (k : string) (v : V) (m : list (string * V)) :
  mapGet k (mapSet k v m) = Some v.
Proof.
  induction m as [|[k' v'] m IH]; cbn.
  - by rewrite String.eqb_refl.
  - destruct (String.eqb k k') eqn:E; cbn.
    + by rewrite String.eqb_refl.
    + by rewrite E.
Qed.

Lemma mapGet_mapSet_ne (k k' : string) (v : V) (m : list (string * V)) :
  k <> k' -> mapGet k' (mapSet k v m) = mapGet k' m.
Proof.
  intros Hne. induction m as [|[k0 v0] m IH]; cbn.
  - apply String.eqb_neq in Hne. rewrite String.eqb_sym. by rewrite Hne.
  - destruct (String.eqb k k0) eqn:E; cbn.
    + apply String.eqb_eq in E. subst k0.
      assert (String.eqb k' k = false) as ->
          by (rewrite String.eqb_sym; by apply String.eqb_neq).
      reflexivity.
    + destruct (String.eqb k' k0); [reflexivity | exact IH].
Qed.

Lemma elem_of_mapSet (k : string) (v : V) (m : list (string * V))
  (x : string * V) :
  x ∈ mapSet k v m -> x = (k, v) \/ x ∈ m.
Proof.
  induction m as [|[k0 v0] m IH]; cbn.
  - intros H. apply list_elem_of_singleton in H. by left.
  - destruct (String.eqb k k0) eqn:E.
    + intros H. apply elem_of_cons in H as [-> | H]; [by left|].
      right. by apply elem_of_cons; right.
    + intros H. apply elem_of_cons in H as [-> | H].
      * right. by apply elem_of_cons; left.
      * destruct (IH H) as [-> | H']; [by left|].
        right. by apply elem_of_cons; right.
Qed.

Lemma mapGet_elem_of (k : string) (v : V) (m : list (string * V)) :
  mapGet k m = Some v -> (k, v) ∈ m.
Proof.
  induction m as [|[k0 v0] m IH]; cbn; [done|].
  destruct (String.eqb k k0) eqn:E.
  - apply String.eqb_eq in E. subst k0. intros [= ->].
    by apply elem_of_cons; left.
  - intros H. apply elem_of_cons; right. by apply IH.
Qed.

End MapLemmas.

Section Filing.

Import PropertyCleanup.

Variable cond : Row -> bool.

Lemma tablesOf_addMatch_same (table : string) (row : Row)
  (m : list (string * MatchInfo)) :
  tablesOf (L_ListingID row) (addMatch table row m)
  = (tablesOf (L_ListingID row) m ++ [table])%list.
Proof.
  unfold tablesOf, addMatch. rewrite mapGet_mapSet_eq. cbn.
  destruct (mapGet (L_ListingID row) m); reflexivity.
Qed.

Lemma tablesOf_addMatch_other (table id : string) (row : Row)
  (m : list (string * MatchInfo)) :
  L_ListingID row <> id ->
  tablesOf id (addMatch table row m) = tablesOf id m.
Proof.
  intros Hne. unfold tablesOf, addMatch. by rewrite mapGet_mapSet_ne.
Qed.

Lemma tablesOf_addMatch_mono (table table' id : string) (row : Row)
  (m : list (string * MatchInfo)) :
  table' ∈ tablesOf id m -> table' ∈ tablesOf id (addMatch table row m).
Proof.
  intros H. destruct (decide (L_ListingID row = id)) as [<- | Hne].
  - rewrite tablesOf_addMatch_same. apply elem_of_app. by left.
  - by rewrite tablesOf_addMatch_other.
Qed.

(** Whatever is filed comes from a row that satisfies the condition. *)
Lemma fileUnder_sound (Phi : string -> string -> Prop) (table : string)
  (rows : list Row) :
  (forall row, row ∈ rows -> cond row = true -> Phi (L_ListingID row) table) ->
  forall m,
    (forall id info t, (id, info) ∈ m -> t ∈ tables info -> Phi id t) ->
    forall id info t,
      (id, info) ∈ fileUnder cond table rows m -> t ∈ tables info -> Phi id t.
Proof.
  unfold fileUnder. induction rows as [|row rows IH]; intros Hrows m Hm;
    cbn [fold_left]; [exact Hm|].
  apply IH.
  - intros r Hr. apply Hrows. by apply elem_of_cons; right.
  - destruct (cond row) eqn:Ec; [|exact Hm].
    intros id info t Hin Ht. unfold addMatch in Hin.
    apply elem_of_mapSet in Hin as [[= -> ->] | Hin]; [|by eapply Hm].
    cbn in Ht. apply elem_of_app in Ht as [Ht | Ht].
    + destruct (mapGet (L_ListingID row) m) as [info0|] eqn:Eg;
        cbn in Ht; [|by apply elem_of_nil in Ht].
      eapply Hm; [by apply mapGet_elem_of|exact Ht].
    + apply list_elem_of_singleton in Ht as ->.
      apply Hrows; [by apply elem_of_cons; left | exact Ec].
Qed.

Lemma fileUnder_mono (table table' id : string) (rows : list Row)
  (m : list (string * MatchInfo)) :
  table' ∈ tablesOf id m -> table' ∈ tablesOf id (fileUnder cond table rows m).
Proof.
  unfold fileUnder. revert m. induction rows as [|row rows IH]; intros m H;
    cbn [fold_left]; [exact H|].
  apply IH. destruct (cond row); [by apply tablesOf_addMatch_mono | exact H].
Qed.

(** Every row that satisfies the condition is filed. *)
Lemma fileUnder_complete (table : string) (rows : list Row)
  (m : list (string * MatchInfo)) (row : Row) :
  row ∈ rows -> cond row = true ->
  table ∈ tablesOf (L_ListingID row) (fileUnder cond table rows m).
Proof.
  unfold fileUnder. revert m. induction rows as [|r rows IH]; intros m Hin Hc.
  - by apply elem_of_nil in Hin.
  - cbn [fold_left]. apply elem_of_cons in Hin as [<- | Hin].
    + rewrite Hc. apply (fileUnder_mono table table (L_ListingID row) rows).
      rewrite tablesOf_addMatch_same. apply elem_of_app. right.
      by apply list_elem_of_singleton.
    + by apply IH.
Qed.

Variable db : gmap string (list Row).

Lemma fileTables_sound (ts : list string) (m : list (string * MatchInfo))
  (Phi : string -> string -> Prop) :
  (forall t rows row,
     t ∈ ts -> db !! t = Some rows -> row ∈ rows -> cond row = true ->
     Phi (L_ListingID row) t) ->
  (forall id info t, (id, info) ∈ m -> t ∈ tables info -> Phi id t) ->
  forall id info t,
    (id, info) ∈ fileTables cond db ts m -> t ∈ tables info -> Phi id t.
Proof.
  unfold fileTables. revert m. induction ts as [|t0 ts IH]; intros m Hts Hm;
    cbn [fold_left]; [exact Hm|].
  apply IH.
  - intros t rows row Ht. apply Hts. by apply elem_of_cons; right.
  - apply fileUnder_sound; [|exact Hm].
    intros row Hrow Hc. destruct (db !! t0) as [rows|] eqn:Edb; cbn in Hrow.
    + eapply Hts; [by apply elem_of_cons; left | exact Edb | exact Hrow
                  | exact Hc].
    + by apply elem_of_nil in Hrow.
Qed.

Lemma fileTables_mono (ts : list string) (m : list (string * MatchInfo))
  (t id : string) :
  t ∈ tablesOf id m -> t ∈ tablesOf id (fileTables cond db ts m).
Proof.
  unfold fileTables. revert m. induction ts as [|t0 ts IH]; intros m H;
    cbn [fold_left]; [exact H|].
  apply IH. by apply fileUnder_mono.
Qed.

Lemma fileTables_complete (ts : list string) (m : list (string * MatchInfo))
  (t : string) (rows : list Row) (row : Row) :
  t ∈ ts -> db !! t = Some rows -> row ∈ rows -> cond row = true ->
  t ∈ tablesOf (L_ListingID row) (fileTables cond db ts m).
Proof.
  unfold fileTables. revert m. induction ts as [|t0 ts IH];
    intros m Ht Hdb Hrow Hc.
  - by apply elem_of_nil in Ht.
  - cbn [fold_left]. apply elem_of_cons in Ht as [<- | Ht].
    + apply (fileTables_mono ts). rewrite Hdb. cbn.
      by apply fileUnder_complete.
    + by apply IH.
Qed.

End Filing.

Section Scanning.

Import PropertyCleanup.

Variables sold expired : gset string.

Lemma fileUnder_filter (cond keep : Row -> bool) (table : string)
  (rows : list Row) (m : list (string * MatchInfo)) :
  (forall row, cond row = true -> keep row = true) ->
  fileUnder cond table (List.filter keep rows) m = fileUnder cond table rows m.
Proof.
  intros Hk. unfold fileUnder. revert m.
  induction rows as [|row rows IH]; intros m; cbn; [reflexivity|].
  destruct (keep row) eqn:Ek; cbn; [apply IH|].
  destruct (cond row) eqn:Ec; [|apply IH].
  rewrite (Hk row Ec) in Ek. discriminate.
Qed.

Lemma scanRows_split (table : string) (rows : list Row)
  (acc : list (string * MatchInfo) * list (string * MatchInfo)) :
  scanRows sold expired table rows acc
  = (fileUnder (soldCondition sold) table rows (fst acc),
     fileUnder (expiredCondition expired) table rows (snd acc)).
Proof.
  unfold scanRows, fileUnder. revert acc.
  induction rows as [|row rows IH]; intros [ms me]; cbn; [reflexivity|].
  destruct (soldCondition sold row) eqn:Es;
    destruct (expiredCondition expired row) eqn:Ee; cbn;
    rewrite ?Es, ?Ee; apply IH.
Qed.

Lemma soldCondition_selected (row : Row) :
  soldCondition sold row = true ->
  bool_decide (L_ListingID row ∈ sold ∪ expired) = true.
Proof.
  unfold soldCondition. intros H. apply andb_true_iff in H as [H _].
  apply bool_decide_eq_true in H. apply bool_decide_eq_true. set_solver.
Qed.

Lemma expiredCondition_selected (row : Row) :
  expiredCondition expired row = true ->
  bool_decide (L_ListingID row ∈ sold ∪ expired) = true.
Proof.
  unfold expiredCondition. intros H. apply andb_true_iff in H as [H _].
  apply bool_decide_eq_true in H. apply bool_decide_eq_true. set_solver.
Qed.

Lemma scanTables_spec (db : gmap string (list Row)) (ts : list string)
  (acc res : list (string * MatchInfo) * list (string * MatchInfo)) :
  scanTables sold expired db ts acc = Ok res ->
  res = (fileTables (soldCondition sold) db ts (fst acc),
         fileTables (expiredCondition expired) db ts (snd acc)).
Proof.
  revert acc. induction ts as [|t ts IH]; intros acc; cbn.
  - intros [= <-]. by destruct acc.
  - unfold selectIn. destruct (db !! t) as [rows|] eqn:Edb; cbn; [|done].
    intros H. apply IH in H. rewrite H, scanRows_split. cbn.
    rewrite !fileUnder_filter;
      auto using soldCondition_selected, expiredCondition_selected.
Qed.

End Scanning.

Section Grouping.

Import PropertyCleanup.

(** The inner loop of [groupByTable]: one listing id under each of its
    tables. *)
Lemma group_one_sound (Psi : string -> string -> Prop) (id : string)
  (ts : list string) :
  (forall t, t ∈ ts -> Psi t id) ->
  forall g,
    (forall t ids i, (t, ids) ∈ g -> i ∈ ids -> Psi t i) ->
    forall t ids i,
      (t, ids)
      ∈ fold_left
          (fun grouped table =>
             mapSet table
               (default [] (mapGet table grouped) ++ [id])%list grouped)
          ts g ->
      i ∈ ids -> Psi t i.
Proof.
  induction ts as [|t0 ts IH]; intros Hts g Hg; cbn [fold_left]; [exact Hg|].
  apply IH.
  - intros t Ht. apply Hts. by apply elem_of_cons; right.
  - intros t ids i Hin Hi.
    apply elem_of_mapSet in Hin as [[= -> ->] | Hin]; [|by eapply Hg].
    apply elem_of_app in Hi as [Hi | Hi].
    + destruct (mapGet t0 g) as [ids0|] eqn:Eg; cbn in Hi;
        [|by apply elem_of_nil in Hi].
      eapply Hg; [by apply mapGet_elem_of | exact Hi].
    + apply list_elem_of_singleton in Hi as ->.
      apply Hts. by apply elem_of_cons; left.
Qed.

Lemma idsOf_mapSet_mono (t t0 i id : string)
  (g : list (string * list string)) :
  i ∈ idsOf t g ->
  i ∈ idsOf t (mapSet t0 (default [] (mapGet t0 g) ++ [id])%list g).
Proof.
  unfold idsOf. intros H. destruct (decide (t0 = t)) as [-> | Hne].
  - rewrite mapGet_mapSet_eq. cbn. apply elem_of_app. by left.
  - by rewrite mapGet_mapSet_ne.
Qed.

Lemma group_one_mono (id t i : string) (ts : list string)
  (g : list (string * list string)) :
  i ∈ idsOf t g ->
  i ∈ idsOf t
        (fold_left
           (fun grouped table =>
              mapSet table
                (default [] (mapGet table grouped) ++ [id])%list grouped)
           ts g).
Proof.
  revert g. induction ts as [|t0 ts IH]; intros g H; cbn [fold_left];
    [exact H|].
  apply IH. by apply idsOf_mapSet_mono.
Qed.

Lemma group_one_complete (id t : string) (ts : list string)
  (g : list (string * list string)) :
  t ∈ ts ->
  id ∈ idsOf t
         (fold_left
            (fun grouped table =>
               mapSet table
                 (default [] (mapGet table grouped) ++ [id])%list grouped)
            ts g).
Proof.
  revert g. induction ts as [|t0 ts IH]; intros g Ht.
  - by apply elem_of_nil in Ht.
  - cbn [fold_left]. apply elem_of_cons in Ht as [<- | Ht]; [|by apply IH].
    apply group_one_mono. unfold idsOf. rewrite mapGet_mapSet_eq. cbn.
    apply elem_of_app. right. by apply list_elem_of_singleton.
Qed.

Lemma groupByTable_sound (m : list (string * MatchInfo)) (t id : string)
  (ids : list string) :
  (t, ids) ∈ groupByTable m -> id ∈ ids ->
  exists info, (id, info) ∈ m /\ t ∈ tables info.
Proof.
  unfold groupByTable.
  assert (forall g,
             (forall t ids i, (t, ids) ∈ g -> i ∈ ids ->
                              exists info, (i, info) ∈ m /\ t ∈ tables info) ->
             forall m0, (forall x, x ∈ m0 -> x ∈ m) ->
             forall t ids i,
               (t, ids)
               ∈ fold_left
                   (fun grouped '(listingId, info) =>
                      fold_left
                        (fun grouped table =>
                           mapSet table
                             (default [] (mapGet table grouped)
                              ++ [listingId])%list grouped)
                        (tables info) grouped)
                   m0 g ->
               i ∈ ids -> exists info, (i, info) ∈ m /\ t ∈ tables info) as H.
  { intros g Hg m0. revert g Hg.
    induction m0 as [|[id0 info0] m0 IH]; intros g Hg Hsub; cbn [fold_left];
      [exact Hg|].
    apply IH.
    - apply (group_one_sound
               (fun t i => exists info, (i, info) ∈ m /\ t ∈ tables info));
        [|exact Hg].
      intros t0 Ht0. exists info0. split; [|exact Ht0].
      apply Hsub. by apply elem_of_cons; left.
    - intros x Hx. apply Hsub. by apply elem_of_cons; right. }
  intros Hin Hid. eapply (H [] ltac:(intros ? ? ? Hx; by apply elem_of_nil in Hx)
                            m ltac:(auto)); eauto.
Qed.

Lemma groupByTable_complete (m : list (string * MatchInfo)) (t id : string)
  (info : MatchInfo) :
  (id, info) ∈ m -> t ∈ tables info -> id ∈ idsOf t (groupByTable m).
Proof.
  unfold groupByTable. generalize (@nil (string * list string)) as g.
  induction m as [|[id0 info0] m IH]; intros g Hin Ht.
  - by apply elem_of_nil in Hin.
  - cbn [fold_left]. apply elem_of_cons in Hin as [[= <- <-] | Hin].
    + assert (forall g0 : list (string * list string),
                 id ∈ idsOf t g0 ->
                 id ∈ idsOf t
                        (fold_left
                           (fun grouped '(listingId, info) =>
                              fold_left
                                (fun grouped table =>
                                   mapSet table
                                     (default [] (mapGet table grouped)
                                      ++ [listingId])%list grouped)
                                (tables info) grouped)
                           m g0)) as Hmono.
      { clear. induction m as [|[id1 info1] m IH]; intros g0 H;
          cbn [fold_left]; [exact H|].
        apply IH. by apply group_one_mono. }
      apply Hmono. by apply group_one_complete.
    + by apply IH.
Qed.

End Grouping.

Lemma elem_of_List_filter {A : Type} (f : A -> bool) (l : list A) (x : A) :
  x ∈ List.filter f l <-> x ∈ l /\ f x = true.
Proof. rewrite !list_elem_of_In. apply filter_In. Qed.

Section Executing.

Import PropertyCleanup.

Variable table : string.

Lemma execute_lookup (st : Statement) (db db' : gmap string (list Row))
  (rows : list Row) :
  execute st db = Ok db' -> db !! table = Some rows ->
  db' !! table = Some (applyTo table rows st).
Proof.
  intros He Hdb. destruct st as [t ids | t ids]; cbn in He |- *;
    destruct (db !! t) as [rows0|] eqn:Et; try discriminate;
    injection He as <-;
    (destruct (String.eqb t table) eqn:E;
     [apply String.eqb_eq in E; subst t; rewrite lookup_insert_eq;
      rewrite Hdb in Et; by injection Et as ->
     |apply String.eqb_neq in E; by rewrite lookup_insert_ne]).
Qed.

Lemma executeAll_lookup (stmts : list Statement)
  (db db' : gmap string (list Row)) (rows : list Row) :
  executeAll stmts db = Ok db' -> db !! table = Some rows ->
  db' !! table = Some (fold_left (applyTo table) stmts rows).
Proof.
  revert db rows. induction stmts as [|st stmts IH]; intros db rows; cbn.
  - intros [= <-]. done.
  - destruct (execute st db) as [db1|e] eqn:E; cbn; [|done].
    intros H Hdb. eapply IH; [exact H|]. by eapply execute_lookup.
Qed.

Lemma setSold_idempotent (r : Row) : setSold (setSold r) = setSold r.
Proof. reflexivity. Qed.

(** A row that no DELETE names stays, as it was or as SOLD. *)
Lemma applyAll_kept (stmts : list Statement) (rows : list Row) (x : Row) :
  x ∈ rows ->
  existsb (deletesRow table (L_ListingID x)) stmts = false ->
  (if existsb (updatesRow table (L_ListingID x)) stmts
   then setSold x else x)
  ∈ fold_left (applyTo table) stmts rows.
Proof.
  revert rows x. induction stmts as [|st stmts IH]; intros rows x Hx Hd;
    cbn [existsb fold_left]; [exact Hx|].
  cbn [existsb] in Hd. apply orb_false_iff in Hd as [Hd1 Hd2].
  destruct st as [t ids | t ids]; cbn [updatesRow deletesRow applyTo] in *.
  - destruct (String.eqb t table) eqn:Et; cbn [andb orb].
    + destruct (bool_decide (L_ListingID x ∈ ids)) eqn:Ei; cbn [orb].
      * specialize (IH ((fun r => if bool_decide (L_ListingID r ∈ ids)
                                  then setSold r else r) <$> rows)
                       (setSold x)).
        cbn [setSold L_ListingID] in IH.
        assert ((if existsb (updatesRow table (L_ListingID x)) stmts
                 then setSold (setSold x) else setSold x) = setSold x) as Hs
            by (destruct (existsb (updatesRow table (L_ListingID x)) stmts);
                reflexivity).
        rewrite <- Hs. apply IH; [|exact Hd2].
        apply list_elem_of_fmap. exists x. by rewrite Ei.
      * apply IH; [|exact Hd2].
        apply list_elem_of_fmap. exists x. by rewrite Ei.
    + by apply IH.
  - destruct (String.eqb t table) eqn:Et; cbn [andb orb] in *.
    + apply IH; [|exact Hd2].
      apply elem_of_List_filter. by rewrite Hd1.
    + by apply IH.
Qed.

Lemma applyTo_ids (st : Statement) (rows : list Row) (r : Row) :
  r ∈ applyTo table rows st ->
  exists r0, r0 ∈ rows /\ L_ListingID r0 = L_ListingID r.
Proof.
  destruct st as [t ids | t ids]; cbn [applyTo];
    destruct (String.eqb t table); eauto.
  - intros H. apply list_elem_of_fmap in H as (r0 & -> & H0).
    exists r0. split; [exact H0|]. by destruct (bool_decide _).
  - intros H. apply elem_of_List_filter in H as [H _]. eauto.
Qed.

Lemma applyAll_ids (stmts : list Statement) (rows : list Row) (r : Row) :
  r ∈ fold_left (applyTo table) stmts rows ->
  exists r0, r0 ∈ rows /\ L_ListingID r0 = L_ListingID r.
Proof.
  revert rows. induction stmts as [|st stmts IH]; intros rows;
    cbn [fold_left]; [eauto|].
  intros H. apply IH in H as (r1 & H1 & E1).
  apply applyTo_ids in H1 as (r0 & H0 & E0). exists r0. split; congruence.
Qed.

(** A listing that a DELETE names is gone. *)
Lemma applyAll_deleted (stmts : list Statement) (rows : list Row)
  (id : string) (r : Row) :
  existsb (deletesRow table id) stmts = true ->
  r ∈ fold_left (applyTo table) stmts rows -> L_ListingID r <> id.
Proof.
  revert rows. induction stmts as [|st stmts IH]; intros rows Hd;
    cbn [existsb fold_left] in *; [discriminate|].
  apply orb_true_iff in Hd as [Hd | Hd]; [|by apply IH].
  intros Hr. apply applyAll_ids in Hr as (r0 & H0 & <-).
  destruct st as [t ids | t ids]; cbn [deletesRow applyTo] in *;
    [discriminate|].
  apply andb_true_iff in Hd as [Et Hi]. rewrite Et in H0.
  apply elem_of_List_filter in H0 as [_ H0].
  intros E. rewrite E, Hi in H0. done.
Qed.

End Executing.

Section ExecutingAll.

Import PropertyCleanup.

Variable table : string.

(** The statements of a run select by listing id, and neither of them
    changes an id: whatever their order, the rows of a table after them
    are the rows that no DELETE names, those that an UPDATE names with
    their status set to "2". *)
Lemma applyAll_rows (stmts : list Statement) (rows : list Row) :
  fold_left (applyTo table) stmts rows
  = List.filter
      (fun r => negb (existsb (deletesRow table (L_ListingID r)) stmts))
      ((fun r => if existsb (updatesRow table (L_ListingID r)) stmts
                 then {| L_ListingID := L_ListingID r;
                         L_Address := L_Address r;
                         L_StatusCatID := "2" |}
                 else r) <$> rows).
Proof.
  revert rows. induction stmts as [|st stmts IH]; intros rows;
    cbn [fold_left existsb].
  - induction rows as [|r rows IHr]; [reflexivity|].
    cbn [fmap list_fmap List.filter negb]. cbn in IHr. by rewrite <- IHr.
  - rewrite IH. clear IH.
    destruct st as [t ids | t ids]; cbn [applyTo updatesRow deletesRow];
      destruct (String.eqb t table); cbn [andb orb]; try reflexivity.
    + induction rows as [|r rows IHr]; [reflexivity|].
      cbn [fmap list_fmap List.filter] in *. rewrite <- IHr. clear IHr.
      destruct (bool_decide (L_ListingID r ∈ ids)); cbn [orb];
        [|reflexivity].
      cbn [setSold L_ListingID L_Address].
      by destruct (existsb (updatesRow table (L_ListingID r)) stmts).
    + induction rows as [|r rows IHr]; [reflexivity|].
      cbn [fmap list_fmap List.filter] in *.
      assert (L_ListingID
                (if existsb (updatesRow table (L_ListingID r)) stmts
                 then {| L_ListingID := L_ListingID r;
                         L_Address := L_Address r;
                         L_StatusCatID := "2" |}
                 else r) = L_ListingID r) as Hid
          by (by destruct (existsb (updatesRow table (L_ListingID r)) stmts)).
      rewrite Hid.
      destruct (bool_decide (L_ListingID r ∈ ids)); cbn [negb orb].
      * exact IHr.
      * cbn [fmap list_fmap List.filter]. rewrite Hid.
        by rewrite <- IHr.
Qed.

End ExecutingAll.

Section Reconcile.

Import PropertyCleanup.

Lemma soldCondition_true (sold : gset string) (row : Row) :
  soldCondition sold row = true
  <-> L_ListingID row ∈ sold /\ L_StatusCatID row <> "2".
Proof.
  unfold soldCondition. rewrite andb_true_iff, bool_decide_eq_true,
    negb_true_iff, String.eqb_neq. reflexivity.
Qed.

Lemma expiredCondition_true (expired : gset string) (row : Row) :
  expiredCondition expired row = true
  <-> L_ListingID row ∈ expired
      /\ (L_StatusCatID row = "1" \/ L_StatusCatID row = "2").
Proof.
  unfold expiredCondition. rewrite andb_true_iff, bool_decide_eq_true,
    orb_true_iff, !String.eqb_eq. reflexivity.
Qed.

Lemma unique_listing (rows : list Row) (r1 r2 : Row) :
  NoDup (L_ListingID <$> rows) -> r1 ∈ rows -> r2 ∈ rows ->
  L_ListingID r1 = L_ListingID r2 -> r1 = r2.
Proof.
  induction rows as [|r rows IH]; intros Hnd H1 H2 E.
  - by apply elem_of_nil in H1.
  - cbn in Hnd. apply NoDup_cons in Hnd as [Hnotin Hnd].
    apply elem_of_cons in H1 as [-> | H1];
      apply elem_of_cons in H2 as [-> | H2]; auto.
    + exfalso. apply Hnotin. rewrite E. apply list_elem_of_fmap. eauto.
    + exfalso. apply Hnotin. rewrite <- E. apply list_elem_of_fmap. eauto.
Qed.

Lemma statementsOf_updates (matches : list (string * MatchInfo)
                                       * list (string * MatchInfo))
  (table id : string) :
  existsb (updatesRow table id) (statementsOf matches) = true
  <-> exists ids, (table, ids) ∈ groupByTable (fst matches) /\ id ∈ ids.
Proof.
  unfold statementsOf. rewrite existsb_app, orb_true_iff, !existsb_exists.
  split.
  - intros [(st & Hin & Hu) | (st & Hin & Hu)];
      apply list_elem_of_In, list_elem_of_fmap in Hin as ([t ids] & -> & Hin);
      cbn in Hu; [|discriminate].
    apply andb_true_iff in Hu as [Et Hi]. apply String.eqb_eq in Et as ->.
    apply bool_decide_eq_true in Hi. eauto.
  - intros (ids & Hin & Hi). left. exists (UpdateSold table ids). split.
    + apply list_elem_of_In, list_elem_of_fmap. by exists (table, ids).
    + cbn. rewrite String.eqb_refl. by apply bool_decide_eq_true.
Qed.

Lemma statementsOf_deletes (matches : list (string * MatchInfo)
                                       * list (string * MatchInfo))
  (table id : string) :
  existsb (deletesRow table id) (statementsOf matches) = true
  <-> exists ids, (table, ids) ∈ groupByTable (snd matches) /\ id ∈ ids.
Proof.
  unfold statementsOf. rewrite existsb_app, orb_true_iff, !existsb_exists.
  split.
  - intros [(st & Hin & Hu) | (st & Hin & Hu)];
      apply list_elem_of_In, list_elem_of_fmap in Hin as ([t ids] & -> & Hin);
      cbn in Hu; [discriminate|].
    apply andb_true_iff in Hu as [Et Hi]. apply String.eqb_eq in Et as ->.
    apply bool_decide_eq_true in Hi. eauto.
  - intros (ids & Hin & Hi). right. exists (DeleteRows table ids). split.
    + apply list_elem_of_In, list_elem_of_fmap. by exists (table, ids).
    + cbn. rewrite String.eqb_refl. by apply bool_decide_eq_true.
Qed.

Variable db : gmap string (list Row).
Variable ts : list string.
Variable table : string.
Variable rows : list Row.
Variable row : Row.

Hypothesis table_scanned : table ∈ ts.
Hypothesis table_rows : db !! table = Some rows.
Hypothesis unique_ids : NoDup (L_ListingID <$> rows).
Hypothesis row_in_table : row ∈ rows.

(** A listing of [table] is grouped under it exactly when the row
    satisfies the condition under which rows are filed. *)
Lemma grouped_iff (cond : Row -> bool) :
  (exists ids,
      (table, ids) ∈ groupByTable (fileTables cond db ts [])
      /\ L_ListingID row ∈ ids)
  <-> cond row = true.
Proof.
  split.
  - intros (ids & Hin & Hi).
    destruct (groupByTable_sound _ _ _ _ Hin Hi) as (info & Hinfo & Ht).
    destruct (fileTables_sound cond db ts []
                (fun id t => exists rows0 row0,
                     db !! t = Some rows0 /\ row0 ∈ rows0
                     /\ L_ListingID row0 = id /\ cond row0 = true))
      with (id := L_ListingID row) (info := info) (t := table)
      as (rows0 & row0 & Hdb0 & Hrow0 & Hid & Hc); auto.
    + intros t rows0 row0 _ Hdb0 Hrow0 Hc. eauto 10.
    + intros id info0 t Hx. by apply elem_of_nil in Hx.
    + rewrite table_rows in Hdb0. injection Hdb0 as <-.
      by rewrite <- (unique_listing rows row0 row).
  - intros Hc.
    pose proof (fileTables_complete cond db ts [] table rows row
                  table_scanned table_rows row_in_table Hc) as Ht.
    unfold tablesOf in Ht.
    destruct (mapGet (L_ListingID row) (fileTables cond db ts []))
      as [info|] eqn:Eg; [|by apply elem_of_nil in Ht].
    apply mapGet_elem_of in Eg.
    pose proof (groupByTable_complete _ _ _ _ Eg Ht) as Hi.
    unfold idsOf in Hi.
    destruct (mapGet table (groupByTable (fileTables cond db ts [])))
      as [ids|] eqn:Egr; cbn in Hi; [|by apply elem_of_nil in Hi].
    exists ids. split; [by apply mapGet_elem_of | exact Hi].
Qed.

(** Without the uniqueness of listing ids: a listing id is grouped under
    [table] exactly when some row of the table with that id satisfies
    the condition. *)
Lemma grouped_listing_iff (cond : Row -> bool) (id : string) :
  (exists ids,
      (table, ids) ∈ groupByTable (fileTables cond db ts [])
      /\ id ∈ ids)
  <-> exists row0,
        row0 ∈ rows /\ L_ListingID row0 = id /\ cond row0 = true.
Proof.
  split.
  - intros (ids & Hin & Hi).
    destruct (groupByTable_sound _ _ _ _ Hin Hi) as (info & Hinfo & Ht).
    destruct (fileTables_sound cond db ts []
                (fun id t => exists rows0 row0,
                     db !! t = Some rows0 /\ row0 ∈ rows0
                     /\ L_ListingID row0 = id /\ cond row0 = true))
      with (id := id) (info := info) (t := table)
      as (rows0 & row0 & Hdb0 & Hrow0 & Hid & Hc); auto.
    + intros t rows0 row0 _ Hdb0 Hrow0 Hc. eauto 10.
    + intros id0 info0 t Hx. by apply elem_of_nil in Hx.
    + rewrite table_rows in Hdb0. injection Hdb0 as <-. eauto.
  - intros (row0 & Hrow0 & <- & Hc).
    pose proof (fileTables_complete cond db ts [] table rows row0
                  table_scanned table_rows Hrow0 Hc) as Ht.
    unfold tablesOf in Ht.
    destruct (mapGet (L_ListingID row0) (fileTables cond db ts []))
      as [info|] eqn:Eg; [|by apply elem_of_nil in Ht].
    apply mapGet_elem_of in Eg.
    pose proof (groupByTable_complete _ _ _ _ Eg Ht) as Hi.
    unfold idsOf in Hi.
    destruct (mapGet table (groupByTable (fileTables cond db ts [])))
      as [ids|] eqn:Egr; cbn in Hi; [|by apply elem_of_nil in Hi].
    exists ids. split; [by apply mapGet_elem_of | exact Hi].
Qed.

End Reconcile.

(** The statements of a run, per listing id and without any assumption
    on the rows: an UPDATE on [table] names [id] exactly when some row of
    the table with that id is to be promoted, and a DELETE names it
    exactly when some row with that id is to be removed.  Both statements
    select by id, so they reach every row of the table that carries
    it. *)
Lemma reconcile_statements_per_listing (classes : list string)
  (sold expired : gset string)
  (db db' : gmap string (list PropertyCleanup.Row))
  (stmts : list PropertyCleanup.Statement) (table : string)
  (rows : list PropertyCleanup.Row) (id : string) :
  PropertyCleanup.reconcile classes sold expired db = Ok (stmts, db') ->
  PropertyCleanup.checkPropertyTables db = true ->
  table ∈ ((fun cls => "Property_" ++ cls) <$> classes) ->
  db !! table = Some rows ->
  (existsb (PropertyCleanup.updatesRow table id) stmts = true
   <-> exists row0,
         row0 ∈ rows /\ PropertyCleanup.L_ListingID row0 = id
         /\ PropertyCleanup.soldCondition sold row0 = true)
  /\ (existsb (PropertyCleanup.deletesRow table id) stmts = true
      <-> exists row0,
            row0 ∈ rows /\ PropertyCleanup.L_ListingID row0 = id
            /\ PropertyCleanup.expiredCondition expired row0 = true).
Proof.
  intros Hrec Hcheck Ht Hdb.
  unfold PropertyCleanup.reconcile in Hrec. rewrite Hcheck in Hrec.
  cbn [negb] in Hrec.
  set (ts := (fun cls => "Property_" ++ cls) <$> classes) in *.
  destruct (bool_decide (sold ∪ expired ≠ ∅)) eqn:Ene.
  - destruct (PropertyCleanup.scanTables sold expired db ts ([], []))
      as [matches|e] eqn:Escan; cbn in Hrec; [|discriminate].
    destruct (PropertyCleanup.executeAll _ db) as [db1|e] eqn:Eexec;
      cbn in Hrec; [|discriminate].
    injection Hrec as <- <-.
    apply scanTables_spec in Escan. subst matches.
    rewrite statementsOf_updates, statementsOf_deletes. cbn [fst snd].
    split; apply (grouped_listing_iff db ts table rows Ht Hdb).
  - cbn in Hrec. injection Hrec as <- <-.
    apply bool_decide_eq_false in Ene.
    assert (sold ∪ expired = ∅) as Hempty
        by (destruct (decide (sold ∪ expired = ∅)); [done | by destruct Ene]).
    assert (forall x : string, (x ∉ sold) /\ (x ∉ expired)) as Hnone.
    { intros x. split; intros Hx;
        apply (not_elem_of_empty (C := gset string) x);
        rewrite <- Hempty; apply elem_of_union; [by left | by right]. }
    cbn. split; (split; [discriminate | intros (row0 & _ & _ & Hc)]).
    + apply soldCondition_true in Hc as [Hin _].
      by destruct (Hnone (PropertyCleanup.L_ListingID row0)).
    + apply expiredCondition_true in Hc as [Hin _].
      by destruct (Hnone (PropertyCleanup.L_ListingID row0)).
Qed.

(** C6 (as stated, refuted).  A table holds listing A twice, as active
    and as pending, and A is withdrawn on the hotsheet.  The pending row
    has a status that is neither "1" nor "2", and the run deletes it:
    the DELETE names the id, which the active row put there. *)
Lemma reconcile_deletes_a_row_by_its_listing :
  Scenario.duplicateTables !! "Property_RE_1"
  = Some [Scenario.rowA; Scenario.staleRowA]
  /\ PropertyCleanup.L_ListingID Scenario.staleRowA = "A"
  /\ PropertyCleanup.L_StatusCatID Scenario.staleRowA = "3"
  /\ PropertyCleanup.reconcile Scenario.propertyClasses ∅ {["A"]}
       Scenario.duplicateTables
     = Ok ([PropertyCleanup.DeleteRows "Property_RE_1" ["A"]],
           <["Property_RE_1" := []]> Scenario.duplicateTables).
Proof. repeat split; vm_compute; reflexivity. Qed.

(** C6 (amended).  For a run of the reconciler that reaches its
    statements (the four property tables exist and every query
    succeeds) and a property table of the catalog: an UPDATE to "2" on
    the table names a listing id if and only if the id is in the sold
    set and some row of the table with that id has a status other than
    "2"; a DELETE on the table names a listing id if and only if the id
    is in the withdrawn-or-expired set and some row of the table with
    that id has status "1" or "2"; after the run the table holds, in
    their order, the rows whose id no DELETE names, those whose id an
    UPDATE names with L_StatusCatID "2" and nothing else changed, the
    others as they were.  Where listing ids are unique in the table,
    this decides each row by its own status. *)
Theorem reconcile_decides_each_listing (classes : list string)
  (sold expired : gset string)
  (db db' : gmap string (list PropertyCleanup.Row))
  (stmts : list PropertyCleanup.Statement) (table : string)
  (rows : list PropertyCleanup.Row) :
  PropertyCleanup.reconcile classes sold expired db = Ok (stmts, db') ->
  PropertyCleanup.checkPropertyTables db = true ->
  table ∈ ((fun cls => "Property_" ++ cls) <$> classes) ->
  db !! table = Some rows ->
  let updated id :=
    existsb (PropertyCleanup.updatesRow table id) stmts in
  let deleted id :=
    existsb (PropertyCleanup.deletesRow table id) stmts in
  (forall id,
      updated id = true
      <-> id ∈ sold
          /\ exists row,
               row ∈ rows /\ PropertyCleanup.L_ListingID row = id
               /\ PropertyCleanup.L_StatusCatID row <> "2")
  /\ (forall id,
         deleted id = true
         <-> id ∈ expired
             /\ exists row,
                  row ∈ rows /\ PropertyCleanup.L_ListingID row = id
                  /\ (PropertyCleanup.L_StatusCatID row = "1"
                      \/ PropertyCleanup.L_StatusCatID row = "2"))
  /\ db' !! table
     = Some
         (List.filter
            (fun r => negb (deleted (PropertyCleanup.L_ListingID r)))
            ((fun r =>
                if updated (PropertyCleanup.L_ListingID r)
                then {| PropertyCleanup.L_ListingID :=
                          PropertyCleanup.L_ListingID r;
                        PropertyCleanup.L_Address :=
                          PropertyCleanup.L_Address r;
                        PropertyCleanup.L_StatusCatID := "2" |}
                else r) <$> rows))
  /\ (NoDup (PropertyCleanup.L_ListingID <$> rows) ->
      forall row, row ∈ rows ->
        (updated (PropertyCleanup.L_ListingID row) = true
         <-> PropertyCleanup.L_ListingID row ∈ sold
             /\ PropertyCleanup.L_StatusCatID row <> "2")
        /\ (deleted (PropertyCleanup.L_ListingID row) = true
            <-> PropertyCleanup.L_ListingID row ∈ expired
                /\ (PropertyCleanup.L_StatusCatID row = "1"
                    \/ PropertyCleanup.L_StatusCatID row = "2"))).
Proof.
  intros Hrec Hcheck Ht Hdb updated deleted.
  assert (forall id,
             (updated id = true
              <-> exists row0,
                    row0 ∈ rows /\ PropertyCleanup.L_ListingID row0 = id
                    /\ PropertyCleanup.soldCondition sold row0 = true)
             /\ (deleted id = true
                 <-> exists row0,
                       row0 ∈ rows /\ PropertyCleanup.L_ListingID row0 = id
                       /\ PropertyCleanup.expiredCondition expired row0
                          = true)) as Hper
      by (intros id;
          exact (reconcile_statements_per_listing classes sold expired db db'
                   stmts table rows id Hrec Hcheck Ht Hdb)).
  assert (PropertyCleanup.executeAll stmts db = Ok db') as Hexec.
  { unfold PropertyCleanup.reconcile in Hrec. rewrite Hcheck in Hrec.
    cbn [negb] in Hrec.
    destruct (if bool_decide (sold ∪ expired ≠ ∅) then _ else _)
      as [matches|e]; cbn in Hrec; [|discriminate].
    destruct (PropertyCleanup.executeAll _ db) as [db1|e] eqn:Eexec;
      cbn in Hrec; [|discriminate].
    by injection Hrec as <- <-. }
  split; [|split; [|split]].
  - intros id. destruct (Hper id) as [-> _]. split.
    + intros (row & Hrow & Hid & Hc).
      apply soldCondition_true in Hc as [Hin Hs]. rewrite Hid in Hin.
      eauto 10.
    + intros (Hin & row & Hrow & Hid & Hs). exists row.
      split; [exact Hrow|]. split; [exact Hid|].
      apply soldCondition_true. by rewrite Hid.
  - intros id. destruct (Hper id) as [_ ->]. split.
    + intros (row & Hrow & Hid & Hc).
      apply expiredCondition_true in Hc as [Hin Hs]. rewrite Hid in Hin.
      eauto 10.
    + intros (Hin & row & Hrow & Hid & Hs). exists row.
      split; [exact Hrow|]. split; [exact Hid|].
      apply expiredCondition_true. by rewrite Hid.
  - rewrite (executeAll_lookup table stmts db db' rows Hexec Hdb).
    f_equal. apply applyAll_rows.
  - intros Hnd row Hrow.
    destruct (Hper (PropertyCleanup.L_ListingID row)) as [-> ->].
    rewrite <- soldCondition_true, <- expiredCondition_true.
    split; (split;
            [intros (row0 & Hrow0 & Hid & Hc);
             by rewrite <- (unique_listing rows row0 row Hnd Hrow0 Hrow Hid)
            |intros Hc; eauto]).
Qed.

Lemma reconcile_decides_each_listing_witness :
  existsb (PropertyCleanup.updatesRow "Property_RE_1" "A")
    Scenario.expectedStatements = true
  /\ existsb (PropertyCleanup.deletesRow "Property_RE_1" "B")
       Scenario.expectedStatements = true
  /\ existsb (PropertyCleanup.deletesRow "Property_RE_1" "C")
       Scenario.expectedStatements = false
  /\ Scenario.expectedTables !! "Property_RE_1"
     = Some [ {| PropertyCleanup.L_ListingID := "A";
                 PropertyCleanup.L_Address := "1 Main St";
                 PropertyCleanup.L_StatusCatID := "2" |};
              {| PropertyCleanup.L_ListingID := "C";
                 PropertyCleanup.L_Address := "3 Main St";
                 PropertyCleanup.L_StatusCatID := "3" |} ].
Proof.
  destruct (reconcile_decides_each_listing Scenario.propertyClasses
              Scenario.soldIds Scenario.withdrawnOrExpiredIds
              Scenario.propertyTables Scenario.expectedTables
              Scenario.expectedStatements "Property_RE_1"
              [Scenario.rowA; Scenario.rowB; Scenario.rowC])
    as (Hu & Hd & Hdb & Hrows).
  - vm_compute. reflexivity.
  - vm_compute. reflexivity.
  - apply (bool_decide_unpack _). vm_compute. exact I.
  - vm_compute. reflexivity.
  - split; [|split; [|split]].
    + apply Hu. split; [apply (bool_decide_unpack _); vm_compute; exact I|].
      exists Scenario.rowA. split; [apply elem_of_cons; by left|].
      split; [reflexivity | discriminate].
    + apply Hd. split; [apply (bool_decide_unpack _); vm_compute; exact I|].
      exists Scenario.rowB.
      split; [apply elem_of_cons; right; apply elem_of_cons; by left|].
      split; [reflexivity | by left].
    + apply not_true_is_false. intros Hc.
      assert (NoDup (PropertyCleanup.L_ListingID
                       <$> [Scenario.rowA; Scenario.rowB; Scenario.rowC]))
        as Hnd by (apply (bool_decide_unpack _); vm_compute; exact I).
      assert (Scenario.rowC ∈ [Scenario.rowA; Scenario.rowB; Scenario.rowC])
        as Hin by (do 2 (apply elem_of_cons; right); apply elem_of_cons;
                   by left).
      destruct (Hrows Hnd Scenario.rowC Hin) as [_ HdC].
      apply HdC in Hc as [_ [Hs | Hs]]; discriminate.
    + rewrite Hdb. vm_compute. reflexivity.
Defined.

(** The scenario in full: A is set to SOLD, B is deleted, C stays. *)
Example reconcile_scenario :
  PropertyCleanup.reconcile Scenario.propertyClasses Scenario.soldIds
    Scenario.withdrawnOrExpiredIds Scenario.propertyTables
  = Ok (Scenario.expectedStatements, Scenario.expectedTables)
  /\ Scenario.expectedTables !! "Property_RE_1"
     = Some [PropertyCleanup.setSold Scenario.rowA; Scenario.rowC].
Proof. split; vm_compute; reflexivity. Qed.

(* ================================================================== *)
(** * Further properties *)
(* ================================================================== *)

(** ** Records on their way to the database *)

Section Sanitize.

Import Service.

Variable record : gmap string string.
Variable tableMetadata : list (gmap string string).



End Sanitize.



(** ** The schema generator reads the data type without regard to case *)

(** X2.  The data type of a field is read without regard to case: two
    fields that differ only in the case of the letters of DataType get
    the same MySQL type. *)
Theorem getRetsToMySQLType_ignores_case (field : gmap string string)
  (dataType1 dataType2 : string) :
  Js.toLowerCase dataType1 = Js.toLowerCase dataType2 ->
  Schema.getRetsToMySQLType (<["DataType" := dataType1]> field)
  = Schema.getRetsToMySQLType (<["DataType" := dataType2]> field).
Proof.
  intros H. unfold Schema.getRetsToMySQLType, Schema.maxLength,
    Schema.precision.
  rewrite !lookup_insert_eq. cbn [fmap option_fmap option_map].
  rewrite !lookup_insert_ne by discriminate. rewrite H. reflexivity.
Qed.

Lemma getRetsToMySQLType_ignores_case_witness :
  Schema.getRetsToMySQLType (<["DataType" := "DATETIME"]> ∅)
  = Schema.getRetsToMySQLType (<["DataType" := "DateTime"]> ∅).
Proof. apply getRetsToMySQLType_ignores_case. reflexivity. Defined.

(** ** Rows of tab-delimited data *)

Section Columns.

Import RetsParser.





End Columns.


Section Rows.

Import RetsParser.

Variable metadataTag : string -> string -> result (option string).


End Rows.



(** ** The multipart parser of lib/rets/photos.ts *)

Lemma indexOf_prefix (sub s : string) (n : nat) :
  Js.indexOf sub s = Some n -> String.prefix sub (Js.drop n s) = true.
Proof.
  revert n. induction s as [|a s IH]; intros n; cbn [Js.indexOf].
  - destruct (String.prefix sub EmptyString) eqn:Ep; [|discriminate].
    intros [= <-]. exact Ep.
  - destruct (String.prefix sub (String a s)) eqn:Ep.
    + intros [= <-]. exact Ep.
    + destruct (Js.indexOf sub s) as [k|]; [|discriminate].
      intros [= <-]. cbn [Js.drop]. by apply IH.
Qed.

Lemma multipartLoop_jpeg (fuel : nat) (buffer boundaryBytes : string)
  (start : nat) (parts : list string) :
  Forall (fun part =>
            String.prefix (String (ascii_of_N 255) (Js.str (ascii_of_N 216)))
              part = true) parts ->
  Forall (fun part =>
            String.prefix (String (ascii_of_N 255) (Js.str (ascii_of_N 216)))
              part = true)
    (Photos.multipartLoop fuel buffer boundaryBytes start parts).
Proof.
  revert start parts. induction fuel as [|fuel IH]; intros start parts Hp;
    cbn [Photos.multipartLoop]; [exact Hp|].
  destruct (Photos.indexOfFrom boundaryBytes buffer start) as [partStart|];
    [|exact Hp].
  destruct (Photos.indexOfFrom boundaryBytes buffer _) as [partEnd|];
    [|exact Hp].
  apply IH.
  destruct (Js.indexOf (Photos.crlf ++ Photos.crlf) _) as [headerEnd|];
    [|exact Hp].
  destruct (Js.indexOf _ (Js.drop (headerEnd + 4) _)) as [jpegStart|] eqn:Ej;
    [|exact Hp].
  apply Forall_app. split; [exact Hp|].
  apply Forall_cons. split; [|apply Forall_nil; exact I].
  by apply indexOf_prefix.
Qed.

(** X5.  Every part that [parseMultipartResponse] returns starts with
    the JPEG marker FF D8: what precedes the marker in a part (headers,
    blank lines) is cut off, and a part without the marker is left
    out. *)
Theorem parseMultipartResponse_parts_are_jpeg (buffer boundary : string) :
  Forall (fun part =>
            String.prefix (String (ascii_of_N 255) (Js.str (ascii_of_N 216)))
              part = true)
    (Photos.parseMultipartResponse buffer boundary).
Proof.
  unfold Photos.parseMultipartResponse. apply multipartLoop_jpeg.
  apply Forall_nil. exact I.
Qed.

(** X6.  [getPhoto]: whatever the server answers, the photos that are
    returned start with the JPEG marker; a body of fewer than 100 bytes
    gives no photo and no error, also when the content type names no
    boundary; a longer body whose content type names no boundary is an
    error. *)
Theorem getPhoto_photos_are_jpeg (session headers : gmap string string)
  (body type id : string) :
  Js.truthyProp (session !! "GetObject") = true ->
  (forall photos,
      Photos.getPhoto session (Ok (body, headers)) type id = Ok photos ->
      Forall (fun part =>
                String.prefix
                  (String (ascii_of_N 255) (Js.str (ascii_of_N 216))) part
                = true) photos)
  /\ ((String.length body < 100)%nat ->
      Photos.getPhoto session (Ok (body, headers)) type id = Ok [])
  /\ ((100 <= String.length body)%nat ->
      headers !! "content-type" = None ->
      Photos.getPhoto session (Ok (body, headers)) type id
      = Throw "No boundary found in content-type header").
Proof.
  intros Hs. unfold Photos.getPhoto. rewrite Hs. cbn [negb rbind].
  split; [|split].
  - intros photos.
    destruct (String.length body <? 100)%nat.
    + intros [= <-]. apply Forall_nil. exact I.
    + destruct (Photos.boundaryOf headers) as [boundary|]; [|discriminate].
      destruct (Js.truthy boundary); [|discriminate].
      intros [= <-]. unfold Photos.parseMultipartResponse.
      apply multipartLoop_jpeg, Forall_nil. exact I.
  - intros Hl. apply Nat.ltb_lt in Hl. by rewrite Hl.
  - intros Hl Hh. apply Nat.ltb_ge in Hl. rewrite Hl.
    unfold Photos.boundaryOf. by rewrite Hh.
Qed.

Lemma getPhoto_photos_are_jpeg_witness :
  Photos.getPhoto Scenario.session
    (Ok (Scenario.multipartBody, Scenario.multipartHeaders)) "Agent" "7"
  = Ok [Scenario.jpegPhoto]
  /\ Forall (fun part =>
               String.prefix
                 (String (ascii_of_N 255) (Js.str (ascii_of_N 216))) part
               = true) [Scenario.jpegPhoto].
Proof.
  assert (Photos.getPhoto Scenario.session
            (Ok (Scenario.multipartBody, Scenario.multipartHeaders))
            "Agent" "7" = Ok [Scenario.jpegPhoto]) as H
      by (vm_compute; reflexivity).
  assert (Js.truthyProp (Scenario.session !! "GetObject") = true) as Hs
      by (vm_compute; reflexivity).
  split; [exact H|].
  exact (proj1 (getPhoto_photos_are_jpeg Scenario.session
                  Scenario.multipartHeaders Scenario.multipartBody
                  "Agent" "7" Hs) _ H).
Defined.


(** ** Uploads that succeed *)

Lemma attemptLoop_first_success (env : SyncPhotos.Env)
  (retries remaining attempt n : nat) :
  (attempt + remaining = S retries)%nat ->
  (attempt <= n <= retries)%nat ->
  (forall k, (attempt <= k < n)%nat ->
             isOk (SyncPhotos.io_attempt env k) = false) ->
  isOk (SyncPhotos.io_attempt env n) = true ->
  fst (SyncPhotos.attemptLoop env retries remaining attempt) = Ok tt
  /\ List.filter SyncPhotos.isPut
       (snd (SyncPhotos.attemptLoop env retries remaining attempt))
     = SyncPhotos.Put <$> seq attempt (S n - attempt)
  /\ List.length (snd (SyncPhotos.attemptLoop env retries remaining attempt))
     = (2 * (n - attempt) + 1)%nat
  /\ last (snd (SyncPhotos.attemptLoop env retries remaining attempt))
     = Some (SyncPhotos.Put n).
Proof.
  revert attempt. induction remaining as [|remaining IH];
    intros attempt Hsum Hn Hfail Hok; [lia|].
  cbn [SyncPhotos.attemptLoop].
  destruct (decide (attempt = n)) as [-> | Hne].
  - destruct (SyncPhotos.io_attempt env n) as [[]|e]; [|discriminate].
    cbn. replace (S n - n)%nat with 1%nat by lia. cbn.
    replace (n - n)%nat with O by lia. done.
  - pose proof (Hfail attempt ltac:(lia)) as Hf.
    destruct (SyncPhotos.io_attempt env attempt) as [[]|e]; [discriminate|].
    destruct (Nat.eqb attempt retries) eqn:Er;
      [apply Nat.eqb_eq in Er; lia|].
    destruct (IH (S attempt)) as (H1 & H2 & H3 & H4); try lia; try done.
    { intros k Hk. apply Hfail. lia. }
    destruct (SyncPhotos.attemptLoop env retries remaining (S attempt))
      as [r evs]. cbn [fst snd] in *. split; [exact H1|].
    split; [|split].
    + cbn [List.filter SyncPhotos.isPut]. rewrite H2.
      replace (S n - attempt)%nat with (S (S n - S attempt)) by lia.
      reflexivity.
    + cbn [List.length]. rewrite H3. lia.
    + destruct evs as [|e1 evs]; [discriminate|]. exact H4.
Qed.

(** X7.  [uploadFile] stops at the first attempt that succeeds: when
    attempt [n] (at most [retries]) is the first one that the store
    accepts, the upload returns normally after exactly the PUTs 1..n,
    with a sleep between two of them and none after the last. *)
Theorem uploadFile_stops_at_first_success (env : SyncPhotos.Env) (size : Z)
  (retries n : nat) :
  SyncPhotos.io_stat env = Ok size ->
  (1 <= n <= retries)%nat ->
  (forall k, (1 <= k < n)%nat ->
             isOk (SyncPhotos.io_attempt env k) = false) ->
  isOk (SyncPhotos.io_attempt env n) = true ->
  fst (SyncPhotos.uploadFile env retries) = Ok tt
  /\ List.filter SyncPhotos.isPut (snd (SyncPhotos.uploadFile env retries))
     = SyncPhotos.Put <$> seq 1 n
  /\ List.length (snd (SyncPhotos.uploadFile env retries))
     = (2 * n - 1)%nat
  /\ last (snd (SyncPhotos.uploadFile env retries))
     = Some (SyncPhotos.Put n).
Proof.
  intros Hstat Hn Hfail Hok. unfold SyncPhotos.uploadFile. rewrite Hstat.
  destruct (attemptLoop_first_success env retries retries 1 n)
    as (H1 & H2 & H3 & H4); try lia; try done.
  split; [exact H1|]. split; [|split; [|exact H4]].
  - rewrite H2. by replace (S n - 1)%nat with n by lia.
  - rewrite H3. lia.
Qed.

Lemma uploadFile_stops_at_first_success_witness :
  fst (SyncPhotos.uploadFile Scenario.flakyStore 5) = Ok tt
  /\ List.filter SyncPhotos.isPut
       (snd (SyncPhotos.uploadFile Scenario.flakyStore 5))
     = [SyncPhotos.Put 1; SyncPhotos.Put 2; SyncPhotos.Put 3]
  /\ List.length (snd (SyncPhotos.uploadFile Scenario.flakyStore 5))
     = 5%nat.
Proof.
  destruct (uploadFile_stops_at_first_success Scenario.flakyStore 1024
              5 3) as (H1 & H2 & H3 & _).
  - reflexivity.
  - lia.
  - intros k Hk. destruct k as [|[|[|k]]]; try lia; reflexivity.
  - reflexivity.
  - split; [exact H1|]. split; [exact H2 | exact H3].
Defined.


(** ** The gate of a full sync over time *)

(** X8.  Once a full sync is due it stays due: [shouldRunFullSync] is
    monotone in the clock, and with no full sync on record it is due at
    any time. *)
Theorem shouldRunFullSync_stays_due (lastFullSync : option Z)
  (now later : Z) :
  Service.shouldRunFullSync None now = true
  /\ (now <= later ->
      Service.shouldRunFullSync lastFullSync now = true ->
      Service.shouldRunFullSync lastFullSync later = true).
Proof.
  split; [reflexivity|]. intros Hle.
  destruct lastFullSync as [last|]; cbn; [|done].
  rewrite !Z.leb_le. lia.
Qed.

Lemma shouldRunFullSync_stays_due_witness :
  Service.shouldRunFullSync (Some 0) (4 * 3600000) = true.
Proof.
  apply (proj2 (shouldRunFullSync_stays_due (Some 0) (3 * 3600000)
                  (4 * 3600000))); [lia | reflexivity].
Defined.


(** ** Grouping by table *)

(** X9.  [groupByTable] turns the map around: a listing id is grouped
    under a table exactly when the table is among the tables filed under
    that listing id. *)
Theorem groupByTable_transposes
  (matches : list (string * PropertyCleanup.MatchInfo)) (table id : string) :
  id ∈ PropertyCleanup.idsOf table (PropertyCleanup.groupByTable matches)
  <-> exists info,
        (id, info) ∈ matches /\ table ∈ PropertyCleanup.tables info.
Proof.
  split.
  - unfold PropertyCleanup.idsOf.
    destruct (PropertyCleanup.mapGet table
                (PropertyCleanup.groupByTable matches)) as [ids|] eqn:Eg;
      cbn; [|intros H; by apply elem_of_nil in H].
    intros Hi. apply mapGet_elem_of in Eg.
    exact (groupByTable_sound matches table id ids Eg Hi).
  - intros (info & Hin & Ht).
    exact (groupByTable_complete matches table id info Hin Ht).
Qed.

(** ** What the reconciler leaves alone *)

Lemma untouched_rows (f g : PropertyCleanup.Row -> bool)
  (h : PropertyCleanup.Row -> PropertyCleanup.Row)
  (rows : list PropertyCleanup.Row) :
  (forall r, f r = false) -> (forall r, g r = false) ->
  List.filter (fun r => negb (f r)) ((fun r => if g r then h r else r) <$> rows)
  = rows.
Proof.
  intros Hf Hg. induction rows as [|r rows IH]; [reflexivity|].
  cbn [fmap list_fmap List.filter] in *. rewrite Hg, Hf. cbn [negb].
  by rewrite IH.
Qed.

Lemma statements_name_property_tables (classes : list string)
  (sold expired : gset string)
  (db db' : gmap string (list PropertyCleanup.Row))
  (stmts : list PropertyCleanup.Statement) (table id : string) :
  PropertyCleanup.reconcile classes sold expired db = Ok (stmts, db') ->
  existsb (PropertyCleanup.updatesRow table id) stmts = true
  \/ existsb (PropertyCleanup.deletesRow table id) stmts = true ->
  table ∈ ((fun cls => "Property_" ++ cls) <$> classes).
Proof.
  intros Hrec Hnamed. unfold PropertyCleanup.reconcile in Hrec.
  set (ts := (fun cls => "Property_" ++ cls) <$> classes) in *.
  destruct (negb (PropertyCleanup.checkPropertyTables db)).
  { injection Hrec as <- <-. cbn in Hnamed. by destruct Hnamed. }
  destruct (bool_decide (sold ∪ expired ≠ ∅)).
  - destruct (PropertyCleanup.scanTables sold expired db ts ([], []))
      as [matches|e] eqn:Escan; cbn in Hrec; [|discriminate].
    destruct (PropertyCleanup.executeAll _ db) as [db1|e] eqn:Eexec;
      cbn in Hrec; [|discriminate].
    injection Hrec as <- <-.
    apply scanTables_spec in Escan. subst matches.
    rewrite statementsOf_updates, statementsOf_deletes in Hnamed.
    cbn [fst snd] in Hnamed.
    destruct Hnamed as [(ids & Hin & Hi) | (ids & Hin & Hi)];
      destruct (groupByTable_sound _ _ _ _ Hin Hi) as (info & Hinfo & Ht);
      eapply (fileTables_sound _ db ts [] (fun _ t => t ∈ ts));
      eauto; intros ? ? ? Hx; by apply elem_of_nil in Hx.
  - cbn in Hrec. injection Hrec as <- <-. cbn in Hnamed. by destruct Hnamed.
Qed.

(** X10.  The reconciler adds nothing and rewrites nothing but the
    status: after a run, every row of a table comes from a row that was
    there, with its listing id and its address, and with its status
    either kept or set to "2"; no table has more rows than before, and a
    table that is not a property table of the catalog keeps its rows as
    they were. *)
Theorem reconcile_never_adds_rows (classes : list string)
  (sold expired : gset string)
  (db db' : gmap string (list PropertyCleanup.Row))
  (stmts : list PropertyCleanup.Statement) (table : string)
  (rows : list PropertyCleanup.Row) :
  PropertyCleanup.reconcile classes sold expired db = Ok (stmts, db') ->
  db !! table = Some rows ->
  exists rows',
    db' !! table = Some rows'
    /\ (List.length rows' <= List.length rows)%nat
    /\ (forall r',
          r' ∈ rows' ->
          exists r,
            r ∈ rows
            /\ PropertyCleanup.L_ListingID r' = PropertyCleanup.L_ListingID r
            /\ PropertyCleanup.L_Address r' = PropertyCleanup.L_Address r
            /\ (PropertyCleanup.L_StatusCatID r'
                = PropertyCleanup.L_StatusCatID r
                \/ PropertyCleanup.L_StatusCatID r' = "2"))
    /\ (table ∉ ((fun cls => "Property_" ++ cls) <$> classes) ->
        rows' = rows).
Proof.
  intros Hrec Hdb.
  assert (PropertyCleanup.executeAll stmts db = Ok db') as Hexec.
  { unfold PropertyCleanup.reconcile in Hrec.
    destruct (negb (PropertyCleanup.checkPropertyTables db));
      [by injection Hrec as <- <-|].
    destruct (if bool_decide (sold ∪ expired ≠ ∅) then _ else _)
      as [matches|e]; cbn in Hrec; [|discriminate].
    destruct (PropertyCleanup.executeAll _ db) as [db1|e] eqn:Eexec;
      cbn in Hrec; [|discriminate].
    by injection Hrec as <- <-. }
  exists (List.filter
            (fun r =>
               negb (existsb
                       (PropertyCleanup.deletesRow table
                          (PropertyCleanup.L_ListingID r)) stmts))
            ((fun r =>
                if existsb
                     (PropertyCleanup.updatesRow table
                        (PropertyCleanup.L_ListingID r)) stmts
                then {| PropertyCleanup.L_ListingID :=
                          PropertyCleanup.L_ListingID r;
                        PropertyCleanup.L_Address :=
                          PropertyCleanup.L_Address r;
                        PropertyCleanup.L_StatusCatID := "2" |}
                else r) <$> rows)).
  split.
  { rewrite (executeAll_lookup table stmts db db' rows Hexec Hdb).
    f_equal. apply applyAll_rows. }
  split; [|split].
  - etransitivity; [apply filter_length_le|]. by rewrite length_fmap.
  - intros r' Hr'. apply elem_of_List_filter in Hr' as [Hr' _].
    apply list_elem_of_fmap in Hr' as (r & -> & Hr).
    exists r. split; [exact Hr|].
    destruct (existsb _ stmts); cbn; auto.
  - intros Hnot. apply untouched_rows; intros r; apply not_true_is_false;
      intros Hn; apply Hnot;
      apply (statements_name_property_tables classes sold expired db db'
               stmts table (PropertyCleanup.L_ListingID r) Hrec); auto.
Qed.

Lemma reconcile_never_adds_rows_witness :
  exists rows',
    Scenario.expectedTables !! "Property_RE_1" = Some rows'
    /\ (List.length rows' <= 3)%nat.
Proof.
  destruct (reconcile_never_adds_rows Scenario.propertyClasses
              Scenario.soldIds Scenario.withdrawnOrExpiredIds
              Scenario.propertyTables Scenario.expectedTables
              Scenario.expectedStatements "Property_RE_1"
              [Scenario.rowA; Scenario.rowB; Scenario.rowC])
    as (rows' & Hdb & Hlen & _).
  - vm_compute. reflexivity.
  - vm_compute. reflexivity.
  - exists rows'. split; [exact Hdb | exact Hlen].
Defined.


(** ** A batch on its way into the table *)

Section Upsert.

Import Service.

Variable env : Env.
Variable p : PairId.
Variable table : string.
Variable tableMetadata : list (gmap string string).

Let replaceOf (rec : gmap string string) : Event :=
  {| pair := p;
     action := ReplaceInto table (sanitizeRecord rec tableMetadata) |}.

Let body (rec : gmap string string) (l : Locals) : M Locals :=
  catch
    (bind
       (perform p (ReplaceInto table (sanitizeRecord rec tableMetadata))
          (fun n =>
             io_query env n
               (ReplaceInto table (sanitizeRecord rec tableMetadata))))
       (fun _ =>
          ret {| lockout := lockout l; unauthorized := unauthorized l;
                 upserted := S (upserted l) |}))
    (fun _ => ret l).

Lemma forEach_replace (records : list (gmap string string)) (l : Locals)
  (w : World) :
  exists l' w',
    forEach records body l w = (Done l', w')
    /\ trace w' = (trace w ++ (replaceOf <$> records))%list
    /\ lockoutFile w' = lockoutFile w
    /\ lockout l' = lockout l
    /\ unauthorized l' = unauthorized l
    /\ (upserted l <= upserted l' <= upserted l + List.length records)%nat
    /\ ((forall n rec, rec ∈ records ->
           isOk (io_query env n
                   (ReplaceInto table (sanitizeRecord rec tableMetadata)))
           = true) ->
        upserted l' = (upserted l + List.length records)%nat).
Proof.
  revert l w. induction records as [|rec records IH]; intros l w.
  - exists l, w. cbn. rewrite app_nil_r. repeat split; lia.
  - cbn [forEach]. unfold bind at 1.
    assert (exists l1,
               body rec l w = (Done l1, record p (action (replaceOf rec)) w)
               /\ lockout l1 = lockout l
               /\ unauthorized l1 = unauthorized l
               /\ (upserted l <= upserted l1 <= S (upserted l))%nat
               /\ (isOk (io_query env (List.length (trace w))
                           (ReplaceInto table
                              (sanitizeRecord rec tableMetadata))) = true ->
                   upserted l1 = S (upserted l))) as (l1 & -> & H1).
    { unfold body, catch, bind, perform, lift. cbn [replaceOf action].
      destruct (io_query env _ _) as [[]|e]; cbn.
      - eexists. split; [reflexivity|]. cbn. repeat split; lia.
      - exists l. split; [reflexivity|].
        repeat split; first [lia | discriminate]. }
    destruct H1 as (Hl1 & Hu1 & Hc1 & Hall1).
    destruct (IH l1 (record p (action (replaceOf rec)) w))
      as (l' & w' & -> & Ht & Hf & Hl & Hu & Hc & Hall).
    exists l', w'. split; [reflexivity|].
    split; [rewrite Ht; cbn; by rewrite <- app_assoc|].
    split; [by rewrite Hf|]. split; [congruence|]. split; [congruence|].
    cbn [List.length]. split; [lia|].
    intros Hok. rewrite Hall, Hall1; [lia| |].
    + apply Hok. by apply elem_of_cons; left.
    + intros n rec' Hin. apply Hok. by apply elem_of_cons; right.
Qed.

(** X11.  A batch that holds records, in a pair that is not locked out:
    the callback of [syncData] issues one REPLACE per record, in the
    order of the batch and with the sanitized record, and nothing else;
    a REPLACE that the database rejects does not stop the batch; the
    count of upserted records grows by at most the size of the batch,
    and by exactly that when every REPLACE succeeds; the lockout set and
    the lockout file stay as they are. *)
Theorem upsertCallback_replaces_each_record (lockoutKey : string)
  (records : list (gmap string string)) (parsed : RetsParser.RetsResponse)
  (l : Locals) (w : World) :
  records <> [] ->
  unauthorized l = false ->
  exists l' w',
    upsertCallback env p lockoutKey table tableMetadata records parsed l w
    = (Done l', w')
    /\ trace w'
       = (trace w
          ++ ((fun rec =>
                 {| pair := p;
                    action :=
                      ReplaceInto table (sanitizeRecord rec tableMetadata) |})
              <$> records))%list
    /\ lockoutFile w' = lockoutFile w
    /\ lockout l' = lockout l
    /\ unauthorized l' = false
    /\ (upserted l <= upserted l' <= upserted l + List.length records)%nat
    /\ ((forall n rec, rec ∈ records ->
           isOk (io_query env n
                   (ReplaceInto table (sanitizeRecord rec tableMetadata)))
           = true) ->
        upserted l' = (upserted l + List.length records)%nat).
Proof.
  intros Hne Hu. unfold upsertCallback. rewrite Hu.
  destruct records as [|rec records]; [done|].
  destruct (forEach_replace (rec :: records) l w)
    as (l' & w' & He & Ht & Hf & Hl & Hun & Hc & Hall).
  exists l', w'. split; [exact He|]. split; [exact Ht|].
  split; [exact Hf|]. split; [exact Hl|]. split; [congruence|].
  split; [exact Hc | exact Hall].
Qed.

End Upsert.

Lemma upsertCallback_replaces_each_record_witness :
  exists l' w',
    Service.upsertCallback Scenario.rejectingEnv Scenario.propertyPair
      "Property::CI_3" "Property_CI_3" []
      [Scenario.firstRecord; Scenario.secondRecord]
      (Scenario.parsedOf Scenario.bareSearchResult) Scenario.noLocals
      Scenario.emptyWorld
    = (Service.Done l', w')
    /\ Service.trace w'
       = [ {| Service.pair := Scenario.propertyPair;
              Service.action :=
                Service.ReplaceInto "Property_CI_3"
                  (Service.sanitizeRecord Scenario.firstRecord []) |};
           {| Service.pair := Scenario.propertyPair;
              Service.action :=
                Service.ReplaceInto "Property_CI_3"
                  (Service.sanitizeRecord Scenario.secondRecord []) |} ]
    /\ (Service.upserted l' <= 2)%nat.
Proof.
  destruct (upsertCallback_replaces_each_record Scenario.rejectingEnv
              Scenario.propertyPair "Property_CI_3" [] "Property::CI_3"
              [Scenario.firstRecord; Scenario.secondRecord]
              (Scenario.parsedOf Scenario.bareSearchResult)
              Scenario.noLocals Scenario.emptyWorld)
    as (l' & w' & He & Ht & _ & _ & _ & Hc & _).
  - discriminate.
  - reflexivity.
  - exists l', w'. split; [exact He|]. split; [exact Ht|]. apply Hc.
Defined.
